(** * Events backend: the rate-limited, cached upstream-access core

    A shallow embedding of
    - [Backend/services/rate_limiter.py]  ([TwitterRateLimiter], [APICache]),
    - [Backend/services/twitter_client.py] ([TwitterClient]),
    - [Backend/engines/attendee_engine.py] ([SmartAttendeeEngine]),
    - [Backend/engines/event_engine.py]    ([SmartEventEngine]),
    - [Backend/app.py]                     (the two discovery handlers),
    followed by the properties of the specification that concern them.

    Conventions of the embedding.
    - Python [str] is [string]; only ASCII text is covered ([lower], [strip]
      and the digit classes are the ASCII ones).
    - Python [int] is [Z].  Clock readings ([datetime.now()], [time.time()])
      are [Z] seconds; every reading is taken from an oracle [clock], indexed
      by the number of readings made so far, so no assumption is made on how
      time passes between two readings.  [datetime.fromtimestamp] is an
      oracle [fromtimestamp] as well: which timestamps it converts depends on
      the platform.
    - A [dict] whose iteration order is observed (the ranges of a location in
      the event cache) is an association list in insertion order; the other
      dictionaries are [gmap]s.
    - Mutable objects are threaded explicitly: a [World] for the Twitter
      client, the [event_cache] for the event engine.  Exceptions are values
      of [result]. *)

From Stdlib Require Import ZArith String Ascii List Bool Lia QArith.
From stdpp Require Import gmap strings list fin_maps pretty.

Local Open Scope Z_scope.

#[local] Set Warnings "-clear-no-such-hyp".

(** ** Python primitives used by the sources *)

Module Py.

Definition is_digit (c : ascii) : bool :=
  (48 <=? nat_of_ascii c)%nat && (nat_of_ascii c <=? 57)%nat.

(** [1-9] *)
Definition is_digit19 (c : ascii) : bool :=
  (49 <=? nat_of_ascii c)%nat && (nat_of_ascii c <=? 57)%nat.

Definition digit_value (c : ascii) : Z := Z.of_nat (nat_of_ascii c) - 48.

(** [str.isspace] on ASCII: TAB, LF, VT, FF, CR, FS, GS, RS, US and SPACE. *)
Definition is_space (c : ascii) : bool :=
  let n := nat_of_ascii c in
  ((9 <=? n)%nat && (n <=? 13)%nat) || ((28 <=? n)%nat && (n <=? 32)%nat).

Definition is_empty (s : string) : bool :=
  match s with EmptyString => true | String _ _ => false end.

Fixpoint lstrip (s : string) : string :=
  match s with
  | EmptyString => EmptyString
  | String c r => if is_space c then lstrip r else s
  end.

Fixpoint rstrip (s : string) : string :=
  match s with
  | EmptyString => EmptyString
  | String c r =>
      let r' := rstrip r in
      if is_space c && is_empty r' then EmptyString else String c r'
  end.

(** [s.strip()] *)
Definition strip (s : string) : string := rstrip (lstrip s).

Definition lower_char (c : ascii) : ascii :=
  let n := nat_of_ascii c in
  if (65 <=? n)%nat && (n <=? 90)%nat then ascii_of_nat (n + 32) else c.

(** [s.lower()] *)
Fixpoint lower (s : string) : string :=
  match s with
  | EmptyString => EmptyString
  | String c r => String (lower_char c) (lower r)
  end.

(** [s.split(sep)] for a one-character separator. *)
Fixpoint split (sep : ascii) (s : string) : list string :=
  match s with
  | EmptyString => [EmptyString]
  | String c r =>
      if Ascii.eqb c sep then EmptyString :: split sep r
      else match split sep r with
           | [] => [String c EmptyString]
           | w :: ws => String c w :: ws
           end
  end.

(** The digits of [int(s)]: decimal digits, single underscores allowed
    between two digits. *)
Fixpoint int_digits (acc : Z) (after_digit : bool) (s : string) : option Z :=
  match s with
  | EmptyString => if after_digit then Some acc else None
  | String c r =>
      if is_digit c then int_digits (10 * acc + digit_value c) true r
      else if Ascii.eqb c "_" then
        (if after_digit then int_digits acc false r else None)
      else None
  end.

(** [int(s)] for a string [s]; [None] is [ValueError]. *)
Definition int (s : string) : option Z :=
  match strip s with
  | String "-" r => Z.opp <$> int_digits 0 false r
  | String "+" r => int_digits 0 false r
  | r => int_digits 0 false r
  end.

(** [max(a, b)], [min(a, b)] on integers. *)
Definition max (a b : Z) : Z := Z.max a b.
Definition min (a b : Z) : Z := Z.min a b.

(** [l[:n]] for any integer [n]: a negative [n] counts from the end. *)
Definition slice_to {A} (l : list A) (n : Z) : list A :=
  if 0 <=? n then take (Z.to_nat n) l
  else take (Z.to_nat (Z.of_nat (length l) + n)) l.

(** The date part of a [datetime]; all datetimes compared by the event
    engine come from [strptime(_, '%Y-%m-%d')], so their time of day is 0. *)
Record datetime := mkDate { year : Z; month : Z; day : Z }.

Definition dt_lt (a b : datetime) : bool :=
  (year a <? year b)
  || ((year a =? year b)
      && ((month a <? month b) || ((month a =? month b) && (day a <? day b)))).

Definition dt_le (a b : datetime) : bool := negb (dt_lt b a).

Definition is_leap (y : Z) : bool :=
  (y mod 4 =? 0) && (negb (y mod 100 =? 0) || (y mod 400 =? 0)).

Definition days_in_month (y m : Z) : Z :=
  if m =? 2 then (if is_leap y then 29 else 28)
  else if (m =? 4) || (m =? 6) || (m =? 9) || (m =? 11) then 30
  else 31.

(** [%m]: the regular expression [1[0-2]|0[1-9]|[1-9]]. *)
Definition parse_month (s : string) : option (Z * string) :=
  match s with
  | String "1" (String c r) =>
      if is_digit c && (nat_of_ascii c <=? 50)%nat
      then Some (10 + digit_value c, r) else Some (1, String c r)
  | String "0" (String c r) =>
      if is_digit19 c then Some (digit_value c, r) else None
  | String c r => if is_digit19 c then Some (digit_value c, r) else None
  | EmptyString => None
  end.

(** [%d]: the regular expression [3[01]|[12]\d|0[1-9]|[1-9]| [1-9]]. *)
Definition parse_day (s : string) : option (Z * string) :=
  match s with
  | String "3" (String c r) =>
      if is_digit c && (nat_of_ascii c <=? 49)%nat
      then Some (30 + digit_value c, r) else Some (3, String c r)
  | String "1" (String c r) =>
      if is_digit c then Some (10 + digit_value c, r) else Some (1, String c r)
  | String "2" (String c r) =>
      if is_digit c then Some (20 + digit_value c, r) else Some (2, String c r)
  | String "0" (String c r) =>
      if is_digit19 c then Some (digit_value c, r) else None
  | String " " (String c r) =>
      if is_digit19 c then Some (digit_value c, r) else None
  | String c r => if is_digit19 c then Some (digit_value c, r) else None
  | EmptyString => None
  end.

(** [datetime.strptime(s, '%Y-%m-%d')]; [None] is [ValueError] (no match,
    unconverted data, or a day that the month does not have). *)
Definition strptime (s : string) : option datetime :=
  match s with
  | String y1 (String y2 (String y3 (String y4 (String "-" r)))) =>
      if is_digit y1 && is_digit y2 && is_digit y3 && is_digit y4 then
        let y := 1000 * digit_value y1 + 100 * digit_value y2
                 + 10 * digit_value y3 + digit_value y4 in
        match parse_month r with
        | Some (m, String "-" r') =>
            match parse_day r' with
            | Some (d, EmptyString) =>
                if (1 <=? y) && (d <=? days_in_month y m)
                then Some (mkDate y m d) else None
            | _ => None
            end
        | _ => None
        end
      else None
  | _ => None
  end.

(** ASCII characters: on strings made of them [lower] and [strip] above are
    [str.lower] and [str.strip]. *)
Definition is_ascii (c : ascii) : bool := (nat_of_ascii c <? 128)%nat.

Fixpoint all_ascii (s : string) : bool :=
  match s with
  | EmptyString => true
  | String c r => is_ascii c && all_ascii r
  end.

(** The decimal digit [k] as a character. *)
Definition digit_char (k : Z) : ascii :=
  if (0 <=? k) && (k <=? 9) then ascii_of_nat (48 + Z.to_nat k) else "?"%char.

Definition two_digits (n : Z) : string :=
  String (digit_char (n / 10)) (String (digit_char (n mod 10)) EmptyString).

Definition four_digits (n : Z) : string :=
  String (digit_char (n / 1000))
    (String (digit_char (n / 100 mod 10)) (two_digits (n mod 100))).

(** [%Y] of [strftime]: the year in decimal; for a year below 1000 the C
    library of the platform decides whether zeros are put in front
    ([zero_padded]) or not. *)
Definition strftime_Y (zero_padded : bool) (y : Z) : string :=
  if zero_padded || (1000 <=? y) then four_digits y
  else if 100 <=? y then String (digit_char (y / 100)) (two_digits (y mod 100))
  else if 10 <=? y then two_digits y
  else String (digit_char y) EmptyString.

(** [d.strftime('%Y-%m-%d')] *)
Definition strftime (zero_padded : bool) (d : datetime) : string :=
  strftime_Y zero_padded (year d) +:+ "-" +:+ two_digits (month d)
    +:+ "-" +:+ two_digits (day d).

End Py.


(** ** Values exchanged with the upstream API *)

(** Exceptions that [make_request_with_retry] tells apart:
    [tweepy.TooManyRequests], [tweepy.BadRequest], and every other
    [Exception]. *)
Inductive exn := TooManyRequests | BadRequest | OtherException.

Inductive result (A : Type) :=
| Ok (a : A)
| Raise (e : exn).
Arguments Ok {A} a.
Arguments Raise {A} e.

(** Argument values of a request: [None], a string, an integer, a list of
    strings. *)
Inductive PyVal :=
| VNone
| VStr (s : string)
| VInt (z : Z)
| VList (l : list string).

Definition truthy (v : PyVal) : bool :=
  match v with
  | VNone => false
  | VStr s => negb (Py.is_empty s)
  | VInt z => negb (z =? 0)
  | VList l => match l with [] => false | _ :: _ => true end
  end.

Record Tweet := mkTweet {
  tweet_id : Z;
  tweet_author_id : Z;
  tweet_text : string;
  tweet_created_at : string
}.

(** The [public_metrics] attribute of a user object: missing, [None], or
    a dictionary with or without a ['followers_count'] entry. *)
Inductive PublicMetrics :=
| NoPublicMetrics
| PublicMetricsNone
| PublicMetricsDict (followers_count : option Z).

Record User := mkUser {
  user_id : Z;
  user_username : string;
  user_name : string;
  user_description : option string;
  user_location : option string;
  user_public_metrics : PublicMetrics;
  user_verified : option bool
}.

(** A response object: its truth value, its [headers] attribute when it has
    one, [data] and [includes['users']] (both empty when missing). *)
Record Response := mkResponse {
  resp_truthy : bool;
  resp_headers : option (gmap string string);
  resp_data : list Tweet;
  resp_users : list User
}.

(** The positional and keyword arguments of one request. *)
Record Call := mkCall {
  call_args : list PyVal;
  call_kwargs : gmap string PyVal
}.

(** What one invocation of a request function does: it returns a response
    (or [None]) or raises. *)
Inductive Outcome :=
| Returns (r : option Response)
| Raises (e : exn).

(** A request function; its behaviour may depend on how many upstream
    invocations were made before this one, and on the arguments. *)
Definition RequestFunc : Type := nat -> Call -> Outcome.

(** [tweepy.Client]: only [search_recent_tweets] is used. *)
Record Client := mkClient { search_recent_tweets : RequestFunc }.

(** ** State *)

(** One entry of [TwitterRateLimiter.rate_limits]. *)
Record LimitInfo := mkLimitInfo {
  limit : Z;
  remaining : Z;
  reset_time : option Z;
  window_minutes : Z
}.

(** [time.sleep] calls, by the place that makes them, with the part of the
    duration that is not random jitter. *)
Inductive Sleep :=
| QuotaWait (seconds : Z)
| RetryBackoff (seconds : Z).

(** The [TwitterClient] object with its [TwitterRateLimiter] and [APICache],
    the number of clock readings made, and the log of upstream invocations
    and sleeps. *)
Record World := mkWorld {
  client : option Client;
  rate_limits : gmap string LimitInfo;
  cache : gmap string (Response * Z);
  ttl : Z;
  ticks : nat;
  invocations : list Call;
  sleeps : list Sleep
}.

Definition with_rate_limits (rl : gmap string LimitInfo) (w : World) : World :=
  mkWorld (client w) rl (cache w) (ttl w) (ticks w) (invocations w) (sleeps w).

Definition with_cache (c : gmap string (Response * Z)) (w : World) : World :=
  mkWorld (client w) (rate_limits w) c (ttl w) (ticks w) (invocations w) (sleeps w).

Definition with_ticks (n : nat) (w : World) : World :=
  mkWorld (client w) (rate_limits w) (cache w) (ttl w) n (invocations w) (sleeps w).

Definition with_invocations (l : list Call) (w : World) : World :=
  mkWorld (client w) (rate_limits w) (cache w) (ttl w) (ticks w) l (sleeps w).

Definition with_sleeps (l : list Sleep) (w : World) : World :=
  mkWorld (client w) (rate_limits w) (cache w) (ttl w) (ticks w) (invocations w) l.

(** ** A state and exception monad *)

Definition M (A : Type) : Type := World -> result A * World.

#[global] Instance M_ret : MRet M := fun A a w => (Ok a, w).

#[global] Instance M_bind : MBind M := fun A B f m w =>
  match m w with
  | (Ok a, w') => f a w'
  | (Raise e, w') => (Raise e, w')
  end.

Definition raise {A} (e : exn) : M A := fun w => (Raise e, w).

(** [try: body except e: handler e] *)
Definition try_except {A} (body : M A) (handler : exn -> M A) : M A :=
  fun w =>
    match body w with
    | (Ok a, w') => (Ok a, w')
    | (Raise e, w') => handler e w'
    end.

Definition gets {A} (f : World -> A) : M A := fun w => (Ok (f w), w).

Definition modify (f : World -> World) : M unit := fun w => (Ok tt, f w).

(** [time.sleep(seconds + jitter)] *)
Definition sleep (s : Sleep) : M unit :=
  modify (fun w => with_sleeps (sleeps w ++ [s]) w).

(** The call of [request_func] on the arguments it was given. *)
Definition invoke (request_func : RequestFunc) (call : Call) : M (option Response) :=
  fun w =>
    let w' := with_invocations (invocations w ++ [call]) w in
    match request_func (length (invocations w)) call with
    | Returns r => (Ok r, w')
    | Raises e => (Raise e, w')
    end.

(** ** [services/rate_limiter.py] and [services/twitter_client.py] *)

Section TwitterClient.

(** The clock: [clock n] is the value of the [n]-th reading. *)
Variable clock : nat -> Z.

(** The built-in [hash] on strings (salted per process). *)
Variable hash : string -> Z.

(** [datetime.fromtimestamp]: the local date and time of a POSIX timestamp,
    on the scale of the clock; [None] when it raises (a timestamp outside
    the range that the platform converts). *)
Variable fromtimestamp : Z -> option Z.

(** [datetime.now()] and [time.time()] *)
Definition now : M Z :=
  fun w => (Ok (clock (ticks w)), with_ticks (S (ticks w)) w).

(** *** [TwitterRateLimiter] *)

(** [setup_default_limits] *)
Definition setup_default_limits : gmap string LimitInfo :=
  <["users" := mkLimitInfo 300 300 None 15]>
    (<["search_recent" := mkLimitInfo 450 450 None 15]> ∅).

Definition set_limit (v : Z) (i : LimitInfo) : LimitInfo :=
  mkLimitInfo v (remaining i) (reset_time i) (window_minutes i).

Definition set_remaining (v : Z) (i : LimitInfo) : LimitInfo :=
  mkLimitInfo (limit i) v (reset_time i) (window_minutes i).

Definition set_reset_time (v : option Z) (i : LimitInfo) : LimitInfo :=
  mkLimitInfo (limit i) (remaining i) v (window_minutes i).

(** The assignment [limit_info[...] = ...] on the entry of [endpoint]. *)
Definition store_limit_info (endpoint : string) (i : LimitInfo) : M unit :=
  modify (fun w => with_rate_limits (<[endpoint := i]> (rate_limits w)) w).

(** [check_rate_limit(endpoint)] *)
Definition check_rate_limit (endpoint : string) : M bool :=
  rl ← gets rate_limits;
  match rl !! endpoint with
  | None => mret true
  | Some limit_info =>
      limit_info ←
        match reset_time limit_info with
        | Some reset =>
            t ← now;
            if reset <? t
            then mret (set_reset_time None (set_remaining (limit limit_info) limit_info))
            else mret limit_info
        | None => mret limit_info
        end;
      if 0 <? remaining limit_info then
        store_limit_info endpoint
          (set_remaining (remaining limit_info - 1) limit_info);;
        mret true
      else
        limit_info ←
          match reset_time limit_info with
          | None =>
              t ← now;
              mret (set_reset_time (Some (t + window_minutes limit_info * 60)) limit_info)
          | Some _ => mret limit_info
          end;
        store_limit_info endpoint limit_info;;
        mret false
  end.

(** [int(headers[name])] inside [update_from_headers]. *)
Definition int_header (value : string) : M Z :=
  match Py.int value with
  | Some z => mret z
  | None => raise OtherException
  end.

(** One [if name in headers: limit_info[field] = ...] of
    [update_from_headers]. *)
Definition update_field (endpoint : string) (headers : gmap string string)
    (name : string) (set : Z -> LimitInfo -> LimitInfo) : M unit :=
  match headers !! name with
  | None => mret tt
  | Some value =>
      z ← int_header value;
      rl ← gets rate_limits;
      match rl !! endpoint with
      | Some limit_info => store_limit_info endpoint (set z limit_info)
      | None => mret tt
      end
  end.

(** [datetime.fromtimestamp(reset_timestamp)] inside
    [update_from_headers]. *)
Definition reset_datetime (reset_timestamp : Z) : M Z :=
  match fromtimestamp reset_timestamp with
  | Some reset => mret reset
  | None => raise OtherException
  end.

(** The last [if] of [update_from_headers]: the reset header is read as an
    integer, converted to a date and time, and stored; either step may
    raise, and nothing is stored then. *)
Definition update_reset_time (endpoint : string) (headers : gmap string string)
    : M unit :=
  match headers !! "x-rate-limit-reset" with
  | None => mret tt
  | Some value =>
      reset_timestamp ← int_header value;
      reset ← reset_datetime reset_timestamp;
      rl ← gets rate_limits;
      match rl !! endpoint with
      | Some limit_info =>
          store_limit_info endpoint (set_reset_time (Some reset) limit_info)
      | None => mret tt
      end
  end.

(** [update_from_headers(endpoint, headers)]; a header that [int] or
    [datetime.fromtimestamp] rejects raises after the earlier fields were
    stored. *)
Definition update_from_headers (endpoint : string)
    (headers : gmap string string) : M unit :=
  rl ← gets rate_limits;
  match rl !! endpoint with
  | None => mret tt
  | Some _ =>
      update_field endpoint headers "x-rate-limit-limit" set_limit;;
      update_field endpoint headers "x-rate-limit-remaining" set_remaining;;
      update_reset_time endpoint headers
  end.

(** [get_wait_time(endpoint)] *)
Definition get_wait_time (endpoint : string) : M Z :=
  rl ← gets rate_limits;
  match rl !! endpoint with
  | None => mret 0
  | Some limit_info =>
      match reset_time limit_info with
      | Some reset => t ← now; mret (Py.max (reset - t) 0)
      | None => mret 60
      end
  end.

(** *** [APICache] *)

(** [APICache.get(key)] *)
Definition cache_get (key : string) : M (option Response) :=
  c ← gets cache;
  match c !! key with
  | Some (data, timestamp) =>
      t ← now;
      lifetime ← gets ttl;
      if t - timestamp <? lifetime then mret (Some data)
      else modify (fun w => with_cache (delete key (cache w)) w);; mret None
  | None => mret None
  end.

(** [APICache.set(key, value)] *)
Definition cache_set (key : string) (value : Response) : M unit :=
  t ← now;
  modify (fun w => with_cache (<[key := (value, t)]> (cache w)) w).

(** [APICache.clear_expired()] *)
Definition clear_expired : M unit :=
  t ← now;
  lifetime ← gets ttl;
  modify (fun w =>
    with_cache (filter (fun kv => ¬ (lifetime <= t - (snd kv).2)) (cache w)) w).

(** *** [TwitterClient] *)

(** [TwitterClient.__init__], with the client that [setup_client] obtained
    ([None] when it failed). *)
Definition new_twitter_client (c : option Client) : World :=
  mkWorld c setup_default_limits ∅ (30 * 60) 0 [] [].

Definition max_retries : Z := 1.
Definition base_delay : Z := 2.
Definition max_wait : Z := 10.

(** [hash(n)] on an integer. *)
Definition int_hash (z : Z) : Z :=
  let h := Z.sgn z * (Z.abs z mod (2 ^ 61 - 1)) in
  if h =? -1 then -2 else h.

(** [hash(query)]; a list is unhashable ([TypeError]).  [None] is never
    hashed, the query being truthy. *)
Definition py_hash (v : PyVal) : M Z :=
  match v with
  | VStr s => mret (hash s)
  | VInt z => mret (int_hash z)
  | VNone => mret 0
  | VList _ => raise OtherException
  end.

(** [kwargs.get('query') or (args[0] if args else None)] *)
Definition query_of (call : Call) : PyVal :=
  let q := default VNone (call_kwargs call !! "query") in
  if truthy q then q
  else match call_args call with
       | a :: _ => a
       | [] => VNone
       end.

(** What one turn of the loop of [make_request_with_retry] does: it returns
    from the function, or falls through to the next turn. *)
Inductive Step :=
| Return (r : option Response)
| Continue.

(** The cache part of the [try] block: the cache key, when one is derived,
    and what [self.cache.get] returned for it. *)
Definition cache_lookup (endpoint : string) (call : Call)
    : M (option string * option Response) :=
  if String.eqb endpoint "search_recent" then
    let query := query_of call in
    if truthy query then
      h ← py_hash query;
      let cache_key := "search_" +:+ pretty h in
      cached ← cache_get cache_key;
      mret (Some cache_key, cached)
    else mret (None, None)
  else mret (None, None).

(** The [try] block of one attempt. *)
Definition attempt_try (endpoint : string) (request_func : RequestFunc)
    (call : Call) : M Step :=
  lookup ← cache_lookup endpoint call;
  let cache_key := lookup.1 in
  let hit :=
    match lookup.2 with
    | Some cached => if resp_truthy cached then Some cached else None
    | None => None
    end in
  match hit with
  | Some cached => mret (Return (Some cached))
  | None =>
      response ← invoke request_func call;
      match response with
      | Some r =>
          match resp_headers r with
          | Some headers => update_from_headers endpoint headers
          | None => mret tt
          end
      | None => mret tt
      end;;
      match cache_key, response with
      | Some key, Some r =>
          if resp_truthy r then cache_set key r else mret tt
      | _, _ => mret tt
      end;;
      mret (Return response)
  end.

(** The [except] clauses of one attempt. *)
Definition attempt_except (attempt : Z) (e : exn) : M Step :=
  match e with
  | TooManyRequests =>
      if attempt <? max_retries then
        sleep (RetryBackoff (Py.min (base_delay * 2 ^ attempt) max_wait));;
        mret Continue
      else mret (Return None)
  | BadRequest => mret (Return None)
  | OtherException =>
      if attempt <? max_retries then
        sleep (RetryBackoff (base_delay * 2 ^ attempt));;
        mret Continue
      else mret (Return None)
  end.

(** The quota check that opens every attempt: when the permit is denied,
    wait for [min(wait_time, 15)] seconds (plus jitter) and go on. *)
Definition quota_gate (endpoint : string) : M unit :=
  permitted ← check_rate_limit endpoint;
  if (permitted : bool) then mret tt
  else
    wait_time ← get_wait_time endpoint;
    sleep (QuotaWait (Py.min wait_time 15)).

(** The body of [for attempt in range(max_retries + 1)]. *)
Definition attempt_body (endpoint : string) (request_func : RequestFunc)
    (call : Call) (attempt : Z) : M Step :=
  quota_gate endpoint;;
  try_except (attempt_try endpoint request_func call) (attempt_except attempt).

(** The [for] loop, and the [return None] that follows it. *)
Fixpoint attempts (endpoint : string) (request_func : RequestFunc)
    (call : Call) (range : list Z) : M (option Response) :=
  match range with
  | [] => mret None
  | attempt :: rest =>
      step ← attempt_body endpoint request_func call attempt;
      match step with
      | Return r => mret r
      | Continue => attempts endpoint request_func call rest
      end
  end.

(** [make_request_with_retry(endpoint, request_func, args, kwargs)] *)
Definition make_request_with_retry (endpoint : string)
    (request_func : RequestFunc) (call : Call) : M (option Response) :=
  attempts endpoint request_func call (seqZ 0 (max_retries + 1)).

(** The extra keywords of [search_recent_tweets_safe] that are also names
    of parameters of [make_request_with_retry]: passing one of them on
    gives that parameter two values, a [TypeError]. *)
Definition colliding_keywords (kwargs : gmap string PyVal) : bool :=
  bool_decide (is_Some (kwargs !! "endpoint"))
  || bool_decide (is_Some (kwargs !! "request_func"))
  || bool_decide (is_Some (kwargs !! "self")).

(** [search_recent_tweets_safe(query, max_results, kwargs)]; reading
    [self.client.search_recent_tweets] on an unset client raises
    [AttributeError], and a colliding keyword raises [TypeError] before
    [make_request_with_retry] is entered. *)
Definition search_recent_tweets_safe (query : string) (max_results : Z)
    (kwargs : gmap string PyVal) : M (option Response) :=
  try_except
    (let twitter_max_results := Py.max 10 (Py.min max_results 100) in
     c ← gets client;
     match c with
     | None => raise OtherException
     | Some cl =>
         if colliding_keywords kwargs then raise OtherException
         else
           make_request_with_retry "search_recent" (search_recent_tweets cl)
             (mkCall []
                (<["query" := VStr query]>
                   (<["max_results" := VInt twitter_max_results]> kwargs)))
     end)
    (fun _ => mret None).

(** [is_operational()] *)
Definition is_operational (w : World) : bool :=
  match client w with Some _ => true | None => false end.

End TwitterClient.

(** ** [engines/attendee_engine.py] *)

Record ResearchAttendee := mkResearchAttendee {
  attendee_name : string;
  username : string;
  bio : string;
  attendee_location : string;
  followers_count : Z;
  verified : bool;
  attendee_confidence_score : Q;
  attendee_source_tweet : string;
  attendee_posted_by : string
}.

(** The dictionaries built by [_search_twitter_safe]. *)
Record ProcessedTweet := mkProcessedTweet {
  pt_text : string;
  pt_url : string;
  pt_username : string;
  pt_name : string;
  pt_bio : string;
  pt_location : string;
  pt_followers_count : Z;
  pt_verified : bool;
  pt_created_at : string;
  pt_query : string
}.

Section AttendeeEngine.

Variable clock : nat -> Z.
Variable hash : string -> Z.
Variable fromtimestamp : Z -> option Z.

(** The text heuristics and the floating-point scoring are collaborators of
    the core: [_build_single_query] (a regular-expression clean-up),
    [_is_relevant_tweet] (keyword matching) and
    [_calculate_confidence_scores] (scores and sorts). *)
Variable _build_single_query : string -> string.
Variable _is_relevant_tweet : string -> string -> bool.
Variable _calculate_confidence_scores : list ResearchAttendee -> list ResearchAttendee.

(** [users_dict] of [_search_twitter_safe]. *)
Definition users_dict (users : list User) : gmap Z User :=
  foldl (fun d u => <[user_id u := u]> d) ∅ users.

(** [user.public_metrics.get('followers_count', 0) if hasattr(user,
    'public_metrics') else 0]; [None] is the [AttributeError] raised when
    the attribute is there but holds [None]. *)
Definition followers_count_of (user : User) : option Z :=
  match user_public_metrics user with
  | NoPublicMetrics => Some 0
  | PublicMetricsNone => None
  | PublicMetricsDict followers_count => Some (default 0 followers_count)
  end.

(** One pass of the loop over [tweets.data]: the dictionaries appended (none
    when the author is unknown); [None] when the pass raises. *)
Definition process_tweet (query : string) (users : gmap Z User) (t : Tweet)
    : option (list ProcessedTweet) :=
  match users !! tweet_author_id t with
  | Some user =>
      followers_count ← followers_count_of user;
      Some
        [mkProcessedTweet (tweet_text t)
           ("https://twitter.com/" +:+ user_username user +:+ "/status/"
              +:+ pretty (tweet_id t))
           (user_username user) (user_name user)
           (default EmptyString (user_description user))
           (default EmptyString (user_location user))
           followers_count
           (default false (user_verified user))
           (tweet_created_at t) query]
  | None => Some []
  end.

(** [_search_twitter_safe(query, max_results)] *)
Definition _search_twitter_safe (query : string) (max_results : Z)
    : M (list ProcessedTweet) :=
  if Py.is_empty query then mret []
  else
    try_except
      (let tweets_needed := Py.max 10 (Py.min (max_results * 3) 100) in
       tweets ← search_recent_tweets_safe clock hash fromtimestamp query tweets_needed
         (<["tweet_fields" := VList ["author_id"; "created_at"; "text"; "public_metrics"]]>
            (<["user_fields" := VList ["username"; "name"; "verified"; "description"; "location"; "public_metrics"]]>
               (<["expansions" := VList ["author_id"]]> ∅)));
       match tweets with
       | None => mret []
       | Some r =>
           if negb (resp_truthy r) then mret []
           else match resp_data r with
                | [] => mret []
                | data =>
                    let users := users_dict (resp_users r) in
                    match mapM (process_tweet query users) data with
                    | Some processed_tweets => mret (concat processed_tweets)
                    | None => raise OtherException
                    end
                end
       end)
      (fun _ => mret []).

(** [_extract_attendees_from_tweets(tweets, event_name)] *)
Definition _extract_attendees_from_tweets (tweets : list ProcessedTweet)
    (event_name : string) : list ResearchAttendee :=
  (fun t =>
     mkResearchAttendee (pt_name t) ("@" +:+ pt_username t) (pt_bio t)
       (pt_location t) (pt_followers_count t) (pt_verified t) (8 # 10)
       (pt_url t) ("@" +:+ pt_username t))
  <$> filter (fun t => _is_relevant_tweet (pt_text t) event_name = true) tweets.

(** [discover_attendees(event_name, max_results)] *)
Definition discover_attendees (event_name : string) (max_results : Z)
    : M (list ResearchAttendee) :=
  try_except
    (operational ← gets is_operational;
     if negb operational then mret []
     else
       let query := _build_single_query event_name in
       tweets ← _search_twitter_safe query max_results;
       match tweets with
       | [] => mret []
       | _ =>
           let attendees := _extract_attendees_from_tweets tweets event_name in
           let scored_attendees := _calculate_confidence_scores attendees in
           mret (Py.slice_to scored_attendees max_results)
       end)
    (fun _ => mret []).

End AttendeeEngine.

(** ** [engines/event_engine.py] *)

Record ResearchEvent := mkResearchEvent {
  event_name : string;
  exact_date : string;
  exact_venue : string;
  location : string;
  category : string;
  confidence_score : Q;
  source_tweet : string;
  posted_by : string
}.

(** A [dict] with string keys whose iteration order matters: the entries in
    insertion order.  Assigning to a key that is present keeps its place. *)
Fixpoint dict_set {V} (k : string) (v : V) (d : list (string * V))
    : list (string * V) :=
  match d with
  | [] => [(k, v)]
  | (k', v') :: r =>
      if String.eqb k' k then (k', v) :: r else (k', v') :: dict_set k v r
  end.

(** [del d[k]] *)
Fixpoint dict_del {V} (k : string) (d : list (string * V)) : list (string * V) :=
  match d with
  | [] => []
  | (k', v') :: r => if String.eqb k' k then r else (k', v') :: dict_del k r
  end.

(** [self.event_cache]: location, then ["start_end"], then the events. *)
Abbreviation EventCache := (gmap string (list (string * list ResearchEvent))).

(** [_ranges_overlap(start1, end1, start2, end2)] *)
Definition _ranges_overlap (start1 end1 start2 end2 : Py.datetime) : bool :=
  negb (Py.dt_lt end1 start2 || Py.dt_lt end2 start1).

(** The test on one event inside [_get_cached_events]; an event whose date
    does not parse is skipped. *)
Definition in_search_range (search_start search_end : Py.datetime)
    (event : ResearchEvent) : bool :=
  match Py.strptime (exact_date event) with
  | Some event_date =>
      Py.dt_le search_start event_date && Py.dt_le event_date search_end
  | None => false
  end.

(** [cached_range.split('_')] unpacked into two dates, both parsed; [None]
    is [ValueError] (not exactly two parts, or a part that is no date). *)
Definition parse_range (cached_range : string) : option (Py.datetime * Py.datetime) :=
  match Py.split "_" cached_range with
  | [cache_start_str; cache_end_str] =>
      cache_start ← Py.strptime cache_start_str;
      cache_end ← Py.strptime cache_end_str;
      Some (cache_start, cache_end)
  | _ => None
  end.

(** The loop of [_get_cached_events] over the ranges of the location, in
    the order of the dictionary; [None] when it raises. *)
Fixpoint cached_in_ranges (search_start search_end : Py.datetime)
    (ranges : list (string * list ResearchEvent))
    (cached_events : list ResearchEvent) : option (list ResearchEvent) :=
  match ranges with
  | [] => Some cached_events
  | (cached_range, events) :: rest =>
      match parse_range cached_range with
      | Some (cache_start, cache_end) =>
          cached_in_ranges search_start search_end rest
            (if _ranges_overlap search_start search_end cache_start cache_end
             then cached_events
                  ++ filter (fun ev => in_search_range search_start search_end ev = true) events
             else cached_events)
      | None => None
      end
  end.

(** [_get_cached_events(location, start_date, end_date)]; [None] when it
    raises. *)
Definition _get_cached_events (event_cache : EventCache)
    (location start_date end_date : string) : option (list ResearchEvent) :=
  match event_cache !! location with
  | None => Some []
  | Some ranges =>
      search_start ← Py.strptime start_date;
      search_end ← Py.strptime end_date;
      cached_in_ranges search_start search_end ranges []
  end.

(** [_cache_events(location, start_date, end_date, events)] *)
Definition _cache_events (location start_date end_date : string)
    (events : list ResearchEvent) (event_cache : EventCache) : EventCache :=
  let ranges := default [] (event_cache !! location) in
  let cache_key := start_date +:+ "_" +:+ end_date in
  let ranges := dict_set cache_key events ranges in
  let ranges :=
    if (5 <? length ranges)%nat then
      match ranges with
      | (oldest_key, _) :: _ => dict_del oldest_key ranges
      | [] => ranges
      end
    else ranges in
  <[location := ranges]> event_cache.

(** The identifier that [_remove_duplicates] compares.  [Py.lower] and
    [Py.strip] are [str.lower] and [str.strip] on ASCII names; what depends
    on how names are normalised is stated for such names. *)
Definition identifier (event : ResearchEvent) : string * string :=
  (Py.strip (Py.lower (event_name event)), exact_date event).

(** The loop of [_remove_duplicates], from the identifiers [seen] so far. *)
Fixpoint unique_from (seen : gset (string * string))
    (events : list ResearchEvent) : list ResearchEvent :=
  match events with
  | [] => []
  | event :: rest =>
      if decide (identifier event ∈ seen) then unique_from seen rest
      else event :: unique_from ({[identifier event]} ∪ seen) rest
  end.

(** [_remove_duplicates(events)] *)
Definition _remove_duplicates (events : list ResearchEvent) : list ResearchEvent :=
  unique_from ∅ events.

Section EventEngine.

(** [_get_new_events_serpapi(location, start_date, end_date, category,
    max_results)]: the fetch from the second upstream source.  Its whole
    body is guarded, so it returns a list and never raises. *)
Variable _get_new_events_serpapi :
  string -> string -> string -> string -> Z -> list ResearchEvent.

(** [discover_events(location, start_date, end_date, categories,
    max_results)]: the events returned and the cache afterwards. *)
Definition discover_events (location start_date end_date : string)
    (categories : list string) (max_results : Z) (event_cache : EventCache)
    : list ResearchEvent * EventCache :=
  match _get_cached_events event_cache location start_date end_date with
  | None => ([], event_cache)
  | Some cached_events =>
      let needed_new_events :=
        Py.max 0 (max_results - Z.of_nat (length cached_events)) in
      let new_events :=
        if 0 <? needed_new_events then
          _get_new_events_serpapi location start_date end_date
            (match categories with c :: _ => c | [] => "all" end)
            needed_new_events
        else [] in
      let event_cache :=
        match new_events with
        | [] => event_cache
        | _ :: _ => _cache_events location start_date end_date new_events event_cache
        end in
      let all_events := cached_events ++ new_events in
      (Py.slice_to (_remove_duplicates all_events) max_results, event_cache)
  end.

End EventEngine.

(** * Properties *)

(** Unfolding of the monad's operations. *)
Ltac munfold :=
  unfold mbind, M_bind, mret, M_ret, gets, modify, raise, try_except in *.

(** ** Quota tracker *)

Section QuotaTracker.

Variable clock : nat -> Z.
Variable fromtimestamp : Z -> option Z.

(** The bounds of one entry. *)
Definition within_limit (i : LimitInfo) : Prop :=
  0 <= remaining i <= limit i.

(** The bounds hold for every tracked endpoint. *)
Definition quota_ok (w : World) : Prop :=
  forall endpoint i, rate_limits w !! endpoint = Some i -> within_limit i.

(** The operations of the quota tracker. *)
Inductive QuotaOp :=
| CheckAndConsume (endpoint : string)
| UpdateFromUpstream (endpoint : string) (headers : gmap string string).

(** One operation; a [ValueError] of [update_from_headers] is caught by the
    caller, as [make_request_with_retry] does. *)
Definition run_op (op : QuotaOp) : M unit :=
  match op with
  | CheckAndConsume endpoint => check_rate_limit clock endpoint;; mret tt
  | UpdateFromUpstream endpoint headers =>
      try_except (update_from_headers fromtimestamp endpoint headers)
        (fun _ => mret tt)
  end.

Fixpoint run_ops (ops : list QuotaOp) (w : World) : World :=
  match ops with
  | [] => w
  | op :: rest => run_ops rest (run_op op w).2
  end.

(** Headers that keep the bounds: they carry neither a limit nor a
    remaining count, or both, with [0 <= remaining <= limit]. *)
Definition consistent_headers (headers : gmap string string) : Prop :=
  (headers !! "x-rate-limit-limit" = None
   /\ headers !! "x-rate-limit-remaining" = None)
  \/ (exists sl sr l r,
        headers !! "x-rate-limit-limit" = Some sl
        /\ headers !! "x-rate-limit-remaining" = Some sr
        /\ Py.int sl = Some l /\ Py.int sr = Some r /\ 0 <= r <= l).

Definition consistent_op (op : QuotaOp) : Prop :=
  match op with
  | CheckAndConsume _ => True
  | UpdateFromUpstream _ headers => consistent_headers headers
  end.

Lemma check_rate_limit_untracked endpoint w :
  rate_limits w !! endpoint = None ->
  check_rate_limit clock endpoint w = (Ok true, w).
Proof.
  intros H. unfold check_rate_limit. munfold. by rewrite H.
Qed.

(** What [check_rate_limit] does to a tracked entry, as a function of the
    entry and of the (at most two) clock readings. *)
Definition checked (i : LimitInfo) (t : nat) : bool * LimitInfo * nat :=
  let '(i1, t1) :=
    match reset_time i with
    | Some reset =>
        (if reset <? clock t
         then set_reset_time None (set_remaining (limit i) i) else i, S t)
    | None => (i, t)
    end in
  if 0 <? remaining i1 then (true, set_remaining (remaining i1 - 1) i1, t1)
  else
    match reset_time i1 with
    | None =>
        (false, set_reset_time (Some (clock t1 + window_minutes i1 * 60)) i1, S t1)
    | Some _ => (false, i1, t1)
    end.

Lemma check_rate_limit_tracked endpoint w i :
  rate_limits w !! endpoint = Some i ->
  check_rate_limit clock endpoint w =
    (Ok (checked i (ticks w)).1.1,
     with_ticks (checked i (ticks w)).2
       (with_rate_limits (<[endpoint := (checked i (ticks w)).1.2]> (rate_limits w)) w)).
Proof.
  intros H. unfold check_rate_limit, checked, store_limit_info, now. munfold.
  rewrite H. destruct w as [c rl ca tl tk inv sl]; simpl in *.
  destruct (reset_time i) as [reset|] eqn:Hr; simpl.
  - destruct (reset <? clock tk) eqn:Hlt; simpl.
    + destruct (0 <? limit i) eqn:Hpos; simpl; reflexivity.
    + destruct (0 <? remaining i) eqn:Hpos; simpl; [reflexivity|].
      rewrite Hr. reflexivity.
  - destruct (0 <? remaining i) eqn:Hpos; simpl; [reflexivity|].
    rewrite Hr. reflexivity.
Qed.

Lemma checked_within_limit i t :
  within_limit i -> within_limit (checked i t).1.2.
Proof.
  unfold within_limit, checked. intros H.
  destruct (reset_time i) as [reset|] eqn:Hr; simpl.
  - destruct (reset <? clock t) eqn:Hlt; simpl.
    + destruct (0 <? limit i) eqn:Hpos; simpl; [lia|].
      simpl. lia.
    + destruct (0 <? remaining i) eqn:Hpos; simpl; [lia|].
      rewrite Hr. simpl. lia.
  - destruct (0 <? remaining i) eqn:Hpos; simpl; [lia|].
    rewrite Hr. simpl. lia.
Qed.

Lemma update_field_absent endpoint headers name set w :
  headers !! name = None ->
  update_field endpoint headers name set w = (Ok tt, w).
Proof. intros H. unfold update_field. by rewrite H. Qed.

Lemma update_field_unparsable endpoint headers name set w value :
  headers !! name = Some value -> Py.int value = None ->
  update_field endpoint headers name set w = (Raise OtherException, w).
Proof.
  intros H Hi. unfold update_field, int_header. rewrite H. munfold.
  by rewrite Hi.
Qed.

Lemma update_field_present endpoint headers name set w value z i :
  headers !! name = Some value -> Py.int value = Some z ->
  rate_limits w !! endpoint = Some i ->
  update_field endpoint headers name set w =
    (Ok tt, with_rate_limits (<[endpoint := set z i]> (rate_limits w)) w).
Proof.
  intros H Hi Hl. unfold update_field, int_header, store_limit_info.
  rewrite H. munfold. rewrite Hi. by rewrite Hl.
Qed.

(** A field update changes at most the entry of [endpoint], by [set]. *)
Lemma update_field_cases endpoint headers name set w :
  (update_field endpoint headers name set w).2 = w
  \/ exists z i, rate_limits w !! endpoint = Some i
       /\ update_field endpoint headers name set w =
            (Ok tt, with_rate_limits (<[endpoint := set z i]> (rate_limits w)) w).
Proof.
  destruct (headers !! name) as [value|] eqn:H.
  - destruct (Py.int value) as [z|] eqn:Hi.
    + destruct (rate_limits w !! endpoint) as [i|] eqn:Hl.
      * right. exists z, i. split; [done|]. by eapply update_field_present.
      * left. unfold update_field, int_header. rewrite H. munfold.
        rewrite Hi. by rewrite Hl.
    + left. by erewrite update_field_unparsable.
  - left. by rewrite update_field_absent.
Qed.

Lemma quota_ok_store endpoint i w :
  quota_ok w -> within_limit i ->
  quota_ok (with_rate_limits (<[endpoint := i]> (rate_limits w)) w).
Proof.
  intros Hw Hi e j. simpl. rewrite lookup_insert.
  case_decide; [by intros [= <-]|]. apply Hw.
Qed.

Lemma check_rate_limit_quota_ok endpoint w :
  quota_ok w -> quota_ok (check_rate_limit clock endpoint w).2.
Proof.
  intros Hw. destruct (rate_limits w !! endpoint) as [i|] eqn:H.
  - rewrite (check_rate_limit_tracked _ _ _ H). simpl.
    intros e j. simpl. rewrite lookup_insert.
    case_decide; [|by apply Hw].
    intros [= <-]. apply checked_within_limit. by eapply Hw.
  - by rewrite check_rate_limit_untracked.
Qed.

(** The reset header changes at most the entry of [endpoint], and there
    the reset time only. *)
Lemma update_reset_time_cases endpoint headers w :
  (update_reset_time fromtimestamp endpoint headers w).2 = w
  \/ exists reset i, rate_limits w !! endpoint = Some i
       /\ update_reset_time fromtimestamp endpoint headers w =
            (Ok tt,
             with_rate_limits
               (<[endpoint := set_reset_time (Some reset) i]> (rate_limits w)) w).
Proof.
  unfold update_reset_time, int_header, reset_datetime, store_limit_info.
  destruct (headers !! "x-rate-limit-reset") as [value|]; [|by left].
  munfold.
  destruct (Py.int value) as [z|]; [|by left].
  destruct (fromtimestamp z) as [reset|]; [|by left].
  destruct (rate_limits w !! endpoint) as [i|] eqn:Hl; [|by left].
  right. by exists reset, i.
Qed.

(** The reset header alone never touches the bounds. *)
Lemma update_reset_quota_ok endpoint headers w :
  quota_ok w ->
  quota_ok (update_reset_time fromtimestamp endpoint headers w).2.
Proof.
  intros Hw.
  destruct (update_reset_time_cases endpoint headers w) as [->|(z & i & Hi & ->)];
    [done|].
  simpl. apply quota_ok_store; [done|]. by apply (Hw _ _ Hi).
Qed.

Lemma update_from_headers_quota_ok endpoint headers w :
  consistent_headers headers -> quota_ok w ->
  quota_ok (update_from_headers fromtimestamp endpoint headers w).2.
Proof.
  intros Hc Hw. unfold update_from_headers. munfold. simpl.
  destruct (rate_limits w !! endpoint) as [i|] eqn:Hl; [|done].
  destruct Hc as [[Hnl Hnr]|(sl & sr & l & r & Hsl & Hsr & Hl' & Hr' & Hb)].
  - rewrite (update_field_absent _ _ _ _ _ Hnl).
    rewrite (update_field_absent _ _ _ _ _ Hnr).
    pose proof (update_reset_quota_ok endpoint headers w Hw) as Hq.
    destruct (update_reset_time _ _ _ w) as [[[]|e] w']; exact Hq.
  - rewrite (update_field_present _ _ _ _ _ _ _ _ Hsl Hl' Hl).
    erewrite (update_field_present _ _ "x-rate-limit-remaining");
      [|exact Hsr|exact Hr'|simpl; apply lookup_insert_eq].
    set (w1 := with_rate_limits (<[endpoint := set_limit l i]> (rate_limits w)) w).
    set (w2 := with_rate_limits _ w1).
    assert (quota_ok w2) as Hw2.
    { intros e j. subst w2 w1. simpl. rewrite insert_insert_eq, lookup_insert.
      case_decide; [|by apply Hw].
      intros [= <-]. unfold within_limit. simpl. lia. }
    pose proof (update_reset_quota_ok endpoint headers w2 Hw2) as Hq.
    destruct (update_reset_time _ _ _ w2) as [[[]|e] w']; exact Hq.
Qed.

Lemma run_op_quota_ok op w :
  consistent_op op -> quota_ok w -> quota_ok (run_op op w).2.
Proof.
  intros Hc Hw. destruct op as [endpoint|endpoint headers]; simpl.
  - pose proof (check_rate_limit_quota_ok endpoint w Hw) as Hq. munfold.
    destruct (check_rate_limit clock endpoint w) as [[b|e] w']; exact Hq.
  - pose proof (update_from_headers_quota_ok endpoint headers w Hc Hw) as Hq.
    munfold.
    destruct (update_from_headers fromtimestamp endpoint headers w)
      as [[[]|e] w']; exact Hq.
Qed.

Lemma new_twitter_client_quota_ok c : quota_ok (new_twitter_client c).
Proof.
  intros e i. simpl. unfold setup_default_limits.
  rewrite !lookup_insert. repeat case_decide; try done.
  all: intros [= <-]; unfold within_limit; simpl; lia.
Qed.

(** C4 (as amended).  When the clock reads later than the scheduled
    [reset_time] of a tracked endpoint, [check_rate_limit] first sets
    [remaining] back to [limit] and clears [reset_time], then decides: with
    [limit > 0] it grants the permit, leaving [remaining = limit - 1] and no
    reset scheduled; with [limit <= 0] it denies, [remaining] being [limit],
    and schedules a new reset from the next clock reading. *)
Theorem check_rate_limit_resets_after_reset_time
    (endpoint : string) (w : World) (i : LimitInfo) (reset : Z) :
  rate_limits w !! endpoint = Some i ->
  reset_time i = Some reset ->
  reset < clock (ticks w) ->
  (0 < limit i ->
     check_rate_limit clock endpoint w =
       (Ok true,
        with_ticks (S (ticks w))
          (with_rate_limits
             (<[endpoint := mkLimitInfo (limit i) (limit i - 1) None (window_minutes i)]>
                (rate_limits w)) w)))
  /\ (limit i <= 0 ->
     check_rate_limit clock endpoint w =
       (Ok false,
        with_ticks (S (S (ticks w)))
          (with_rate_limits
             (<[endpoint := mkLimitInfo (limit i) (limit i)
                              (Some (clock (S (ticks w)) + window_minutes i * 60))
                              (window_minutes i)]>
                (rate_limits w)) w))).
Proof.
  intros Hl Hr Hlt.
  rewrite (check_rate_limit_tracked _ _ _ Hl). unfold checked. rewrite Hr.
  assert ((reset <? clock (ticks w)) = true) as -> by lia. simpl.
  split; intros Hlim.
  - assert ((0 <? limit i) = true) as -> by lia. reflexivity.
  - assert ((0 <? limit i) = false) as -> by lia. reflexivity.
Qed.

(** C5 (as amended).  Along every sequence of [check_rate_limit] and
    [update_from_headers] operations in which the headers are consistent
    (they carry neither a limit nor a remaining count, or carry both with
    [0 <= remaining <= limit]), [0 <= remaining <= limit] is kept for every
    tracked endpoint. *)
Theorem quota_bounds_kept (ops : list QuotaOp) (w : World) :
  Forall consistent_op ops -> quota_ok w -> quota_ok (run_ops ops w).
Proof.
  intros Hops. revert w. induction Hops as [|op ops Hop _ IH]; intros w Hw.
  - exact Hw.
  - simpl. apply IH. by apply run_op_quota_ok.
Qed.

End QuotaTracker.

(** A tracker whose search quota is used up, with a reset scheduled at
    second 1000. *)
Definition exhausted_world : World :=
  mkWorld None
    (<["search_recent" := mkLimitInfo 450 0 (Some 1000) 15]> setup_default_limits)
    ∅ 1800 0 [] [].

(** The reset theorem at second 1001: the permit is granted and 449 calls
    remain. *)
Lemma check_rate_limit_resets_after_reset_time_witness :
  check_rate_limit (fun _ => 1001) "search_recent" exhausted_world =
    (Ok true,
     with_ticks 1
       (with_rate_limits
          (<["search_recent" := mkLimitInfo 450 449 None 15]>
             (rate_limits exhausted_world)) exhausted_world)).
Proof.
  refine (proj1 (check_rate_limit_resets_after_reset_time (fun _ => 1001)
                   "search_recent" exhausted_world
                   (mkLimitInfo 450 0 (Some 1000) 15) 1000 _ _ _) _).
  - reflexivity.
  - reflexivity.
  - simpl. lia.
  - simpl. lia.
Defined.

(** C4, as stated, fails at the very second of the reset: with
    [now = reset_time] the comparison [now > reset_time] is false, so
    nothing is reset and the permit is denied although [limit > 0]. *)
Lemma check_rate_limit_at_reset_time_denied :
  let w := exhausted_world in
  let i := mkLimitInfo 450 0 (Some 1000) 15 in
  rate_limits w !! "search_recent" = Some i
  /\ reset_time i = Some 1000
  /\ 1000 >= 1000
  /\ 0 < limit i
  /\ check_rate_limit (fun _ => 1000) "search_recent" w = (Ok false, with_ticks 1 w).
Proof.
  repeat split; try reflexivity; lia.
Qed.

(** The bounds theorem on the fresh tracker: a permit, then upstream
    reporting 450 and 448. *)
Lemma quota_bounds_kept_witness :
  quota_ok
    (run_ops (fun _ => 0) (fun t => Some t)
       [CheckAndConsume "search_recent";
        UpdateFromUpstream "search_recent"
          (<["x-rate-limit-limit" := "450"]>
             (<["x-rate-limit-remaining" := "448"]> ∅))]
       (new_twitter_client None)).
Proof.
  apply quota_bounds_kept.
  - apply Forall_cons_2; [exact I|].
    apply Forall_cons_2; [|apply Forall_nil_2].
    right. exists "450", "448", 450, 448.
    repeat split; try reflexivity; lia.
  - apply new_twitter_client_quota_ok.
Defined.

(** C5, as stated, fails: [update_from_headers] stores what the headers
    say.  A negative remaining count makes [remaining] negative; a smaller
    limit alone leaves [remaining] above [limit], with no reset involved. *)
Lemma update_from_headers_breaks_bounds :
  let w := new_twitter_client None in
  (exists i,
     rate_limits
       (run_ops (fun _ => 0) (fun t => Some t)
          [UpdateFromUpstream "search_recent" (<["x-rate-limit-remaining" := "-1"]> ∅)]
          w) !! "search_recent" = Some i
     /\ remaining i < 0)
  /\ (exists i,
     rate_limits
       (run_ops (fun _ => 0) (fun t => Some t)
          [UpdateFromUpstream "search_recent" (<["x-rate-limit-limit" := "100"]> ∅)]
          w) !! "search_recent" = Some i
     /\ limit i < remaining i).
Proof.
  split.
  - exists (mkLimitInfo 450 (-1) None 15). split; [vm_compute; reflexivity|simpl; lia].
  - exists (mkLimitInfo 100 450 None 15). split; [vm_compute; reflexivity|simpl; lia].
Qed.

(** ** Guarded upstream caller *)

(** [m] leaves the component [proj] of the world as it found it. *)
Definition unchanged {A B} (proj : World -> B) (m : M A) : Prop :=
  forall w, proj (m w).2 = proj w.

(** [m] makes at most [n] upstream invocations, each with arguments
    satisfying [P]. *)
Definition invokes {A} (P : Call -> Prop) (n : nat) (m : M A) : Prop :=
  forall w, exists l,
    invocations (m w).2 = invocations w ++ l
    /\ (length l <= n)%nat /\ Forall P l.

Lemma unchanged_ret {A B} (proj : World -> B) (a : A) :
  unchanged proj (mret a).
Proof. by intros w. Qed.

Lemma unchanged_raise {A B} (proj : World -> B) (e : exn) :
  unchanged proj (raise e : M A).
Proof. by intros w. Qed.

Lemma unchanged_gets {A B} (proj : World -> B) (f : World -> A) :
  unchanged proj (gets f).
Proof. by intros w. Qed.

Lemma unchanged_modify {B} (proj : World -> B) (f : World -> World) :
  (forall w, proj (f w) = proj w) -> unchanged proj (modify f).
Proof. intros H w. apply H. Qed.

Lemma unchanged_bind {A A' B} (proj : World -> B) (m : M A) (f : A -> M A') :
  unchanged proj m -> (forall a, unchanged proj (f a)) ->
  unchanged proj (m ≫= f).
Proof.
  intros Hm Hf w. specialize (Hm w). unfold mbind, M_bind.
  destruct (m w) as [[a|e] w']; simpl in *; [|done].
  by rewrite Hf.
Qed.

Lemma unchanged_try {A B} (proj : World -> B) (m : M A) (h : exn -> M A) :
  unchanged proj m -> (forall e, unchanged proj (h e)) ->
  unchanged proj (try_except m h).
Proof.
  intros Hm Hh w. specialize (Hm w). unfold try_except.
  destruct (m w) as [[a|e] w']; simpl in *; [done|].
  by rewrite Hh.
Qed.

Lemma unchanged_now {B} (clock : nat -> Z) (proj : World -> B) :
  (forall n w, proj (with_ticks n w) = proj w) -> unchanged proj (now clock).
Proof. intros H w. apply H. Qed.

(** Decomposition of a goal [unchanged proj m] along the structure of [m]. *)
Ltac frame_step :=
  first
    [ apply unchanged_ret
    | apply unchanged_raise
    | apply unchanged_gets
    | apply unchanged_bind
    | apply unchanged_try
    | apply unchanged_modify; intros; reflexivity
    | apply unchanged_now; intros; reflexivity
    | match goal with
      | |- unchanged _ (match ?x with _ => _ end) => destruct x
      end
    | progress intros ].

Ltac frame := repeat frame_step.

Lemma invokes_unchanged {A} (P : Call -> Prop) (m : M A) :
  unchanged invocations m -> invokes P 0 m.
Proof.
  intros H w. exists []. rewrite H, app_nil_r. by repeat split.
Qed.

Lemma invokes_weaken {A} (P : Call -> Prop) (n k : nat) (m : M A) :
  invokes P n m -> (n <= k)%nat -> invokes P k m.
Proof.
  intros H Hle w. destruct (H w) as (l & ? & ? & ?).
  exists l. repeat split; [done|lia|done].
Qed.

Lemma invokes_bind {A A'} (P : Call -> Prop) (n k : nat) (m : M A) (f : A -> M A') :
  invokes P n m -> (forall a, invokes P k (f a)) ->
  invokes P (n + k) (m ≫= f).
Proof.
  intros Hm Hf w. destruct (Hm w) as (l & Hl & Hn & HP).
  unfold mbind, M_bind.
  destruct (m w) as [[a|e] w']; simpl in *.
  - destruct (Hf a w') as (l' & Hl' & Hk & HP').
    exists (l ++ l'). rewrite Hl', Hl, app_assoc, length_app.
    repeat split; [lia|by apply Forall_app].
  - exists l. repeat split; [done|lia|done].
Qed.

Lemma invokes_try {A} (P : Call -> Prop) (n k : nat) (m : M A) (h : exn -> M A) :
  invokes P n m -> (forall e, invokes P k (h e)) ->
  invokes P (n + k) (try_except m h).
Proof.
  intros Hm Hh w. destruct (Hm w) as (l & Hl & Hn & HP).
  unfold try_except.
  destruct (m w) as [[a|e] w']; simpl in *.
  - exists l. repeat split; [done|lia|done].
  - destruct (Hh e w') as (l' & Hl' & Hk & HP').
    exists (l ++ l'). rewrite Hl', Hl, app_assoc, length_app.
    repeat split; [lia|by apply Forall_app].
Qed.

Lemma invokes_invoke (P : Call -> Prop) (request_func : RequestFunc) (call : Call) :
  P call -> invokes P 1 (invoke request_func call).
Proof.
  intros HP w. exists [call]. unfold invoke.
  destruct (request_func _ call); simpl; repeat split; auto.
Qed.

Lemma bind_ok {A B} (m : M A) (f : A -> M B) w a w' :
  m w = (Ok a, w') -> (m ≫= f) w = f a w'.
Proof. intros H. unfold mbind, M_bind. by rewrite H. Qed.

Lemma bind_raise {A B} (m : M A) (f : A -> M B) w e w' :
  m w = (Raise e, w') -> (m ≫= f) w = (Raise e, w').
Proof. intros H. unfold mbind, M_bind. by rewrite H. Qed.

Lemma try_ok {A} (m : M A) (h : exn -> M A) w a w' :
  m w = (Ok a, w') -> try_except m h w = (Ok a, w').
Proof. intros H. unfold try_except. by rewrite H. Qed.

Lemma try_raise {A} (m : M A) (h : exn -> M A) w e w' :
  m w = (Raise e, w') -> try_except m h w = h e w'.
Proof. intros H. unfold try_except. by rewrite H. Qed.

(** The sleeps that are retry backoffs. *)
Definition is_backoff (s : Sleep) : bool :=
  match s with
  | RetryBackoff _ => true
  | QuotaWait _ => false
  end.

Definition backoffs (l : list Sleep) : list Sleep :=
  filter (fun s => is_backoff s = true) l.

(** The remaining count on which [check_rate_limit] decides: [limit] when
    a scheduled reset has passed, [remaining] otherwise. *)
Definition replenished (clock : nat -> Z) (i : LimitInfo) (t : nat) : Z :=
  match reset_time i with
  | Some reset => if reset <? clock t then limit i else remaining i
  | None => remaining i
  end.

(** The cache key that [make_request_with_retry] derives for a call to
    ['search_recent'], when it derives one. *)
Definition derived_key (hash : string -> Z) (call : Call) : option string :=
  let query := query_of call in
  if truthy query then
    match query with
    | VStr s => Some ("search_" +:+ pretty (hash s))
    | VInt z => Some ("search_" +:+ pretty (int_hash z))
    | _ => None
    end
  else None.

Lemma invokes_impl {A} (P Q : Call -> Prop) (n : nat) (m : M A) :
  (forall c, P c -> Q c) -> invokes P n m -> invokes Q n m.
Proof.
  intros HPQ H w. destruct (H w) as (l & ? & ? & HP).
  exists l. repeat split; [done..|]. by eapply Forall_impl.
Qed.

Section GuardedCaller.

Variable clock : nat -> Z.
Variable hash : string -> Z.
Variable fromtimestamp : Z -> option Z.

Lemma check_rate_limit_unchanged {B} (proj : World -> B) endpoint :
  (forall n w, proj (with_ticks n w) = proj w) ->
  (forall rl w, proj (with_rate_limits rl w) = proj w) ->
  unchanged proj (check_rate_limit clock endpoint).
Proof.
  intros Ht Hr. unfold check_rate_limit, store_limit_info.
  repeat first
    [ apply unchanged_modify; intros; apply Hr
    | apply unchanged_now; exact Ht
    | frame_step ].
Qed.

Lemma get_wait_time_unchanged {B} (proj : World -> B) endpoint :
  (forall n w, proj (with_ticks n w) = proj w) ->
  unchanged proj (get_wait_time clock endpoint).
Proof.
  intros Ht. unfold get_wait_time.
  repeat first [ apply unchanged_now; exact Ht | frame_step ].
Qed.

Lemma update_from_headers_unchanged {B} (proj : World -> B) endpoint headers :
  (forall rl w, proj (with_rate_limits rl w) = proj w) ->
  unchanged proj (update_from_headers fromtimestamp endpoint headers).
Proof.
  intros Hr.
  unfold update_from_headers, update_reset_time, update_field, int_header,
    reset_datetime, store_limit_info.
  repeat first [ apply unchanged_modify; intros; apply Hr | frame_step ].
Qed.

Lemma cache_get_unchanged {B} (proj : World -> B) key :
  (forall n w, proj (with_ticks n w) = proj w) ->
  (forall c w, proj (with_cache c w) = proj w) ->
  unchanged proj (cache_get clock key).
Proof.
  intros Ht Hc. unfold cache_get.
  repeat first
    [ apply unchanged_modify; intros; apply Hc
    | apply unchanged_now; exact Ht
    | frame_step ].
Qed.

Lemma cache_set_unchanged {B} (proj : World -> B) key value :
  (forall n w, proj (with_ticks n w) = proj w) ->
  (forall c w, proj (with_cache c w) = proj w) ->
  unchanged proj (cache_set clock key value).
Proof.
  intros Ht Hc. unfold cache_set.
  repeat first
    [ apply unchanged_modify; intros; apply Hc
    | apply unchanged_now; exact Ht
    | frame_step ].
Qed.

Lemma cache_lookup_unchanged {B} (proj : World -> B) endpoint call :
  (forall n w, proj (with_ticks n w) = proj w) ->
  (forall c w, proj (with_cache c w) = proj w) ->
  unchanged proj (cache_lookup clock hash endpoint call).
Proof.
  intros Ht Hc. unfold cache_lookup, py_hash.
  repeat first [ apply cache_get_unchanged; assumption | frame_step ].
Qed.

Lemma sleep_unchanged {B} (proj : World -> B) s :
  (forall l w, proj (with_sleeps l w) = proj w) ->
  unchanged proj (sleep s).
Proof. intros Hs. unfold sleep. apply unchanged_modify. intros. apply Hs. Qed.

Lemma quota_gate_unchanged {B} (proj : World -> B) endpoint :
  (forall n w, proj (with_ticks n w) = proj w) ->
  (forall rl w, proj (with_rate_limits rl w) = proj w) ->
  (forall l w, proj (with_sleeps l w) = proj w) ->
  unchanged proj (quota_gate clock endpoint).
Proof.
  intros Ht Hr Hs. unfold quota_gate.
  apply unchanged_bind; [by apply check_rate_limit_unchanged|].
  intros permitted. destruct permitted; [apply unchanged_ret|].
  apply unchanged_bind; [by apply get_wait_time_unchanged|].
  intros. by apply sleep_unchanged.
Qed.

Lemma check_rate_limit_returns endpoint w :
  exists b, (check_rate_limit clock endpoint w).1 = Ok b.
Proof.
  destruct (rate_limits w !! endpoint) as [i|] eqn:H.
  - rewrite (check_rate_limit_tracked _ _ _ _ H). eauto.
  - rewrite check_rate_limit_untracked by done. eauto.
Qed.

Lemma get_wait_time_returns endpoint w :
  exists t, (get_wait_time clock endpoint w).1 = Ok t /\ 0 <= t.
Proof.
  unfold get_wait_time. munfold. simpl.
  destruct (rate_limits w !! endpoint) as [i|]; [|exists 0; split; [done|lia]].
  destruct (reset_time i) as [reset|]; simpl.
  - eexists. split; [done|]. unfold Py.max. lia.
  - exists 60. split; [done|lia].
Qed.

(** The quota check of an attempt: it never raises, charges the quota as
    one [check_rate_limit] does, and sleeps (a quota wait of at most 15
    seconds, never a retry backoff) exactly when the permit is denied. *)
Lemma quota_gate_spec endpoint w :
  let c := check_rate_limit clock endpoint w in
  let g := quota_gate clock endpoint w in
  g.1 = Ok tt
  /\ rate_limits g.2 = rate_limits c.2
  /\ (c.1 = Ok true -> sleeps g.2 = sleeps w)
  /\ (c.1 = Ok false ->
       exists s, sleeps g.2 = sleeps w ++ [QuotaWait s] /\ 0 <= s <= 15)
  /\ backoffs (sleeps g.2) = backoffs (sleeps w).
Proof.
  simpl. unfold quota_gate.
  destruct (check_rate_limit_returns endpoint w) as [b Hb].
  pose proof (check_rate_limit_unchanged sleeps endpoint
                (fun _ _ => eq_refl) (fun _ _ => eq_refl) w) as Hs.
  destruct (check_rate_limit clock endpoint w) as [r w1] eqn:E.
  simpl in Hb, Hs. subst r. rewrite (bind_ok _ _ _ _ _ E).
  destruct b; simpl.
  { repeat split; try done. by rewrite Hs. }
  destruct (get_wait_time_returns endpoint w1) as (t & Ht & Hpos).
  pose proof (get_wait_time_unchanged sleeps endpoint (fun _ _ => eq_refl) w1) as Hs2.
  pose proof (get_wait_time_unchanged rate_limits endpoint (fun _ _ => eq_refl) w1) as Hr2.
  destruct (get_wait_time clock endpoint w1) as [r w2] eqn:E2.
  simpl in Ht, Hs2, Hr2. subst r. rewrite (bind_ok _ _ _ _ _ E2).
  unfold sleep, modify. simpl. rewrite Hs2, Hs.
  repeat split; try done.
  - intros _. exists (Py.min t 15). split; [done|]. unfold Py.min. lia.
  - unfold backoffs. rewrite filter_app. simpl.
    rewrite filter_cons_False by (simpl; done).
    by rewrite filter_nil, app_nil_r.
Qed.

(** Whether the cache part raises depends on the arguments only. *)
Lemma cache_lookup_raise_stable endpoint call w e w1 :
  (cache_lookup clock hash endpoint call w).1 = Raise e ->
  (cache_lookup clock hash endpoint call w1).1 = Raise e.
Proof.
  unfold cache_lookup, py_hash, cache_get. munfold.
  destruct (String.eqb endpoint "search_recent"); [|done].
  destruct (truthy (query_of call)); [|done].
  destruct (query_of call) as [|q|z|l]; simpl.
  - destruct (cache w !! _) as [[d ts]|]; simpl; [|done].
    by destruct (_ <? _).
  - destruct (cache w !! _) as [[d ts]|]; simpl; [|done].
    by destruct (_ <? _).
  - destruct (cache w !! _) as [[d ts]|]; simpl; [|done].
    by destruct (_ <? _).
  - done.
Qed.

(** The cached response that an attempt returns, if any. *)
Definition cache_hit (cached : option Response) : option Response :=
  match cached with
  | Some c => if resp_truthy c then Some c else None
  | None => None
  end.

Lemma attempt_try_raise endpoint request_func call w e w1 :
  cache_lookup clock hash endpoint call w = (Raise e, w1) ->
  attempt_try clock hash fromtimestamp endpoint request_func call w = (Raise e, w1).
Proof. intros H. unfold attempt_try. by rewrite (bind_raise _ _ _ _ _ H). Qed.

Lemma attempt_try_hit endpoint request_func call w key cached c w1 :
  cache_lookup clock hash endpoint call w = (Ok (key, cached), w1) ->
  cache_hit cached = Some c ->
  attempt_try clock hash fromtimestamp endpoint request_func call w = (Ok (Return (Some c)), w1).
Proof.
  intros H Hc. unfold attempt_try. rewrite (bind_ok _ _ _ _ _ H). simpl.
  unfold cache_hit in Hc. by rewrite Hc.
Qed.

(** Without a cache hit, an attempt invokes the request function exactly
    once, whatever happens next. *)
Lemma attempt_try_miss endpoint request_func call w key cached w1 :
  cache_lookup clock hash endpoint call w = (Ok (key, cached), w1) ->
  cache_hit cached = None ->
  invocations (attempt_try clock hash fromtimestamp endpoint request_func call w).2
    = invocations w1 ++ [call]
  /\ sleeps (attempt_try clock hash fromtimestamp endpoint request_func call w).2 = sleeps w1
  /\ forall e, request_func (length (invocations w1)) call = Raises e ->
       (attempt_try clock hash fromtimestamp endpoint request_func call w).1 = Raise e.
Proof.
  intros H Hc. unfold attempt_try. rewrite (bind_ok _ _ _ _ _ H). simpl.
  unfold cache_hit in Hc. rewrite Hc.
  set (rest := fun response : option Response => _).
  assert (forall r, unchanged invocations (rest r)) as Hi.
  { intros r. subst rest. simpl. apply unchanged_bind.
    { destruct r as [r|]; [|apply unchanged_ret].
      destruct (resp_headers r); [|apply unchanged_ret].
      by apply update_from_headers_unchanged. }
    intros _. apply unchanged_bind; [|intros; apply unchanged_ret].
    destruct key; [|apply unchanged_ret].
    destruct r as [r|]; [|apply unchanged_ret].
    destruct (resp_truthy r); [|apply unchanged_ret].
    by apply cache_set_unchanged. }
  assert (forall r, unchanged sleeps (rest r)) as Hs.
  { intros r. subst rest. simpl. apply unchanged_bind.
    { destruct r as [r|]; [|apply unchanged_ret].
      destruct (resp_headers r); [|apply unchanged_ret].
      by apply update_from_headers_unchanged. }
    intros _. apply unchanged_bind; [|intros; apply unchanged_ret].
    destruct key; [|apply unchanged_ret].
    destruct r as [r|]; [|apply unchanged_ret].
    destruct (resp_truthy r); [|apply unchanged_ret].
    by apply cache_set_unchanged. }
  destruct (request_func (length (invocations w1)) call) as [r|e] eqn:E.
  - assert (invoke request_func call w1
            = (Ok r, with_invocations (invocations w1 ++ [call]) w1)) as Hinv
      by (unfold invoke; by rewrite E).
    rewrite (bind_ok _ _ _ _ _ Hinv), Hi, Hs. simpl. repeat split; done.
  - assert (invoke request_func call w1
            = (Raise e, with_invocations (invocations w1 ++ [call]) w1)) as Hinv
      by (unfold invoke; by rewrite E).
    rewrite (bind_raise _ _ _ _ _ Hinv). simpl. repeat split; try done.
    by intros e' [= <-].
Qed.

(** One attempt invokes the request function at most once, on the
    arguments of the call. *)
Lemma attempt_body_invokes endpoint request_func call attempt :
  invokes (fun c => c = call) 1
    (attempt_body clock hash fromtimestamp endpoint request_func call attempt).
Proof.
  unfold attempt_body.
  apply (invokes_bind _ 0 1).
  { apply invokes_unchanged, quota_gate_unchanged; done. }
  intros _. apply (invokes_try _ 1 0).
  - unfold attempt_try. apply (invokes_bind _ 0 1).
    { apply invokes_unchanged, cache_lookup_unchanged; done. }
    intros [cache_key cached]. simpl.
    destruct (match cached with
              | Some c => if resp_truthy c then Some c else None
              | None => None
              end).
    { apply (invokes_weaken _ 0); [|lia]. apply invokes_unchanged, unchanged_ret. }
    apply (invokes_bind _ 1 0); [by apply invokes_invoke|].
    intros response. apply invokes_unchanged.
    apply unchanged_bind.
    { destruct response as [r|]; [|apply unchanged_ret].
      destruct (resp_headers r); [|apply unchanged_ret].
      by apply update_from_headers_unchanged. }
    intros _. apply unchanged_bind; [|intros; apply unchanged_ret].
    destruct cache_key; [|apply unchanged_ret].
    destruct response as [r|]; [|apply unchanged_ret].
    destruct (resp_truthy r); [|apply unchanged_ret].
    by apply cache_set_unchanged.
  - intros e. apply invokes_unchanged. unfold attempt_except.
    destruct e; frame; by apply sleep_unchanged.
Qed.

Lemma attempts_invokes endpoint request_func call range :
  invokes (fun c => c = call) (length range)
    (attempts clock hash fromtimestamp endpoint request_func call range).
Proof.
  induction range as [|attempt rest IH]; simpl.
  - apply invokes_unchanged, unchanged_ret.
  - apply (invokes_bind _ 1 (length rest)); [apply attempt_body_invokes|].
    intros [r|]; [|exact IH].
    apply (invokes_weaken _ 0); [|lia]. apply invokes_unchanged, unchanged_ret.
Qed.

Lemma attempt_except_returns attempt e w :
  exists step, (attempt_except attempt e w).1 = Ok step.
Proof.
  unfold attempt_except, sleep. munfold.
  destruct e; simpl; try destruct (attempt <? max_retries); simpl; eauto.
Qed.

Lemma attempt_except_unchanged {B} (proj : World -> B) attempt e :
  (forall l w, proj (with_sleeps l w) = proj w) ->
  unchanged proj (attempt_except attempt e).
Proof.
  intros Hs. unfold attempt_except.
  destruct e; frame; by apply sleep_unchanged.
Qed.

(** An attempt never raises: every exception of its [try] block is
    handled. *)
Lemma attempt_body_returns endpoint request_func call attempt w :
  exists step,
    (attempt_body clock hash fromtimestamp endpoint request_func call attempt w).1 = Ok step.
Proof.
  unfold attempt_body.
  destruct (quota_gate_spec endpoint w) as (Hg & _). simpl in Hg.
  destruct (quota_gate clock endpoint w) as [rg w1] eqn:Eg.
  simpl in Hg. subst rg. rewrite (bind_ok _ _ _ _ _ Eg).
  destruct (attempt_try clock hash fromtimestamp endpoint request_func call w1)
    as [[step|e] w2] eqn:Et.
  - rewrite (try_ok _ _ _ _ _ Et). eauto.
  - rewrite (try_raise _ _ _ _ _ Et). apply attempt_except_returns.
Qed.

(** When the cache part raises (an unhashable query), no attempt reaches
    the request function. *)
Lemma attempt_body_lookup_raises endpoint request_func call attempt w e :
  (forall w1, (cache_lookup clock hash endpoint call w1).1 = Raise e) ->
  invocations (attempt_body clock hash fromtimestamp endpoint request_func call attempt w).2
    = invocations w.
Proof.
  intros Hl. unfold attempt_body.
  destruct (quota_gate_spec endpoint w) as (Hg & _). simpl in Hg.
  pose proof (quota_gate_unchanged invocations endpoint
                (fun _ _ => eq_refl) (fun _ _ => eq_refl) (fun _ _ => eq_refl) w) as Hi.
  destruct (quota_gate clock endpoint w) as [rg w1] eqn:Eg.
  simpl in Hg, Hi. subst rg. rewrite (bind_ok _ _ _ _ _ Eg).
  specialize (Hl w1).
  pose proof (cache_lookup_unchanged invocations endpoint call
                (fun _ _ => eq_refl) (fun _ _ => eq_refl) w1) as Hi2.
  destruct (cache_lookup clock hash endpoint call w1) as [rl w2] eqn:El.
  simpl in Hl, Hi2. subst rl.
  rewrite (try_raise _ _ _ _ _ (attempt_try_raise _ _ _ _ _ _ El)).
  rewrite (attempt_except_unchanged invocations attempt e (fun _ _ => eq_refl) w2).
  congruence.
Qed.

Lemma attempts_lookup_raises endpoint request_func call range w e :
  (forall w1, (cache_lookup clock hash endpoint call w1).1 = Raise e) ->
  invocations (attempts clock hash fromtimestamp endpoint request_func call range w).2
    = invocations w.
Proof.
  intros Hl. revert w. induction range as [|attempt rest IH]; intros w; [done|].
  simpl.
  pose proof (attempt_body_lookup_raises endpoint request_func call attempt w e Hl) as Hi.
  destruct (attempt_body_returns endpoint request_func call attempt w) as [step Hs].
  destruct (attempt_body clock hash fromtimestamp endpoint request_func call attempt w)
    as [rb w1] eqn:Eb.
  simpl in Hi, Hs. subst rb. rewrite (bind_ok _ _ _ _ _ Eb).
  destruct step as [r|]; [done|]. by rewrite IH.
Qed.

(** C2.  Whatever the request function does (return or raise, in any
    order), one call of [make_request_with_retry] invokes it at most twice,
    each time on the arguments it was given. *)
Theorem make_request_with_retry_at_most_two_invocations
    (endpoint : string) (request_func : RequestFunc) (call : Call) (w : World) :
  exists l,
    invocations (make_request_with_retry clock hash fromtimestamp endpoint request_func call w).2
      = invocations w ++ l
    /\ (length l <= 2)%nat
    /\ Forall (fun c => c = call) l.
Proof.
  exact (attempts_invokes endpoint request_func call (seqZ 0 (max_retries + 1)) w).
Qed.

Lemma checked_replenished i t :
  (checked clock i t).1.1 = (0 <? replenished clock i t)
  /\ remaining (checked clock i t).1.2
     = if 0 <? replenished clock i t
       then replenished clock i t - 1 else replenished clock i t.
Proof.
  unfold checked, replenished.
  destruct (reset_time i) as [reset|] eqn:Hr; simpl.
  - destruct (reset <? clock t); simpl.
    + destruct (0 <? limit i); simpl; done.
    + destruct (0 <? remaining i); simpl; [done|]. by rewrite Hr.
  - destruct (0 <? remaining i); simpl; [done|]. by rewrite Hr.
Qed.

Lemma cache_lookup_derived call key w :
  derived_key hash call = Some key ->
  cache_lookup clock hash "search_recent" call w
  = (cache_get clock key ≫= fun cached => mret (Some key, cached)) w.
Proof.
  unfold derived_key, cache_lookup. simpl.
  destruct (truthy (query_of call)); [|done].
  destruct (query_of call); try done; by intros [= <-].
Qed.

Lemma cache_get_fresh key data timestamp w :
  cache w !! key = Some (data, timestamp) ->
  clock (ticks w) - timestamp < ttl w ->
  cache_get clock key w = (Ok (Some data), with_ticks (S (ticks w)) w).
Proof.
  intros Hc Hlt. unfold cache_get, now. munfold. rewrite Hc. simpl.
  by assert ((clock (ticks w) - timestamp <? ttl w) = true) as -> by lia.
Qed.

Lemma cache_get_absent key w :
  cache w !! key = None -> cache_get clock key w = (Ok None, w).
Proof. intros Hc. unfold cache_get. munfold. by rewrite Hc. Qed.

(** C3 (as amended).  When a cache key is derived and the response cache
    holds an unexpired value for it, [make_request_with_retry] returns that
    value without invoking the request function.  The quota check comes
    first and is made once: the tracker ends as one [check_rate_limit]
    leaves it, so the hit costs exactly one unit when a unit is available,
    and none when the quota is used up, in which case the caller also
    sleeps a quota wait of at most 15 seconds before serving the cached
    value. *)
Theorem cache_hit_skips_upstream
    (request_func : RequestFunc) (call : Call) (w : World)
    (key : string) (data : Response) (timestamp : Z) (i : LimitInfo) :
  derived_key hash call = Some key ->
  cache w !! key = Some (data, timestamp) ->
  resp_truthy data = true ->
  (forall n, clock n - timestamp < ttl w) ->
  rate_limits w !! "search_recent" = Some i ->
  let r := make_request_with_retry clock hash fromtimestamp "search_recent" request_func call w in
  let available := replenished clock i (ticks w) in
  r.1 = Ok (Some data)
  /\ invocations r.2 = invocations w
  /\ rate_limits r.2 = rate_limits (check_rate_limit clock "search_recent" w).2
  /\ (exists i', rate_limits r.2 !! "search_recent" = Some i'
        /\ remaining i' = if 0 <? available then available - 1 else available)
  /\ (0 < available -> sleeps r.2 = sleeps w)
  /\ (available <= 0 ->
       exists s, sleeps r.2 = sleeps w ++ [QuotaWait s] /\ 0 <= s <= 15).
Proof.
  intros Hkey Hc Ht Hfresh Hi. simpl. unfold make_request_with_retry.
  replace (seqZ 0 (max_retries + 1)) with [0; 1] by reflexivity.
  pose proof (quota_gate_unchanged invocations "search_recent"
                (fun _ _ => eq_refl) (fun _ _ => eq_refl) (fun _ _ => eq_refl) w) as Hinv.
  pose proof (quota_gate_unchanged cache "search_recent"
                (fun _ _ => eq_refl) (fun _ _ => eq_refl) (fun _ _ => eq_refl) w) as Hca.
  pose proof (quota_gate_unchanged ttl "search_recent"
                (fun _ _ => eq_refl) (fun _ _ => eq_refl) (fun _ _ => eq_refl) w) as Httl.
  destruct (quota_gate_spec "search_recent" w) as (Hg & Hrl & Hgrant & Hdeny & _).
  simpl in Hg, Hrl, Hgrant, Hdeny.
  destruct (quota_gate clock "search_recent" w) as [rg w1] eqn:Eg.
  simpl in Hg, Hinv, Hca, Httl, Hrl, Hgrant, Hdeny. subst rg.
  assert (cache_lookup clock hash "search_recent" call w1
          = (Ok (Some key, Some data), with_ticks (S (ticks w1)) w1)) as El.
  { rewrite (cache_lookup_derived _ _ _ Hkey).
    assert (cache w1 !! key = Some (data, timestamp)) as Hc1 by (by rewrite Hca).
    assert (clock (ticks w1) - timestamp < ttl w1) as Hf1
      by (rewrite Httl; apply Hfresh).
    by rewrite (bind_ok _ _ _ _ _ (cache_get_fresh key data timestamp w1 Hc1 Hf1)). }
  assert (attempt_body clock hash fromtimestamp "search_recent" request_func call 0 w
          = (Ok (Return (Some data)), with_ticks (S (ticks w1)) w1)) as Hbody.
  { unfold attempt_body. rewrite (bind_ok _ _ _ _ _ Eg).
    apply try_ok. eapply attempt_try_hit; [exact El|].
    simpl. by rewrite Ht. }
  change (attempts clock hash fromtimestamp "search_recent" request_func call [0; 1] w)
    with ((attempt_body clock hash fromtimestamp "search_recent" request_func call 0 ≫=
            fun step => match step with
                        | Return r => mret r
                        | Continue =>
                            attempts clock hash fromtimestamp "search_recent" request_func call [1]
                        end) w).
  rewrite (bind_ok _ _ _ _ _ Hbody). simpl.
  rewrite (check_rate_limit_tracked _ _ _ _ Hi) in Hrl, Hgrant, Hdeny.
  simpl in Hrl, Hgrant, Hdeny.
  destruct (checked_replenished i (ticks w)) as [Hb Hrem].
  repeat split; try done.
  - by rewrite (check_rate_limit_tracked _ _ _ _ Hi).
  - exists (checked clock i (ticks w)).1.2. split; [|done].
    rewrite Hrl. apply lookup_insert_eq.
  - intros Hpos. apply Hgrant. rewrite Hb. f_equal. lia.
  - intros Hneg. apply Hdeny. rewrite Hb. f_equal. lia.
Qed.

(** Without a cache hit, the first attempt reaches the request function. *)
Lemma make_request_miss_invokes endpoint request_func call w :
  (forall w1, cache w1 = cache w ->
     exists k, cache_lookup clock hash endpoint call w1 = (Ok (k, None), w1)) ->
  exists l,
    invocations (make_request_with_retry clock hash fromtimestamp endpoint request_func call w).2
    = invocations w ++ call :: l.
Proof.
  intros Hmiss. unfold make_request_with_retry.
  replace (seqZ 0 (max_retries + 1)) with [0; 1] by reflexivity.
  pose proof (quota_gate_unchanged invocations endpoint
                (fun _ _ => eq_refl) (fun _ _ => eq_refl) (fun _ _ => eq_refl) w) as Hinv.
  pose proof (quota_gate_unchanged cache endpoint
                (fun _ _ => eq_refl) (fun _ _ => eq_refl) (fun _ _ => eq_refl) w) as Hca.
  destruct (quota_gate_spec endpoint w) as (Hg & _). simpl in Hg.
  destruct (quota_gate clock endpoint w) as [rg w1] eqn:Eg.
  simpl in Hg, Hinv, Hca. subst rg.
  destruct (Hmiss w1 Hca) as [k El].
  destruct (attempt_try_miss endpoint request_func call w1 k None w1 El eq_refl)
    as (Hi & _ & _).
  assert (invocations (attempt_body clock hash fromtimestamp endpoint request_func call 0 w).2
          = invocations w ++ [call]) as Hbody.
  { unfold attempt_body. rewrite (bind_ok _ _ _ _ _ Eg).
    destruct (attempt_try clock hash fromtimestamp endpoint request_func call w1)
      as [[step|e] w2] eqn:Et; simpl in Hi.
    - rewrite (try_ok _ _ _ _ _ Et). simpl. congruence.
    - rewrite (try_raise _ _ _ _ _ Et).
      rewrite (attempt_except_unchanged invocations 0 e (fun _ _ => eq_refl) w2).
      congruence. }
  destruct (attempt_body_returns endpoint request_func call 0 w) as [step Hstep].
  change (attempts clock hash fromtimestamp endpoint request_func call [0; 1] w)
    with ((attempt_body clock hash fromtimestamp endpoint request_func call 0 ≫=
            fun step => match step with
                        | Return r => mret r
                        | Continue => attempts clock hash fromtimestamp endpoint request_func call [1]
                        end) w).
  destruct (attempt_body clock hash fromtimestamp endpoint request_func call 0 w) as [rb w3] eqn:Eb.
  simpl in Hbody, Hstep. subst rb. rewrite (bind_ok _ _ _ _ _ Eb).
  destruct step as [r|].
  - exists []. simpl. done.
  - destruct (attempts_invokes endpoint request_func call [1] w3) as (l & Hl & _).
    exists l. rewrite Hl, Hbody, <- app_assoc. done.
Qed.

(** The arguments with which [search_recent_tweets_safe] calls upstream. *)
Definition search_call (query : string) (max_results : Z)
    (kwargs : gmap string PyVal) : Call :=
  mkCall []
    (<["query" := VStr query]>
       (<["max_results" := VInt (Z.max 10 (Z.min max_results 100))]> kwargs)).

Lemma search_lookup_miss query max_results kwargs w :
  Py.is_empty query = true
  \/ cache w !! ("search_" +:+ pretty (hash query)) = None ->
  exists k,
    cache_lookup clock hash "search_recent" (search_call query max_results kwargs) w
    = (Ok (k, None), w).
Proof.
  intros H. unfold cache_lookup, query_of, search_call. simpl.
  rewrite lookup_insert_eq. simpl.
  destruct (Py.is_empty query) eqn:He; simpl; [eauto|].
  destruct H as [|H]; [done|].
  exists (Some ("search_" +:+ pretty (hash query))).
  rewrite ?He. unfold py_hash. munfold. simpl.
  by rewrite (cache_get_absent _ _ H).
Qed.

Lemma search_recent_tweets_safe_invokes query max_results kwargs :
  invokes (fun c => call_kwargs c !! "max_results"
                    = Some (VInt (Z.max 10 (Z.min max_results 100)))) 2
    (search_recent_tweets_safe clock hash fromtimestamp query max_results kwargs).
Proof.
  unfold search_recent_tweets_safe.
  apply (invokes_try _ 2 0); [|intros; apply invokes_unchanged, unchanged_ret].
  apply (invokes_bind _ 0 2); [apply invokes_unchanged, unchanged_gets|].
  intros [cl|].
  - destruct (colliding_keywords kwargs).
    + apply (invokes_weaken _ 0); [|lia]. apply invokes_unchanged, unchanged_raise.
    + eapply invokes_impl; [|apply attempts_invokes].
      intros c ->. simpl. unfold Py.max, Py.min.
      rewrite lookup_insert_ne by done. apply lookup_insert_eq.
  - apply (invokes_weaken _ 0); [|lia]. apply invokes_unchanged, unchanged_raise.
Qed.

(** C10.  Every upstream search that [search_recent_tweets_safe] makes (at
    most two) carries [max_results = max(10, min(max_results, 100))], a
    value between 10 and 100: 10 when fewer than 10 results are requested,
    100 when more than 100 are.  And with an operational client, no cached
    response for the query and no extra keyword that collides with a
    parameter of [make_request_with_retry], such a search is made; with a
    colliding keyword the call returns [None] and nothing is searched. *)
Theorem search_recent_tweets_safe_clamps_max_results
    (query : string) (max_results : Z) (kwargs : gmap string PyVal) (w : World) :
  let twitter_max_results := Z.max 10 (Z.min max_results 100) in
  let r := search_recent_tweets_safe clock hash fromtimestamp query max_results kwargs w in
  (exists l,
     invocations r.2 = invocations w ++ l
     /\ (length l <= 2)%nat
     /\ Forall (fun c => call_kwargs c !! "max_results"
                          = Some (VInt twitter_max_results)) l)
  /\ 10 <= twitter_max_results <= 100
  /\ (max_results < 10 -> twitter_max_results = 10)
  /\ (100 < max_results -> twitter_max_results = 100)
  /\ (is_operational w = true ->
      colliding_keywords kwargs = false ->
      Py.is_empty query = true
      \/ cache w !! ("search_" +:+ pretty (hash query)) = None ->
      exists l,
        invocations r.2
        = invocations w ++ search_call query max_results kwargs :: l)
  /\ (colliding_keywords kwargs = true -> r = (Ok None, w)).
Proof.
  simpl. split; [|split; [lia|split; [lia|split; [lia|split]]]].
  - apply search_recent_tweets_safe_invokes.
  - intros Hop Hkw Hmiss. unfold search_recent_tweets_safe, is_operational in *.
    unfold try_except. erewrite bind_ok; [|done].
    destruct (client w) as [cl|]; [|done]. rewrite Hkw.
    destruct (make_request_miss_invokes "search_recent" (search_recent_tweets cl)
                (search_call query max_results kwargs) w) as [l Hl].
    { intros w1 Hc. apply search_lookup_miss. by rewrite Hc. }
    exists l. unfold search_call, Py.max, Py.min in *.
    destruct (make_request_with_retry _ _ _ _ _ _ w) as [[a|e] w']; exact Hl.
  - intros Hkw. unfold search_recent_tweets_safe. munfold.
    destruct (client w); [by rewrite Hkw|done].
Qed.

(** C9 (as amended).  When the first upstream invocation of a call raises
    [BadRequest], the call ends there: it returns [None], the request
    function has been invoked exactly once, and no retry backoff was slept.
    (The only other course is that the request function is not reached at
    all: a cache hit, or a query that cannot be hashed.) *)
Theorem bad_request_is_not_retried
    (endpoint : string) (request_func : RequestFunc) (call : Call) (w : World) :
  request_func (length (invocations w)) call = Raises BadRequest ->
  let r := make_request_with_retry clock hash fromtimestamp endpoint request_func call w in
  invocations r.2 = invocations w
  \/ (r.1 = Ok None
      /\ invocations r.2 = invocations w ++ [call]
      /\ backoffs (sleeps r.2) = backoffs (sleeps w)).
Proof.
  intros Hbad. simpl. unfold make_request_with_retry.
  replace (seqZ 0 (max_retries + 1)) with [0; 1] by reflexivity.
  pose proof (quota_gate_unchanged invocations endpoint
                (fun _ _ => eq_refl) (fun _ _ => eq_refl) (fun _ _ => eq_refl) w) as Hi.
  destruct (quota_gate_spec endpoint w) as (Hg & _ & _ & _ & Hb). simpl in Hg, Hb.
  destruct (quota_gate clock endpoint w) as [rg w1] eqn:Eg.
  simpl in Hg, Hi, Hb. subst rg.
  pose proof (cache_lookup_unchanged invocations endpoint call
                (fun _ _ => eq_refl) (fun _ _ => eq_refl) w1) as Hi2.
  pose proof (cache_lookup_unchanged sleeps endpoint call
                (fun _ _ => eq_refl) (fun _ _ => eq_refl) w1) as Hs2.
  destruct (cache_lookup clock hash endpoint call w1) as [[[key cached]|e] w2] eqn:El;
    simpl in Hi2, Hs2.
  - change (attempts clock hash fromtimestamp endpoint request_func call [0; 1] w)
      with ((attempt_body clock hash fromtimestamp endpoint request_func call 0 ≫=
              fun step => match step with
                          | Return r => mret r
                          | Continue => attempts clock hash fromtimestamp endpoint request_func call [1]
                          end) w).
    destruct (cache_hit cached) as [c|] eqn:Hh.
    + left.
      assert (attempt_body clock hash fromtimestamp endpoint request_func call 0 w
              = (Ok (Return (Some c)), w2)) as Hbody.
      { unfold attempt_body. rewrite (bind_ok _ _ _ _ _ Eg).
        apply try_ok. by eapply attempt_try_hit. }
      rewrite (bind_ok _ _ _ _ _ Hbody). simpl. congruence.
    + right.
      destruct (attempt_try_miss endpoint request_func call w1 key cached w2 El Hh)
        as (Hinv & Hsl & Hraise).
      specialize (Hraise BadRequest).
      rewrite Hi2, Hi in Hraise. specialize (Hraise Hbad).
      destruct (attempt_try clock hash fromtimestamp endpoint request_func call w1)
        as [rt w3] eqn:Et.
      simpl in Hinv, Hsl, Hraise. subst rt.
      assert (attempt_body clock hash fromtimestamp endpoint request_func call 0 w
              = (Ok (Return None), w3)) as Hbody.
      { unfold attempt_body. rewrite (bind_ok _ _ _ _ _ Eg).
        by rewrite (try_raise _ _ _ _ _ Et). }
      rewrite (bind_ok _ _ _ _ _ Hbody). simpl.
      repeat split; congruence.
  - left. apply attempts_lookup_raises with (e := e).
    intros w'. apply (cache_lookup_raise_stable endpoint call w1).
    by rewrite El.
Qed.

End GuardedCaller.

(** C9, as stated, fails when the bad request comes on the retry: after a
    [TooManyRequests] on the first attempt the caller backs off for 2
    seconds and invokes the request function again; the [BadRequest] of that
    second invocation ends a call that made two invocations. *)
Lemma bad_request_on_the_retry_follows_a_backoff :
  let request_func : RequestFunc :=
    fun n _ => match n with
               | O => Raises TooManyRequests
               | S _ => Raises BadRequest
               end in
  let call := mkCall [] (<["query" := VStr "jazz night"]> ∅) in
  let r := make_request_with_retry (fun _ => 0) (fun _ => 7) (fun t => Some t) "search_recent"
             request_func call (new_twitter_client None) in
  request_func 1%nat call = Raises BadRequest
  /\ r.1 = Ok None
  /\ invocations r.2 = [call; call]
  /\ sleeps r.2 = [RetryBackoff 2].
Proof. repeat split; vm_compute; reflexivity. Qed.

(** A truthy response without headers, and a search for "jazz night". *)
Definition a_response : Response := mkResponse true None [] [].

Definition jazz_call : Call := mkCall [] (<["query" := VStr "jazz night"]> ∅).

(** A client whose response cache holds [a_response] for that search,
    stored at second 0 (the hash of the query being 7). *)
Definition cached_world (rl : gmap string LimitInfo) : World :=
  mkWorld None rl (<["search_7" := (a_response, 0)]> ∅) (30 * 60) 0 [] [].

(** The cache-hit theorem with the default quota, at second 500. *)
Lemma cache_hit_skips_upstream_witness :
  let w := cached_world setup_default_limits in
  let r := make_request_with_retry (fun _ => 500) (fun _ => 7) (fun t => Some t) "search_recent"
             (fun _ _ => Returns None) jazz_call w in
  let available := replenished (fun _ => 500) (mkLimitInfo 450 450 None 15) (ticks w) in
  r.1 = Ok (Some a_response)
  /\ invocations r.2 = invocations w
  /\ rate_limits r.2
     = rate_limits (check_rate_limit (fun _ => 500) "search_recent" w).2
  /\ (exists i', rate_limits r.2 !! "search_recent" = Some i'
        /\ remaining i' = if 0 <? available then available - 1 else available)
  /\ (0 < available -> sleeps r.2 = sleeps w)
  /\ (available <= 0 ->
       exists s, sleeps r.2 = sleeps w ++ [QuotaWait s] /\ 0 <= s <= 15).
Proof.
  apply (cache_hit_skips_upstream (fun _ => 500) (fun _ => 7) (fun t => Some t)
           (fun _ _ => Returns None) jazz_call
           (cached_world setup_default_limits) "search_7" a_response 0
           (mkLimitInfo 450 450 None 15)).
  - reflexivity.
  - reflexivity.
  - reflexivity.
  - intros n. simpl. lia.
  - reflexivity.
Defined.

(** C3, as stated, fails on a used-up quota: the cache holds an unexpired
    value and the call returns it without invoking upstream, but the quota
    check is denied, so no unit is consumed ([remaining] is 0 before and
    after); the caller sleeps 15 seconds instead. *)
Lemma cache_hit_on_used_up_quota_consumes_nothing :
  let i := mkLimitInfo 450 0 (Some 1000) 15 in
  let w := cached_world (<["search_recent" := i]> setup_default_limits) in
  let r := make_request_with_retry (fun _ => 500) (fun _ => 7) (fun t => Some t) "search_recent"
             (fun _ _ => Returns None) jazz_call w in
  derived_key (fun _ => 7) jazz_call = Some "search_7"
  /\ cache w !! "search_7" = Some (a_response, 0)
  /\ 500 - 0 < ttl w
  /\ rate_limits w !! "search_recent" = Some i
  /\ r.1 = Ok (Some a_response)
  /\ invocations r.2 = []
  /\ rate_limits r.2 !! "search_recent" = Some i
  /\ sleeps r.2 = [QuotaWait 15].
Proof. repeat split; vm_compute; reflexivity. Qed.

(** The bad-request theorem on a request function that always raises
    [BadRequest]. *)
Lemma bad_request_is_not_retried_witness :
  let w := new_twitter_client None in
  let r := make_request_with_retry (fun _ => 0) (fun _ => 7) (fun t => Some t) "search_recent"
             (fun _ _ => Raises BadRequest) jazz_call w in
  invocations r.2 = invocations w
  \/ (r.1 = Ok None
      /\ invocations r.2 = invocations w ++ [jazz_call]
      /\ backoffs (sleeps r.2) = backoffs (sleeps w)).
Proof.
  apply (bad_request_is_not_retried (fun _ => 0) (fun _ => 7) (fun t => Some t) "search_recent"
           (fun _ _ => Raises BadRequest) jazz_call (new_twitter_client None)).
  reflexivity.
Defined.

(** On that input the call makes exactly one invocation. *)
Example bad_request_single_invocation :
  let r := make_request_with_retry (fun _ => 0) (fun _ => 7) (fun t => Some t) "search_recent"
             (fun _ _ => Raises BadRequest) jazz_call (new_twitter_client None) in
  r.1 = Ok None /\ invocations r.2 = [jazz_call] /\ sleeps r.2 = [].
Proof. repeat split; vm_compute; reflexivity. Qed.

(** The clamping theorem for a request of 3 results on an operational
    client with an empty cache: a search for 10 results goes upstream. *)
Lemma search_recent_tweets_safe_clamps_max_results_witness :
  let w := new_twitter_client (Some (mkClient (fun _ _ => Returns (Some a_response)))) in
  let r := search_recent_tweets_safe (fun _ => 0) (fun _ => 7) (fun t => Some t) "jazz night" 3 ∅ w in
  Z.max 10 (Z.min 3 100) = 10
  /\ exists l, invocations r.2 = invocations w ++ search_call "jazz night" 3 ∅ :: l.
Proof.
  destruct (search_recent_tweets_safe_clamps_max_results (fun _ => 0) (fun _ => 7) (fun t => Some t)
              "jazz night" 3 ∅
              (new_twitter_client (Some (mkClient (fun _ _ => Returns (Some a_response))))))
    as (_ & _ & Hlow & _ & Hcall & _).
  split.
  - apply Hlow. lia.
  - apply Hcall; [reflexivity|reflexivity|]. right. reflexivity.
Defined.

(** With an extra keyword named [endpoint] nothing is searched. *)
Example colliding_keyword_is_not_searched :
  let w := new_twitter_client (Some (mkClient (fun _ _ => Returns (Some a_response)))) in
  search_recent_tweets_safe (fun _ => 0) (fun _ => 7) (fun t => Some t)
    "jazz night" 3 (<["endpoint" := VStr "users"]> ∅) w
  = (Ok None, w).
Proof. vm_compute. reflexivity. Qed.

Example search_for_three_asks_for_ten :
  let w := new_twitter_client (Some (mkClient (fun _ _ => Returns (Some a_response)))) in
  invocations (search_recent_tweets_safe (fun _ => 0) (fun _ => 7) (fun t => Some t) "jazz night" 3 ∅ w).2
  = [mkCall [] (<["query" := VStr "jazz night"]> (<["max_results" := VInt 10]> ∅))].
Proof. vm_compute. reflexivity. Qed.

(** ** Attendee discovery *)

Section AttendeeDiscovery.

Variable clock : nat -> Z.
Variable hash : string -> Z.
Variable fromtimestamp : Z -> option Z.
Variable _build_single_query : string -> string.
Variable _is_relevant_tweet : string -> string -> bool.
Variable _calculate_confidence_scores : list ResearchAttendee -> list ResearchAttendee.

(** C6.  When the client is not operational (its inner client is unset),
    [discover_attendees] returns the empty list and leaves the whole state
    as it was: no upstream invocation is logged, the quota tracker and the
    response cache are untouched, the clock is not even read. *)
Theorem discover_attendees_not_operational
    (event_name : string) (max_results : Z) (w : World) :
  client w = None ->
  discover_attendees clock hash fromtimestamp _build_single_query _is_relevant_tweet
    _calculate_confidence_scores event_name max_results w
  = (Ok [], w).
Proof.
  intros H. unfold discover_attendees, is_operational. munfold. by rewrite H.
Qed.

(** Through [_search_twitter_safe] the upstream search is asked for
    [max(10, min(3 * max_results, 100))] results: clamping twice changes
    nothing. *)
Lemma _search_twitter_safe_max_results (query : string) (max_results : Z) (w : World) :
  exists l,
    invocations (_search_twitter_safe clock hash fromtimestamp query max_results w).2
      = invocations w ++ l
    /\ (length l <= 2)%nat
    /\ Forall (fun c => call_kwargs c !! "max_results"
                         = Some (VInt (Z.max 10 (Z.min (max_results * 3) 100)))) l.
Proof.
  unfold _search_twitter_safe.
  destruct (Py.is_empty query).
  { exists []. rewrite app_nil_r. repeat split; [simpl; lia|done]. }
  set (kwargs := <["tweet_fields" := _]> _).
  assert (invokes (fun c => call_kwargs c !! "max_results"
                            = Some (VInt (Z.max 10 (Z.min (max_results * 3) 100)))) 2
            (search_recent_tweets_safe clock hash fromtimestamp query
               (Py.max 10 (Py.min (max_results * 3) 100)) kwargs)) as Hs.
  { eapply invokes_impl; [|apply search_recent_tweets_safe_invokes].
    intros c ->. unfold Py.max, Py.min. do 2 f_equal. lia. }
  apply (invokes_try _ 2 0); [|intros; apply invokes_unchanged, unchanged_ret].
  apply (invokes_bind _ 2 0); [exact Hs|].
  intros tweets. apply invokes_unchanged. frame.
Qed.

End AttendeeDiscovery.

(** The short-circuit on a client whose set-up failed. *)
Lemma discover_attendees_not_operational_witness :
  discover_attendees (fun _ => 0) (fun _ => 7) (fun t => Some t) (fun s => s) (fun _ _ => true)
    (fun l => l) "jazz night" 5 (new_twitter_client None)
  = (Ok [], new_twitter_client None).
Proof.
  apply (discover_attendees_not_operational (fun _ => 0) (fun _ => 7) (fun t => Some t) (fun s => s)
           (fun _ _ => true) (fun l => l) "jazz night" 5 (new_twitter_client None)).
  reflexivity.
Defined.

(** ** Partial-hit range cache *)

(** What one stored range contributes to a lookup: when its range overlaps
    the search range, its events dated inside the search range. *)
Definition range_hits (search_start search_end : Py.datetime)
    (entry : string * list ResearchEvent) : list ResearchEvent :=
  match parse_range entry.1 with
  | Some (cache_start, cache_end) =>
      if _ranges_overlap search_start search_end cache_start cache_end
      then filter (fun ev => in_search_range search_start search_end ev = true) entry.2
      else []
  | None => []
  end.

Lemma cached_in_ranges_spec search_start search_end ranges cached_events :
  Forall (fun entry => is_Some (parse_range entry.1)) ranges ->
  cached_in_ranges search_start search_end ranges cached_events
  = Some (cached_events ++ (ranges ≫= range_hits search_start search_end)).
Proof.
  intros Hwf. revert cached_events.
  induction Hwf as [|[key events] ranges [[cs ce] Hk] _ IH]; intros acc; simpl.
  - by rewrite app_nil_r.
  - simpl in Hk. unfold range_hits at 1. simpl. rewrite Hk, IH.
    destruct (_ranges_overlap search_start search_end cs ce); simpl.
    + by rewrite app_assoc.
    + done.
Qed.

(** An event as [_convert_to_research_events] builds it. *)
Definition an_event (name date : string) : ResearchEvent :=
  mkResearchEvent name date "Main Hall" "Austin" "music" (85 # 100)
    "https://example.org/event" "Google Events".

(** A cache whose only stored range for Austin is January 2024, holding an
    event of 20 January and an event of 1 February. *)
Definition january_cache : EventCache :=
  <["Austin" := [("2024-01-01_2024-01-31",
                  [an_event "Jazz Night" "2024-01-20";
                   an_event "Winter Gala" "2024-02-01"])]]> ∅.

Definition jan_15 : Py.datetime := Py.mkDate 2024 1 15.
Definition feb_15 : Py.datetime := Py.mkDate 2024 2 15.

(** The key under which a range is stored. *)
Definition cache_key (start_date end_date : string) : string :=
  start_date +:+ "_" +:+ end_date.

(** One call of [_cache_events]. *)
Record Insertion := mkInsertion {
  ins_location : string;
  ins_start_date : string;
  ins_end_date : string;
  ins_events : list ResearchEvent
}.

Definition insert_all (insertions : list Insertion) (event_cache : EventCache)
    : EventCache :=
  foldl (fun ec i =>
           _cache_events (ins_location i) (ins_start_date i) (ins_end_date i)
             (ins_events i) ec)
        event_cache insertions.

(** The stored ranges of a location. *)
Definition ranges_of (event_cache : EventCache) (location : string)
    : list (string * list ResearchEvent) :=
  default [] (event_cache !! location).

Lemma dict_set_length {V} (k : string) (v : V) d :
  (length (dict_set k v d) <= S (length d))%nat.
Proof.
  induction d as [|[k' v'] d IH]; simpl; [lia|].
  destruct (String.eqb k' k); simpl; lia.
Qed.

Lemma dict_set_fresh {V} (k : string) (v : V) d :
  k ∉ d.*1 -> dict_set k v d = d ++ [(k, v)].
Proof.
  induction d as [|[k' v'] d IH]; simpl; [done|].
  intros Hn. apply not_elem_of_cons in Hn as [Hne Hn].
  destruct (String.eqb_spec k' k) as [->|_]; [done|].
  by rewrite IH.
Qed.

Lemma dict_del_head {V} (k : string) (v : V) d :
  dict_del k ((k, v) :: d) = d.
Proof. simpl. by rewrite String.eqb_refl. Qed.

(** [_cache_events] in terms of the ranges of its location. *)
Definition evict_oldest (ranges : list (string * list ResearchEvent))
    : list (string * list ResearchEvent) :=
  if (5 <? length ranges)%nat then tail ranges else ranges.

Lemma _cache_events_ranges location start_date end_date events event_cache :
  _cache_events location start_date end_date events event_cache
  = <[location := evict_oldest
                    (dict_set (cache_key start_date end_date) events
                       (ranges_of event_cache location))]> event_cache.
Proof.
  unfold _cache_events, evict_oldest, cache_key, ranges_of. f_equal.
  destruct (dict_set _ events _) as [|[k v] d] eqn:E; [done|].
  destruct (5 <? length ((k, v) :: d))%nat; [|done].
  by rewrite dict_del_head.
Qed.

Lemma _cache_events_bound location start_date end_date events event_cache l :
  (forall l, (length (ranges_of event_cache l) <= 5)%nat) ->
  (length (ranges_of (_cache_events location start_date end_date events event_cache) l)
   <= 5)%nat.
Proof.
  intros H. rewrite _cache_events_ranges. unfold ranges_of at 1.
  rewrite lookup_insert. case_decide; [|apply H]. simpl.
  unfold evict_oldest.
  pose proof (dict_set_length (cache_key start_date end_date) events
                (ranges_of event_cache location)) as Hs.
  specialize (H location).
  destruct (5 <? length _)%nat eqn:E.
  - destruct (dict_set _ _ _) as [|e0 d]; simpl in *; lia.
  - apply Nat.ltb_ge in E. lia.
Qed.

(** Whether the character [c] occurs in [s]. *)
Fixpoint contains (c : ascii) (s : string) : bool :=
  match s with
  | EmptyString => false
  | String c' r => Ascii.eqb c' c || contains c r
  end.

Lemma contains_app c s1 s2 :
  contains c (s1 +:+ s2) = contains c s1 || contains c s2.
Proof. induction s1 as [|c' s1 IH]; simpl; [done|]. by rewrite IH, orb_assoc. Qed.

Lemma is_digit_not_underscore c : Py.is_digit c = true -> Ascii.eqb c "_" = false.
Proof.
  intros H. destruct (Ascii.eqb_spec c "_") as [->|]; [|done].
  vm_compute in H. discriminate.
Qed.

Lemma is_digit19_not_underscore c : Py.is_digit19 c = true -> Ascii.eqb c "_" = false.
Proof.
  intros H. destruct (Ascii.eqb_spec c "_") as [->|]; [|done].
  vm_compute in H. discriminate.
Qed.

Lemma parse_month_chars s m rest :
  Py.parse_month s = Some (m, rest) ->
  exists pre, s = pre +:+ rest /\ contains "_" pre = false.
Proof.
  destruct s as [|c s]; [done|].
  destruct c as [[] [] [] [] [] [] [] []]; unfold Py.parse_month; cbv beta iota;
    try discriminate.
  all: try (intros [= <- <-]; eexists (String _ EmptyString); split; [reflexivity|reflexivity]).
  all: try (vm_compute; discriminate).
  all: destruct s as [|c2 s2]; cbv beta iota; try discriminate.
  all: try (intros [= <- <-]; eexists (String _ EmptyString); split; [reflexivity|reflexivity]).
  all: try (vm_compute; discriminate).
  - destruct (Py.is_digit c2 && _) eqn:Hd.
    + intros [= <- <-]. exists (String "1" (String c2 EmptyString)). split; [done|].
      apply andb_true_iff in Hd as [Hd _].
      simpl. by rewrite (is_digit_not_underscore _ Hd).
    + intros [= <- <-]. exists (String "1" EmptyString). done.
  - destruct (Py.is_digit19 c2) eqn:Hd; [|discriminate].
    intros [= <- <-]. exists (String "0" (String c2 EmptyString)). split; [done|].
    simpl. by rewrite (is_digit19_not_underscore _ Hd).
Qed.

Lemma parse_day_chars s d rest :
  Py.parse_day s = Some (d, rest) ->
  exists pre, s = pre +:+ rest /\ contains "_" pre = false.
Proof.
  destruct s as [|c s]; [done|].
  destruct c as [[] [] [] [] [] [] [] []]; unfold Py.parse_day; cbv beta iota;
    try discriminate.
  all: try (intros [= <- <-]; eexists (String _ EmptyString); split; [reflexivity|reflexivity]).
  all: try (vm_compute; discriminate).
  all: destruct s as [|c2 s2]; cbv beta iota; try discriminate.
  all: try (intros [= <- <-]; eexists (String _ EmptyString); split; [reflexivity|reflexivity]).
  all: try (vm_compute; discriminate).
  all: match goal with
       | |- (if Py.is_digit19 ?c then Some _ else None) = _ -> _ =>
           destruct (Py.is_digit19 c) eqn:Hd; [|discriminate];
           intros [= <- <-]; eexists (String _ (String c EmptyString));
           split; [reflexivity|];
           simpl; by rewrite (is_digit19_not_underscore _ Hd)
       | |- (if Py.is_digit ?c && ?b then Some _ else Some _) = _ -> _ =>
           destruct (Py.is_digit c) eqn:Hd; destruct b;
           intros [= <- <-];
           first
             [ eexists (String _ (String c EmptyString));
               split; [reflexivity|];
               simpl; by rewrite (is_digit_not_underscore _ Hd)
             | eexists (String _ EmptyString); split; reflexivity ]
       | |- (if Py.is_digit ?c then Some _ else Some _) = _ -> _ =>
           destruct (Py.is_digit c) eqn:Hd;
           [ intros [= <- <-]; eexists (String _ (String c EmptyString));
             split; [reflexivity|];
             simpl; by rewrite (is_digit_not_underscore _ Hd)
           | intros [= <- <-]; eexists (String _ EmptyString);
             split; reflexivity ]
       end.
Qed.

(** A string that [strptime] accepts is made of digits, dashes and at most
    a space: it has no underscore. *)
Lemma strptime_no_underscore s d :
  Py.strptime s = Some d -> contains "_" s = false.
Proof.
  unfold Py.strptime.
  destruct s as [|y1 [|y2 [|y3 [|y4 [|c5 r]]]]]; try discriminate.
  destruct c5 as [[] [] [] [] [] [] [] []]; try discriminate.
  destruct (Py.is_digit y1 && Py.is_digit y2 && Py.is_digit y3 && Py.is_digit y4)
    eqn:Hd; [|discriminate].
  apply andb_true_iff in Hd as [Hd H4].
  apply andb_true_iff in Hd as [Hd H3].
  apply andb_true_iff in Hd as [H1 H2].
  destruct (Py.parse_month r) as [[m rest]|] eqn:Hm; [|discriminate].
  destruct (parse_month_chars _ _ _ Hm) as (pm & -> & Hpm).
  destruct rest as [|c6 r']; [discriminate|].
  destruct c6 as [[] [] [] [] [] [] [] []]; try discriminate.
  destruct (Py.parse_day r') as [[dd rest']|] eqn:Hday; [|discriminate].
  destruct (parse_day_chars _ _ _ Hday) as (pd & -> & Hpd).
  destruct rest'; [|discriminate].
  intros _. simpl.
  rewrite (is_digit_not_underscore _ H1), (is_digit_not_underscore _ H2),
    (is_digit_not_underscore _ H3), (is_digit_not_underscore _ H4).
  simpl. rewrite contains_app, Hpm. simpl.
  by rewrite contains_app, Hpd.
Qed.

Lemma split_prefix s e :
  contains "_" s = false ->
  Py.split "_" (s +:+ String "_" e) = s :: Py.split "_" e.
Proof.
  induction s as [|c s IH]; simpl; [done|].
  intros [Hc Hs]%orb_false_iff. rewrite Hc, (IH Hs). done.
Qed.

Lemma split_whole s :
  contains "_" s = false -> Py.split "_" s = [s].
Proof.
  induction s as [|c s IH]; simpl; [done|].
  intros [Hc Hs]%orb_false_iff. by rewrite Hc, (IH Hs).
Qed.

(** The key built from two dates that parse splits back into them. *)
Lemma parse_range_cache_key start_date end_date cache_start cache_end :
  Py.strptime start_date = Some cache_start ->
  Py.strptime end_date = Some cache_end ->
  parse_range (cache_key start_date end_date) = Some (cache_start, cache_end).
Proof.
  intros Hs He. unfold parse_range, cache_key.
  change ("_" +:+ end_date) with (String "_" end_date).
  rewrite (split_prefix _ _ (strptime_no_underscore _ _ Hs)).
  rewrite (split_whole _ (strptime_no_underscore _ _ He)).
  by rewrite Hs, He.
Qed.

(** Keys are injective on start dates without underscore. *)
Lemma cache_key_inj s1 e1 s2 e2 :
  contains "_" s1 = false -> contains "_" s2 = false ->
  cache_key s1 e1 = cache_key s2 e2 -> s1 = s2 /\ e1 = e2.
Proof.
  unfold cache_key. change ("_" +:+ e1) with (String "_" e1).
  change ("_" +:+ e2) with (String "_" e2).
  revert s2. induction s1 as [|c1 s1 IH]; intros [|c2 s2]; simpl.
  - by intros _ _ [= ->].
  - intros _ [Hc _]%orb_false_iff [= <- _]. by rewrite Ascii.eqb_refl in Hc.
  - intros [Hc _]%orb_false_iff _ [= -> _]. by rewrite Ascii.eqb_refl in Hc.
  - intros [_ H1]%orb_false_iff [_ H2]%orb_false_iff [= -> Heq].
    destruct (IH _ H1 H2 Heq) as [-> ->]. done.
Qed.

Lemma dict_set_Forall {V} (P : string -> Prop) (k : string) (v : V) d :
  P k -> Forall (fun entry => P entry.1) d ->
  Forall (fun entry => P entry.1) (dict_set k v d).
Proof.
  intros Hk. induction 1 as [|[k' v'] d Hx Hd IH]; simpl.
  - by repeat constructor.
  - destruct (String.eqb k' k); by constructor.
Qed.

(** Storing a range under two dates that parse keeps every key of the
    cache well formed. *)
Lemma _cache_events_keys_parse location start_date end_date events
    (event_cache : EventCache) cache_start cache_end l :
  Py.strptime start_date = Some cache_start ->
  Py.strptime end_date = Some cache_end ->
  (forall l, Forall (fun entry => is_Some (parse_range entry.1))
               (ranges_of event_cache l)) ->
  Forall (fun entry => is_Some (parse_range entry.1))
    (ranges_of (_cache_events location start_date end_date events event_cache) l).
Proof.
  intros Hs He H. rewrite _cache_events_ranges. unfold ranges_of at 1.
  rewrite lookup_insert. case_decide; [|apply H]. simpl.
  assert (Forall (fun entry => is_Some (parse_range entry.1))
            (dict_set (cache_key start_date end_date) events
               (ranges_of event_cache location))) as Hset.
  { apply (dict_set_Forall (fun k => is_Some (parse_range k))); [|apply H].
    rewrite (parse_range_cache_key _ _ _ _ Hs He). eauto. }
  unfold evict_oldest. destruct (5 <? length _)%nat; [|done].
  destruct (dict_set _ _ _) as [|e0 d]; [done|].
  simpl. by inversion Hset.
Qed.

(** The entry that an insertion writes, and the entries written for one
    location by a sequence of insertions, in the order of insertion. *)
Definition ins_entry (i : Insertion) : string * list ResearchEvent :=
  (cache_key (ins_start_date i) (ins_end_date i), ins_events i).

Definition entries_at (location : string) (insertions : list Insertion)
    : list (string * list ResearchEvent) :=
  ins_entry <$> filter (fun i => ins_location i = location) insertions.

Lemma insert_all_snoc insertions i event_cache :
  insert_all (insertions ++ [i]) event_cache
  = _cache_events (ins_location i) (ins_start_date i) (ins_end_date i)
      (ins_events i) (insert_all insertions event_cache).
Proof. unfold insert_all. by rewrite foldl_app. Qed.

Lemma entries_at_snoc location insertions i :
  entries_at location (insertions ++ [i])
  = entries_at location insertions
    ++ (if decide (ins_location i = location) then [ins_entry i] else []).
Proof.
  unfold entries_at. rewrite filter_app, fmap_app. f_equal.
  rewrite filter_cons. by destruct (decide (ins_location i = location)).
Qed.

(** Insertions under distinct keys: every location holds the last five
    entries written for it. *)
Lemma insert_all_last_five location insertions :
  NoDup (entries_at location insertions).*1 ->
  ranges_of (insert_all insertions ∅) location
  = drop (length (entries_at location insertions) - 5)
      (entries_at location insertions).
Proof.
  induction insertions as [|i insertions IH] using rev_ind; intros Hnd.
  { unfold ranges_of, insert_all. simpl. by rewrite lookup_empty. }
  rewrite insert_all_snoc, entries_at_snoc in *.
  destruct (decide (ins_location i = location)) as [Hloc|Hloc].
  - rewrite fmap_app in Hnd. apply NoDup_app in Hnd as (Hnd & Hfresh & _).
    specialize (IH Hnd).
    set (stored := entries_at location insertions) in *.
    rewrite _cache_events_ranges, Hloc. unfold ranges_of at 1.
    rewrite lookup_insert_eq. simpl. rewrite IH.
    assert (cache_key (ins_start_date i) (ins_end_date i)
              ∉ (drop (length stored - 5) stored).*1) as Hnew.
    { intros Hin. rewrite fmap_drop in Hin.
      apply (Hfresh (cache_key (ins_start_date i) (ins_end_date i))).
      - eapply subseteq_drop, Hin.
      - simpl. apply list_elem_of_singleton. reflexivity. }
    rewrite (dict_set_fresh _ _ _ Hnew). unfold evict_oldest.
    rewrite !length_app, length_drop. simpl. fold (ins_entry i).
    destruct (decide (length stored < 5)%nat) as [Hlt|Hge].
    + assert ((5 <? length stored - (length stored - 5) + 1)%nat = false) as ->
        by (apply Nat.ltb_ge; lia).
      replace (length stored - 5)%nat with 0%nat by lia.
      replace (length stored + 1 - 5)%nat with 0%nat by lia.
      by rewrite !drop_0.
    + assert ((5 <? length stored - (length stored - 5) + 1)%nat = true) as ->
        by (apply Nat.ltb_lt; lia).
      replace (length stored + 1 - 5)%nat with (S (length stored - 5)) by lia.
      rewrite drop_app_le by lia.
      destruct (drop (length stored - 5) stored) as [|e0 rest] eqn:Hd.
      { apply (f_equal length) in Hd. rewrite length_drop in Hd. simpl in Hd. lia. }
      simpl. f_equal.
      replace (S (length stored - 5)) with (length stored - 5 + 1)%nat by lia.
      by rewrite <- drop_drop, Hd.
  - rewrite app_nil_r in *. rewrite <- (IH Hnd). unfold ranges_of.
    rewrite _cache_events_ranges. by rewrite lookup_insert_ne.
Qed.

(** C7.  Starting from the empty cache, after any sequence of insertions
    every location holds at most 5 stored ranges.  When the ranges inserted
    for a location have distinct keys, the location holds exactly the last
    five of them, in the order of insertion (all of them while there are at
    most five): the sixth insertion leaves five and the earliest-inserted
    is gone.  In one step: inserting, for a location that holds 5 ranges, a
    range whose key is not among them drops the oldest (first inserted)
    and puts the new one last.  Ranges are told apart by their keys, and
    two distinct pairs of dates that parse never share a key. *)
Theorem event_cache_keeps_five_most_recent_ranges :
  (forall (insertions : list Insertion) (location : string),
     (length (ranges_of (insert_all insertions ∅) location) <= 5)%nat)
  /\ (forall (insertions : list Insertion) (location : string),
       NoDup (entries_at location insertions).*1 ->
       let stored := ranges_of (insert_all insertions ∅) location in
       let written := entries_at location insertions in
       stored = drop (length written - 5) written
       /\ length stored = Nat.min (length written) 5
       /\ ((5 < length written)%nat ->
           forall first, head written = Some first -> first ∉ stored))
  /\ (forall (event_cache : EventCache) (location start_date end_date : string)
         (events : list ResearchEvent) (ranges : list (string * list ResearchEvent)),
       event_cache !! location = Some ranges ->
       length ranges = 5%nat ->
       cache_key start_date end_date ∉ ranges.*1 ->
       let stored :=
         ranges_of (_cache_events location start_date end_date events event_cache)
           location in
       stored = tail ranges ++ [(cache_key start_date end_date, events)]
       /\ length stored = 5%nat
       /\ head stored.*1 = ranges.*1 !! 1%nat)
  /\ (forall (start1 end1 start2 end2 : string) (d1 d2 : Py.datetime),
       Py.strptime start1 = Some d1 ->
       Py.strptime start2 = Some d2 ->
       (start1, end1) <> (start2, end2) ->
       cache_key start1 end1 <> cache_key start2 end2).
Proof.
  split; [|split; [|split]].
  - intros insertions. unfold insert_all.
    assert (forall ec, (forall l, (length (ranges_of ec l) <= 5)%nat) ->
              forall l, (length (ranges_of
                (foldl (fun ec i => _cache_events (ins_location i) (ins_start_date i)
                                      (ins_end_date i) (ins_events i) ec)
                       ec insertions) l) <= 5)%nat) as Hgen.
    { induction insertions as [|i rest IH]; intros ec Hec; [done|].
      simpl. apply IH. intros l. by apply _cache_events_bound. }
    apply Hgen. intros l. unfold ranges_of. rewrite lookup_empty. simpl. lia.
  - intros insertions location Hnd. simpl.
    rewrite (insert_all_last_five _ _ Hnd).
    set (written := entries_at location insertions) in *.
    split; [done|split].
    + rewrite length_drop. lia.
    + intros Hlen first Hfirst Hin.
      destruct written as [|e0 rest] eqn:Hw; [done|].
      simpl in Hfirst. injection Hfirst as <-.
      replace (length (e0 :: rest) - 5)%nat with (S (length rest - 5)) in Hin
        by (simpl in *; lia).
      simpl in Hin, Hnd. apply NoDup_cons in Hnd as [Hnew _]. apply Hnew.
      apply list_elem_of_fmap. exists e0. split; [done|].
      eapply subseteq_drop, Hin.
  - intros event_cache location start_date end_date events ranges Hl Hlen Hfresh.
    simpl. rewrite _cache_events_ranges. unfold ranges_of.
    rewrite lookup_insert_eq, Hl. simpl.
    rewrite (dict_set_fresh _ _ _ Hfresh). unfold evict_oldest.
    rewrite length_app, Hlen. simpl.
    destruct ranges as [|r0 [|r1 rest]]; simpl in *; try lia.
    repeat split. rewrite length_app. simpl. lia.
  - intros start1 end1 start2 end2 d1 d2 H1 H2 Hne Heq. apply Hne.
    destruct (cache_key_inj start1 end1 start2 end2) as [-> ->]; try done.
    + by eapply strptime_no_underscore.
    + by eapply strptime_no_underscore.
Qed.

(** Five stored ranges for Austin, January to May 2024. *)
Definition five_ranges : list (string * list ResearchEvent) :=
  [("2024-01-01_2024-01-31", [an_event "Jazz Night" "2024-01-20"]);
   ("2024-02-01_2024-02-29", [an_event "Winter Gala" "2024-02-10"]);
   ("2024-03-01_2024-03-31", [an_event "Spring Fair" "2024-03-15"]);
   ("2024-04-01_2024-04-30", [an_event "Film Week" "2024-04-12"]);
   ("2024-05-01_2024-05-31", [an_event "Food Market" "2024-05-05"])].

(** Six months inserted for Austin, one after the other, with an insertion
    for Dallas in between. *)
Definition six_months : list Insertion :=
  let month (location s e : string) :=
    mkInsertion location s e [an_event "Show" s] in
  [month "Austin" "2024-01-01" "2024-01-31"; month "Austin" "2024-02-01" "2024-02-29";
   month "Austin" "2024-03-01" "2024-03-31"; month "Dallas" "2024-03-01" "2024-03-31";
   month "Austin" "2024-04-01" "2024-04-30"; month "Austin" "2024-05-01" "2024-05-31";
   month "Austin" "2024-06-01" "2024-06-30"].

(** The eviction theorem on the six months (of the six ranges written for
    Austin the last five are stored, January is gone), and when June is
    stored as the sixth range in one step: January is dropped, June comes
    last. *)
Lemma event_cache_keeps_five_most_recent_ranges_witness :
  (let stored := ranges_of (insert_all six_months ∅) "Austin" in
   let written := entries_at "Austin" six_months in
   stored = drop (length written - 5) written
   /\ length stored = Nat.min (length written) 5
   /\ ((5 < length written)%nat ->
       forall first, head written = Some first -> first ∉ stored))
  /\ (let june := [an_event "Open Air" "2024-06-21"] in
      let stored :=
        ranges_of (_cache_events "Austin" "2024-06-01" "2024-06-30" june
                     (<["Austin" := five_ranges]> ∅)) "Austin" in
      stored = tail five_ranges ++ [(cache_key "2024-06-01" "2024-06-30", june)]
      /\ length stored = 5%nat
      /\ head stored.*1 = five_ranges.*1 !! 1%nat).
Proof.
  split.
  - apply (proj1 (proj2 event_cache_keeps_five_most_recent_ranges)
             six_months "Austin").
    apply (bool_decide_unpack _). vm_compute. reflexivity.
  - apply (proj1 (proj2 (proj2 event_cache_keeps_five_most_recent_ranges))
             (<["Austin" := five_ranges]> ∅) "Austin" "2024-06-01" "2024-06-30"
             [an_event "Open Air" "2024-06-21"] five_ranges).
    + reflexivity.
    + reflexivity.
    + simpl. intros Hin.
      repeat (apply elem_of_cons in Hin as [Hin|Hin]; [discriminate Hin|]).
      by apply elem_of_nil in Hin.
Defined.

(** Six distinct ranges inserted for one location into the empty cache:
    five remain, the first one inserted is gone. *)
Example six_insertions_leave_five :
  let month (s e : string) := mkInsertion "Austin" s e [an_event "Show" s] in
  (ranges_of
     (insert_all
        [month "2024-01-01" "2024-01-31"; month "2024-02-01" "2024-02-29";
         month "2024-03-01" "2024-03-31"; month "2024-04-01" "2024-04-30";
         month "2024-05-01" "2024-05-31"; month "2024-06-01" "2024-06-30"] ∅)
     "Austin").*1
  = ["2024-02-01_2024-02-29"; "2024-03-01_2024-03-31"; "2024-04-01_2024-04-30";
     "2024-05-01_2024-05-31"; "2024-06-01_2024-06-30"].
Proof. vm_compute. reflexivity. Qed.

(** The identifiers of a list of events, as a set. *)
Definition identifiers (events : list ResearchEvent) : gset (string * string) :=
  list_to_set (identifier <$> events).

Lemma unique_from_filter (seen extra : gset (string * string)) events :
  unique_from (extra ∪ seen) events
  = filter (fun ev => identifier ev ∉ extra) (unique_from seen events).
Proof.
  revert seen. induction events as [|ev rest IH]; intros seen; simpl; [done|].
  destruct (decide (identifier ev ∈ seen)) as [Hs|Hs].
  - rewrite decide_True by set_solver. apply IH.
  - destruct (decide (identifier ev ∈ extra)) as [He|He].
    + rewrite decide_True by set_solver.
      rewrite filter_cons_False by (intros Hn; by apply Hn).
      rewrite <- IH. f_equal. set_solver.
    + rewrite decide_False by set_solver.
      rewrite filter_cons_True by done.
      rewrite <- IH. do 2 f_equal. set_solver.
Qed.

Lemma unique_from_app (seen : gset (string * string)) cached fresh :
  unique_from seen (cached ++ fresh)
  = unique_from seen cached ++ unique_from (identifiers cached ∪ seen) fresh.
Proof.
  revert seen. induction cached as [|ev rest IH]; intros seen; simpl.
  - f_equal. unfold identifiers. simpl. set_solver.
  - destruct (decide (identifier ev ∈ seen)) as [Hs|Hs].
    + rewrite IH. do 2 f_equal. unfold identifiers. simpl. set_solver.
    + simpl. rewrite IH. do 3 f_equal. unfold identifiers. simpl. set_solver.
Qed.

Lemma unique_from_sublist (seen : gset (string * string)) events :
  sublist (unique_from seen events) events.
Proof.
  revert seen. induction events as [|ev rest IH]; intros seen; simpl; [done|].
  destruct (decide (identifier ev ∈ seen)).
  - apply sublist_cons. apply IH.
  - apply sublist_skip. apply IH.
Qed.

Lemma unique_from_not_seen (seen : gset (string * string)) events ev :
  ev ∈ unique_from seen events -> identifier ev ∉ seen.
Proof.
  revert seen. induction events as [|e rest IH]; intros seen; simpl.
  - intros H. by apply elem_of_nil in H.
  - destruct (decide (identifier e ∈ seen)); [apply IH|].
    intros [->|H]%elem_of_cons; [done|].
    apply IH in H. set_solver.
Qed.

Lemma unique_from_NoDup (seen : gset (string * string)) events :
  NoDup (identifier <$> unique_from seen events).
Proof.
  revert seen. induction events as [|e rest IH]; intros seen; simpl.
  - constructor.
  - destruct (decide (identifier e ∈ seen)); [apply IH|].
    simpl. constructor; [|apply IH].
    intros (ev & Hid & Hev)%list_elem_of_fmap_1.
    apply unique_from_not_seen in Hev. apply Hev.
    apply elem_of_union. left. by apply elem_of_singleton.
Qed.

Lemma unique_from_covers (seen : gset (string * string)) events ev :
  ev ∈ events ->
  identifier ev ∈ seen \/ identifier ev ∈ identifier <$> unique_from seen events.
Proof.
  revert seen. induction events as [|e rest IH]; intros seen; simpl.
  - intros H. by apply elem_of_nil in H.
  - intros [->|H]%elem_of_cons.
    + destruct (decide (identifier e ∈ seen)); [by left|].
      right. simpl. apply elem_of_cons. by left.
    + destruct (decide (identifier e ∈ seen)); [by apply IH|].
      destruct (IH ({[identifier e]} ∪ seen) H) as [Hs|Hs].
      * apply elem_of_union in Hs as [Hs|Hs]; [|by left].
        right. simpl. apply elem_of_cons. left. by apply elem_of_singleton in Hs.
      * right. simpl. apply elem_of_cons. by right.
Qed.

(** [_remove_duplicates] on cached events followed by fresh ones: the
    cached side is deduplicated on its own, and of the fresh side only the
    events whose identifier no cached event has are kept. *)
Lemma _remove_duplicates_app cached fresh :
  _remove_duplicates (cached ++ fresh)
  = _remove_duplicates cached
    ++ filter (fun ev => identifier ev ∉ identifier <$> cached)
         (_remove_duplicates fresh).
Proof.
  unfold _remove_duplicates. rewrite unique_from_app, unique_from_filter.
  f_equal. apply list_filter_iff. intros ev. unfold identifiers.
  by rewrite elem_of_list_to_set.
Qed.

Section RangeCacheFetch.

Variable _get_new_events_serpapi :
  string -> string -> string -> string -> Z -> list ResearchEvent.

(** The fresh events that [discover_events] fetches next to the cached
    ones: none when the cached ones suffice. *)
Definition fresh_events (location start_date end_date : string)
    (categories : list string) (max_results : Z)
    (cached_events : list ResearchEvent) : list ResearchEvent :=
  let needed_new_events :=
    Py.max 0 (max_results - Z.of_nat (length cached_events)) in
  if 0 <? needed_new_events then
    _get_new_events_serpapi location start_date end_date
      (match categories with c :: _ => c | [] => "all" end) needed_new_events
  else [].

Lemma unique_from_first_seen (seen : gset (string * string)) before ev after :
  identifier ev ∉ seen ->
  identifier ev ∉ identifier <$> before ->
  exists rest,
    unique_from seen (before ++ ev :: after)
    = unique_from seen before ++ ev :: rest.
Proof.
  intros Hseen Hbefore. rewrite unique_from_app. simpl.
  destruct (decide (identifier ev ∈ identifiers before ∪ seen)) as [Hin|Hin].
  - exfalso. apply elem_of_union in Hin as [Hin|Hin]; [|done].
    apply Hbefore. unfold identifiers in Hin. by apply elem_of_list_to_set in Hin.
  - eauto.
Qed.

(** C8 (as amended).  When the cache lookup succeeds and [max_results] is
    not negative, [discover_events] returns the first [max_results]
    elements of the cached events followed by the fresh ones, deduplicated
    by the key [(name.lower().strip(), date)] (names in ASCII).  The
    deduplicated list keeps the order of the concatenation; no two of its
    events have the same key, and every key of the concatenation occurs in
    it; the event kept for a key is the first one with that key; so when a
    cached and a fresh event share a key, the cached one is kept and the
    fresh one dropped. *)
Theorem discover_events_deduplicates_and_truncates
    (location start_date end_date : string) (categories : list string)
    (max_results : Z) (event_cache : EventCache) (cached : list ResearchEvent) :
  _get_cached_events event_cache location start_date end_date = Some cached ->
  0 <= max_results ->
  let fresh := fresh_events location start_date end_date categories max_results cached in
  Forall (fun ev => Py.all_ascii (event_name ev) = true) (cached ++ fresh) ->
  let key := fun ev : ResearchEvent =>
               (Py.strip (Py.lower (event_name ev)), exact_date ev) in
  let unique := _remove_duplicates (cached ++ fresh) in
  let result :=
    (discover_events _get_new_events_serpapi location start_date end_date
       categories max_results event_cache).1 in
  result = take (Z.to_nat max_results) unique
  /\ Z.of_nat (length result) <= max_results
  /\ sublist unique (cached ++ fresh)
  /\ NoDup (key <$> unique)
  /\ (forall ev, ev ∈ cached ++ fresh -> key ev ∈ key <$> unique)
  /\ (forall before ev after,
        cached ++ fresh = before ++ ev :: after ->
        key ev ∉ key <$> before ->
        exists rest, unique = _remove_duplicates before ++ ev :: rest)
  /\ unique = _remove_duplicates cached
              ++ filter (fun ev => key ev ∉ key <$> cached)
                   (_remove_duplicates fresh).
Proof.
  intros Hc Hmax fresh _ key unique result.
  assert (result = take (Z.to_nat max_results) unique) as Hres.
  { unfold result, unique, fresh, discover_events, fresh_events, Py.slice_to.
    rewrite Hc. simpl.
    by assert ((0 <=? max_results) = true) as -> by lia. }
  change key with identifier.
  rewrite Hres. repeat split.
  - rewrite length_take. lia.
  - apply unique_from_sublist.
  - apply unique_from_NoDup.
  - intros ev Hev.
    destruct (unique_from_covers ∅ _ ev Hev) as [Hs|Hs]; [|done].
    by apply not_elem_of_empty in Hs.
  - intros before ev after Heq Hnew. unfold unique, _remove_duplicates.
    rewrite Heq. apply unique_from_first_seen; [apply not_elem_of_empty|done].
  - apply _remove_duplicates_app.
Qed.

End RangeCacheFetch.

(** An upstream source that offers the same jazz night under another
    spelling, and a flea market. *)
Definition two_fresh_events (location start_date end_date category : string)
    (max_results : Z) : list ResearchEvent :=
  take (Z.to_nat max_results)
    [an_event "  JAZZ NIGHT " "2024-01-20"; an_event "Flea Market" "2024-01-27"].

(** * Further properties of the code *)

(** ** [TwitterRateLimiter]: permits, resets and upstream headers *)

Section QuotaTrackerMore.

Variable clock : nat -> Z.
Variable fromtimestamp : Z -> option Z.

(** [n] successive calls of [check_rate_limit(endpoint)]: the answers, and
    the state after the last one. *)
Fixpoint checks (endpoint : string) (n : nat) (w : World) : list bool * World :=
  match n with
  | O => ([], w)
  | S k =>
      let r := check_rate_limit clock endpoint w in
      let rest := checks endpoint k r.2 in
      (match r.1 with Ok b => b | Raise _ => false end :: rest.1, rest.2)
  end.

Lemma checks_granted endpoint n w i :
  rate_limits w !! endpoint = Some i ->
  reset_time i = None ->
  remaining i = Z.of_nat n ->
  checks endpoint n w
  = (replicate n true,
     with_rate_limits (<[endpoint := set_remaining 0 i]> (rate_limits w)) w).
Proof.
  revert w i. induction n as [|n IH]; intros w i Hl Hr Hn.
  - simpl. f_equal. destruct w as [c rl ca tl tk inv sl]. simpl in *.
    unfold with_rate_limits. simpl. f_equal. symmetry. apply insert_id.
    rewrite Hl. f_equal. destruct i; simpl in *. by subst.
  - simpl. rewrite (check_rate_limit_tracked _ _ _ _ Hl).
    unfold checked. rewrite Hr.
    assert ((0 <? remaining i) = true) as -> by lia. simpl.
    erewrite (IH _ (set_remaining (remaining i - 1) i)); simpl.
    + f_equal. destruct w as [c rl ca tl tk inv sl]. simpl.
      unfold with_ticks, with_rate_limits. simpl. f_equal.
      by rewrite insert_insert_eq.
    + apply lookup_insert_eq.
    + done.
    + lia.
Qed.

(** X1.  On a tracked endpoint with no reset scheduled and [n] permits
    remaining, exactly the next [n] calls of [check_rate_limit] are granted;
    they read no clock and leave [remaining] at 0.  The call after them is
    denied, keeps [remaining] at 0 and schedules the reset at the clock
    reading plus [window_minutes] minutes. *)
Theorem permits_last_as_long_as_remaining
    (endpoint : string) (n : nat) (w : World) (i : LimitInfo) :
  rate_limits w !! endpoint = Some i ->
  reset_time i = None ->
  remaining i = Z.of_nat n ->
  let after := checks endpoint n w in
  after.1 = replicate n true
  /\ ticks after.2 = ticks w
  /\ rate_limits after.2 !! endpoint = Some (set_remaining 0 i)
  /\ check_rate_limit clock endpoint after.2
     = (Ok false,
        with_ticks (S (ticks w))
          (with_rate_limits
             (<[endpoint :=
                  mkLimitInfo (limit i) 0
                    (Some (clock (ticks w) + window_minutes i * 60))
                    (window_minutes i)]> (rate_limits w)) w)).
Proof.
  intros Hl Hr Hn. simpl. rewrite (checks_granted _ _ _ _ Hl Hr Hn). simpl.
  repeat split.
  - apply lookup_insert_eq.
  - erewrite check_rate_limit_tracked by (simpl; apply lookup_insert_eq).
    unfold checked. simpl. rewrite Hr. simpl. rewrite Hr.
    destruct w as [c rl ca tl tk inv sl]. simpl.
    unfold with_ticks, with_rate_limits. simpl. by rewrite insert_insert_eq.
Qed.

(** X2.  While no permit remains and the scheduled reset has not passed
    (every clock reading is at most [reset_time]), every call of
    [check_rate_limit] is denied and the tracker is left as it was: the
    reset is not postponed and [remaining] does not go below what it was. *)
Theorem denied_checks_keep_the_scheduled_reset
    (endpoint : string) (n : nat) (w : World) (i : LimitInfo) (reset : Z) :
  rate_limits w !! endpoint = Some i ->
  reset_time i = Some reset ->
  remaining i <= 0 ->
  (forall t, clock t <= reset) ->
  let after := checks endpoint n w in
  after.1 = replicate n false
  /\ rate_limits after.2 = rate_limits w.
Proof.
  intros Hl Hr Hrem Hclock. simpl. revert w Hl.
  induction n as [|n IH]; intros w Hl; [done|].
  simpl. rewrite (check_rate_limit_tracked _ _ _ _ Hl).
  unfold checked. rewrite Hr.
  assert ((reset <? clock (ticks w)) = false) as ->
    by (specialize (Hclock (ticks w)); lia).
  assert ((0 <? remaining i) = false) as -> by lia.
  rewrite Hr. simpl.
  assert (<[endpoint := i]> (rate_limits w) = rate_limits w) as Hid
    by (by apply insert_id).
  rewrite Hid.
  destruct (IH (with_ticks (S (ticks w)) (with_rate_limits (rate_limits w) w)))
    as [H1 H2]; [done|].
  rewrite H1, H2. done.
Qed.

(** X3.  An endpoint that the tracker does not know is never restricted:
    whatever sequence of checks and header updates is run on it, the state
    is untouched (and every check is permitted, the wait hint being 0). *)
Theorem untracked_endpoint_is_never_restricted
    (endpoint : string) (ops : list QuotaOp) (w : World) :
  rate_limits w !! endpoint = None ->
  Forall (fun op => match op with
                    | CheckAndConsume e => e = endpoint
                    | UpdateFromUpstream e _ => e = endpoint
                    end) ops ->
  run_ops clock fromtimestamp ops w = w
  /\ check_rate_limit clock endpoint w = (Ok true, w)
  /\ get_wait_time clock endpoint w = (Ok 0, w).
Proof.
  intros Hl Hops. repeat split.
  - induction Hops as [|op ops Hop _ IH]; [done|].
    simpl. destruct op as [e|e headers]; subst e; simpl.
    + unfold mbind, M_bind. rewrite (check_rate_limit_untracked _ _ _ Hl).
      simpl. exact IH.
    + unfold try_except, update_from_headers. munfold. rewrite Hl. simpl.
      exact IH.
  - by apply check_rate_limit_untracked.
  - unfold get_wait_time. munfold. by rewrite Hl.
Qed.

(** X4.  The wait hint is enough only when exceeded: for a tracked endpoint
    with [limit > 0] and a reset scheduled, if more than the hinted
    [get_wait_time] seconds pass between the hint and the next check, that
    check is granted (it resets [remaining] to [limit] first). *)
Theorem check_after_the_hinted_wait_is_granted
    (endpoint : string) (w : World) (i : LimitInfo) (reset : Z) :
  rate_limits w !! endpoint = Some i ->
  reset_time i = Some reset ->
  0 < limit i ->
  let hint := get_wait_time clock endpoint w in
  hint.1 = Ok (Z.max (reset - clock (ticks w)) 0)
  /\ (clock (S (ticks w)) - clock (ticks w) > Z.max (reset - clock (ticks w)) 0 ->
      (check_rate_limit clock endpoint hint.2).1 = Ok true
      /\ rate_limits (check_rate_limit clock endpoint hint.2).2 !! endpoint
         = Some (mkLimitInfo (limit i) (limit i - 1) None (window_minutes i))).
Proof.
  intros Hl Hr Hlim. simpl.
  assert (get_wait_time clock endpoint w
          = (Ok (Z.max (reset - clock (ticks w)) 0), with_ticks (S (ticks w)) w))
    as Hhint.
  { unfold get_wait_time, now. munfold. rewrite Hl, Hr. done. }
  rewrite Hhint. simpl. split; [done|]. intros Hwait.
  erewrite check_rate_limit_tracked by (simpl; exact Hl).
  unfold checked. simpl. rewrite Hr.
  assert ((reset <? clock (S (ticks w))) = true) as -> by lia. simpl.
  assert ((0 <? limit i) = true) as -> by lia. simpl.
  split; [done|]. apply lookup_insert_eq.
Qed.

Lemma update_reset_time_present endpoint headers w value t i :
  headers !! "x-rate-limit-reset" = Some value -> Py.int value = Some t ->
  rate_limits w !! endpoint = Some i ->
  update_reset_time fromtimestamp endpoint headers w =
    match fromtimestamp t with
    | Some reset =>
        (Ok tt,
         with_rate_limits
           (<[endpoint := set_reset_time (Some reset) i]> (rate_limits w)) w)
    | None => (Raise OtherException, w)
    end.
Proof.
  intros H Hi Hl.
  unfold update_reset_time, int_header, reset_datetime, store_limit_info.
  rewrite H. munfold. rewrite Hi.
  destruct (fromtimestamp t); [|done]. by rewrite Hl.
Qed.

(** X5.  Upstream wins: when the three rate-limit headers are present and
    are integers, the entry of the endpoint afterwards holds the limit and
    the remaining count of the headers (its window is kept; no other entry
    is touched).  When [datetime.fromtimestamp] converts the reset
    timestamp, [update_from_headers] does not raise and the entry holds the
    converted reset time as well; when it raises (a timestamp outside the
    range of the platform), [update_from_headers] raises after limit and
    remaining were stored, and the reset time stays what it was. *)
Theorem update_from_headers_overwrites_the_entry
    (endpoint : string) (headers : gmap string string) (w : World)
    (i : LimitInfo) (sl sr st : string) (l r t : Z) :
  rate_limits w !! endpoint = Some i ->
  headers !! "x-rate-limit-limit" = Some sl -> Py.int sl = Some l ->
  headers !! "x-rate-limit-remaining" = Some sr -> Py.int sr = Some r ->
  headers !! "x-rate-limit-reset" = Some st -> Py.int st = Some t ->
  (forall reset, fromtimestamp t = Some reset ->
     update_from_headers fromtimestamp endpoint headers w
     = (Ok tt,
        with_rate_limits
          (<[endpoint := mkLimitInfo l r (Some reset) (window_minutes i)]>
             (rate_limits w)) w))
  /\ (fromtimestamp t = None ->
      update_from_headers fromtimestamp endpoint headers w
      = (Raise OtherException,
         with_rate_limits
           (<[endpoint := mkLimitInfo l r (reset_time i) (window_minutes i)]>
              (rate_limits w)) w)).
Proof.
  intros Hl Hsl Hl' Hsr Hr' Hst Ht'.
  assert (update_from_headers fromtimestamp endpoint headers w
          = update_reset_time fromtimestamp endpoint headers
              (with_rate_limits
                 (<[endpoint := set_remaining r (set_limit l i)]> (rate_limits w)) w))
    as ->.
  { unfold update_from_headers.
    erewrite bind_ok; [|reflexivity]. rewrite Hl.
    erewrite bind_ok; [|by eapply update_field_present].
    erewrite bind_ok;
      [|eapply update_field_present;
        [exact Hsr|exact Hr'|simpl; apply lookup_insert_eq]].
    f_equal. destruct w as [c rl ca tl tk inv sl']. simpl.
    unfold with_rate_limits. simpl. f_equal. by rewrite insert_insert_eq. }
  erewrite update_reset_time_present;
    [|exact Hst|exact Ht'|simpl; apply lookup_insert_eq].
  split.
  - intros reset ->. f_equal. destruct w as [c rl ca tl tk inv sl']. simpl.
    unfold with_rate_limits. simpl. f_equal. by rewrite insert_insert_eq.
  - intros ->. reflexivity.
Qed.

(** X6.  The update is not atomic: when the limit header is an integer but
    the remaining header is not, [update_from_headers] raises after it has
    stored the new limit; [remaining] and [reset_time] keep their values. *)
Theorem update_from_headers_stops_at_a_malformed_header
    (endpoint : string) (headers : gmap string string) (w : World)
    (i : LimitInfo) (sl sr : string) (l : Z) :
  rate_limits w !! endpoint = Some i ->
  headers !! "x-rate-limit-limit" = Some sl -> Py.int sl = Some l ->
  headers !! "x-rate-limit-remaining" = Some sr -> Py.int sr = None ->
  update_from_headers fromtimestamp endpoint headers w
  = (Raise OtherException,
     with_rate_limits (<[endpoint := set_limit l i]> (rate_limits w)) w).
Proof.
  intros Hl Hsl Hl' Hsr Hr'. unfold update_from_headers.
  erewrite bind_ok; [|reflexivity]. rewrite Hl.
  erewrite bind_ok; [|by eapply update_field_present].
  erewrite bind_raise; [done|].
  by eapply update_field_unparsable.
Qed.

End QuotaTrackerMore.

(** The fresh tracker grants its 450 search permits. *)
Lemma permits_last_as_long_as_remaining_witness :
  (checks (fun _ => 0) "search_recent" 450 (new_twitter_client None)).1
  = replicate 450 true.
Proof.
  refine (proj1 (permits_last_as_long_as_remaining (fun _ => 0) "search_recent"
                   450 (new_twitter_client None) (mkLimitInfo 450 450 None 15)
                   _ _ _)); reflexivity.
Defined.

(** Three checks at second 900 on the used-up tracker whose reset is due at
    second 1000. *)
Lemma denied_checks_keep_the_scheduled_reset_witness :
  (checks (fun _ => 900) "search_recent" 3 exhausted_world).1
  = replicate 3 false
  /\ rate_limits (checks (fun _ => 900) "search_recent" 3 exhausted_world).2
     = rate_limits exhausted_world.
Proof.
  apply (denied_checks_keep_the_scheduled_reset (fun _ => 900) "search_recent" 3
           exhausted_world (mkLimitInfo 450 0 (Some 1000) 15) 1000).
  - reflexivity.
  - reflexivity.
  - simpl. lia.
  - intros t. lia.
Defined.

(** An endpoint named "lists" is not tracked by the fresh tracker. *)
Lemma untracked_endpoint_is_never_restricted_witness :
  run_ops (fun _ => 0) (fun t => Some t)
    [CheckAndConsume "lists";
     UpdateFromUpstream "lists" (<["x-rate-limit-remaining" := "0"]> ∅);
     CheckAndConsume "lists"] (new_twitter_client None)
  = new_twitter_client None.
Proof.
  refine (proj1 (untracked_endpoint_is_never_restricted (fun _ => 0) (fun t => Some t) "lists" _
                   (new_twitter_client None) _ _)).
  - reflexivity.
  - repeat (apply Forall_cons_2; [reflexivity|]). apply Forall_nil_2.
Defined.

(** The hint at second 900 is 100 seconds; the check at second 1001 is
    granted. *)
Lemma check_after_the_hinted_wait_is_granted_witness :
  let clock := fun t => match t with O => 900 | S _ => 1001 end in
  (check_rate_limit clock "search_recent"
     (get_wait_time clock "search_recent" exhausted_world).2).1 = Ok true.
Proof.
  refine (proj1 (proj2 (check_after_the_hinted_wait_is_granted
                          (fun t => match t with O => 900 | S _ => 1001 end)
                          "search_recent" exhausted_world
                          (mkLimitInfo 450 0 (Some 1000) 15) 1000 _ _ _) _)).
  - reflexivity.
  - reflexivity.
  - simpl. lia.
  - simpl. lia.
Defined.

Definition full_headers : gmap string string :=
  <["x-rate-limit-limit" := "300"]>
    (<["x-rate-limit-remaining" := "299"]>
       (<["x-rate-limit-reset" := "1700000000"]> ∅)).

(** [datetime.fromtimestamp] on a platform that converts the timestamps of
    the years 1 to 9999 and whose local time is UTC. *)
Definition utc_fromtimestamp (t : Z) : option Z :=
  if (-62135596800 <=? t) && (t <=? 253402300799) then Some t else None.

(** The same headers with the reset time given in milliseconds. *)
Definition millisecond_headers : gmap string string :=
  <["x-rate-limit-reset" := "1700000000000"]> full_headers.

Lemma update_from_headers_overwrites_the_entry_witness :
  update_from_headers utc_fromtimestamp "search_recent" full_headers
    (new_twitter_client None)
  = (Ok tt,
     with_rate_limits
       (<["search_recent" := mkLimitInfo 300 299 (Some 1700000000) 15]>
          (rate_limits (new_twitter_client None)))
       (new_twitter_client None))
  /\ update_from_headers utc_fromtimestamp "search_recent" millisecond_headers
       (new_twitter_client None)
     = (Raise OtherException,
        with_rate_limits
          (<["search_recent" := mkLimitInfo 300 299 None 15]>
             (rate_limits (new_twitter_client None)))
          (new_twitter_client None)).
Proof.
  split.
  - apply (update_from_headers_overwrites_the_entry utc_fromtimestamp
             "search_recent" full_headers (new_twitter_client None)
             (mkLimitInfo 450 450 None 15) "300" "299" "1700000000"
             300 299 1700000000); reflexivity.
  - apply (update_from_headers_overwrites_the_entry utc_fromtimestamp
             "search_recent" millisecond_headers (new_twitter_client None)
             (mkLimitInfo 450 450 None 15) "300" "299" "1700000000000"
             300 299 1700000000000); reflexivity.
Defined.

Lemma update_from_headers_stops_at_a_malformed_header_witness :
  update_from_headers (fun t => Some t) "search_recent"
    (<["x-rate-limit-limit" := "300"]> (<["x-rate-limit-remaining" := "n/a"]> ∅))
    (new_twitter_client None)
  = (Raise OtherException,
     with_rate_limits
       (<["search_recent" := set_limit 300 (mkLimitInfo 450 450 None 15)]>
          (rate_limits (new_twitter_client None)))
       (new_twitter_client None)).
Proof.
  apply (update_from_headers_stops_at_a_malformed_header (fun t => Some t)
           "search_recent" _
           (new_twitter_client None) (mkLimitInfo 450 450 None 15)
           "300" "n/a" 300); reflexivity.
Defined.

(** ** [APICache]: expiry, round trip, sweep *)

Section ResponseCacheMore.

Variable clock : nat -> Z.

(** X7.  [get] on a stored key reads the clock once and answers by age:
    the value when [now - timestamp < ttl]; otherwise [None], and the entry
    is deleted, so that a later [get] finds nothing, whatever the clock
    says.  No other key is touched. *)
Theorem cache_get_answers_by_age
    (key : string) (data : Response) (timestamp : Z) (w : World) :
  cache w !! key = Some (data, timestamp) ->
  (clock (ticks w) - timestamp < ttl w ->
     cache_get clock key w = (Ok (Some data), with_ticks (S (ticks w)) w))
  /\ (ttl w <= clock (ticks w) - timestamp ->
     let r := cache_get clock key w in
     r = (Ok None, with_cache (delete key (cache w)) (with_ticks (S (ticks w)) w))
     /\ cache_get clock key r.2 = (Ok None, r.2)
     /\ forall k, k <> key -> cache r.2 !! k = cache w !! k).
Proof.
  intros Hc. split.
  - intros Hlt. unfold cache_get, now. munfold. rewrite Hc. simpl.
    by assert ((clock (ticks w) - timestamp <? ttl w) = true) as -> by lia.
  - intros Hge. simpl.
    assert (cache_get clock key w
            = (Ok None, with_cache (delete key (cache w)) (with_ticks (S (ticks w)) w)))
      as Hget.
    { unfold cache_get, now. munfold. rewrite Hc. simpl.
      by assert ((clock (ticks w) - timestamp <? ttl w) = false) as -> by lia. }
    rewrite Hget. simpl. repeat split.
    + unfold cache_get. munfold. simpl. by rewrite lookup_delete_eq.
    + intros k Hk. by apply lookup_delete_ne.
Qed.

(** X8.  Round trip: after [set(key, value)], whatever the cache held for
    the key before, [get(key)] gives [value] back when less than [ttl]
    seconds passed between the two clock readings, and [None] otherwise. *)
Theorem cache_set_then_get (key : string) (value : Response) (w : World) :
  let stored := cache_set clock key value w in
  stored.1 = Ok tt
  /\ cache stored.2 !! key = Some (value, clock (ticks w))
  /\ (clock (S (ticks w)) - clock (ticks w) < ttl w ->
      (cache_get clock key stored.2).1 = Ok (Some value))
  /\ (ttl w <= clock (S (ticks w)) - clock (ticks w) ->
      (cache_get clock key stored.2).1 = Ok None).
Proof.
  simpl. unfold cache_set, cache_get, now. munfold. simpl.
  rewrite lookup_insert_eq. simpl. repeat split.
  - intros Hlt.
    by assert ((clock (S (ticks w)) - clock (ticks w) <? ttl w) = true) as -> by lia.
  - intros Hge.
    by assert ((clock (S (ticks w)) - clock (ticks w) <? ttl w) = false) as -> by lia.
Qed.

(** X9.  [clear_expired] removes exactly the expired entries: afterwards a
    key holds what it held before if its age is below [ttl] at the sweep,
    and nothing otherwise.  Sweeping again at the same clock reading
    changes nothing more. *)
Theorem clear_expired_removes_exactly_the_expired (w : World) :
  let swept := (clear_expired clock w).2 in
  (forall key data timestamp,
     cache swept !! key = Some (data, timestamp) <->
     cache w !! key = Some (data, timestamp)
     /\ clock (ticks w) - timestamp < ttl w)
  /\ (clock (S (ticks w)) = clock (ticks w) ->
      cache (clear_expired clock swept).2 = cache swept).
Proof.
  simpl. unfold clear_expired, now. munfold. simpl. split.
  - intros key data timestamp. rewrite map_lookup_filter_Some. simpl.
    split; intros [H1 H2]; (split; [done|lia]).
  - intros Heq. rewrite Heq. apply map_eq. intros k.
    apply option_eq. intros [d ts].
    rewrite !map_lookup_filter_Some. simpl. naive_solver.
Qed.

End ResponseCacheMore.

Lemma cache_get_answers_by_age_witness :
  cache_get (fun _ => 500) "search_7" (cached_world setup_default_limits)
  = (Ok (Some a_response), with_ticks 1 (cached_world setup_default_limits)).
Proof.
  refine (proj1 (cache_get_answers_by_age (fun _ => 500) "search_7" a_response 0
                   (cached_world setup_default_limits) _) _).
  - reflexivity.
  - simpl. lia.
Defined.

Lemma cache_set_then_get_witness :
  let clock := fun t => Z.of_nat t * 60 in
  (cache_get clock "search_7"
     (cache_set clock "search_7" a_response (new_twitter_client None)).2).1
  = Ok (Some a_response).
Proof.
  refine (proj1 (proj2 (proj2 (cache_set_then_get (fun t => Z.of_nat t * 60)
                                 "search_7" a_response (new_twitter_client None)))) _).
  simpl. lia.
Defined.

Lemma clear_expired_removes_exactly_the_expired_witness :
  cache (clear_expired (fun _ => 2000)
           (clear_expired (fun _ => 2000) (cached_world setup_default_limits)).2).2
  = cache (clear_expired (fun _ => 2000) (cached_world setup_default_limits)).2.
Proof.
  refine (proj2 (clear_expired_removes_exactly_the_expired (fun _ => 2000)
                   (cached_world setup_default_limits)) _).
  reflexivity.
Defined.

(** ** [TwitterClient]: what a guarded call returns, caches and retries *)

(** No cached response can be served for the call: another endpoint than
    ['search_recent'], a falsy query, or a derived key that the cache does
    not hold. *)
Definition no_cached_response (hash : string -> Z) (endpoint : string)
    (call : Call) (w : World) : Prop :=
  endpoint <> "search_recent"
  \/ truthy (query_of call) = false
  \/ exists key, derived_key hash call = Some key /\ cache w !! key = None.

Section GuardedCallerMore.

Variable clock : nat -> Z.
Variable hash : string -> Z.
Variable fromtimestamp : Z -> option Z.

Lemma no_cached_response_lookup endpoint call w :
  no_cached_response hash endpoint call w ->
  exists k, cache_lookup clock hash endpoint call w = (Ok (k, None), w)
            /\ (k = None \/ derived_key hash call = k).
Proof.
  unfold no_cached_response, cache_lookup.
  intros [Hne|[Hq|(key & Hkey & Hc)]].
  - apply String.eqb_neq in Hne. rewrite Hne. eauto.
  - destruct (String.eqb endpoint "search_recent"); [|eauto].
    rewrite Hq. eauto.
  - destruct (String.eqb endpoint "search_recent") eqn:He; [|eauto].
    apply String.eqb_eq in He. subst endpoint.
    exists (Some key). rewrite (cache_lookup_derived clock hash _ _ _ Hkey).
    rewrite (bind_ok _ _ _ _ _ (cache_get_absent clock _ _ Hc)). auto.
Qed.

Lemma attempts_returns endpoint request_func call range w :
  exists r, (attempts clock hash fromtimestamp endpoint request_func call range w).1 = Ok r.
Proof.
  revert w. induction range as [|attempt rest IH]; intros w; simpl; [eauto|].
  destruct (attempt_body_returns clock hash fromtimestamp endpoint request_func call attempt w)
    as [step Hstep].
  destruct (attempt_body clock hash fromtimestamp endpoint request_func call attempt w)
    as [rb w1] eqn:Eb.
  simpl in Hstep. subst rb. rewrite (bind_ok _ _ _ _ _ Eb).
  destruct step as [r|]; [eauto|apply IH].
Qed.

(** X10.  The guarded caller never raises: whatever the request function
    does (return, raise any exception) and whatever the headers of its
    responses, [make_request_with_retry] and [search_recent_tweets_safe]
    return a response or [None]. *)
Theorem guarded_calls_never_raise
    (endpoint : string) (request_func : RequestFunc) (call : Call)
    (query : string) (max_results : Z) (kwargs : gmap string PyVal) (w : World) :
  (exists r, (make_request_with_retry clock hash fromtimestamp endpoint request_func call w).1 = Ok r)
  /\ (exists r, (search_recent_tweets_safe clock hash fromtimestamp query max_results kwargs w).1 = Ok r).
Proof.
  split.
  - apply attempts_returns.
  - unfold search_recent_tweets_safe, try_except.
    erewrite bind_ok; [|reflexivity].
    destruct (client w) as [cl|]; [|simpl; eauto].
    destruct (colliding_keywords kwargs); [simpl; eauto|].
    destruct (attempts_returns "search_recent" (search_recent_tweets cl)
                (mkCall [] (<["query" := VStr query]>
                   (<["max_results" := VInt (Py.max 10 (Py.min max_results 100))]> kwargs)))
                (seqZ 0 (max_retries + 1)) w) as [r Hr].
    unfold make_request_with_retry.
    destruct (attempts _ _ _ _ _ _ _ w) as [res w1]. simpl in Hr. subst res. eauto.
Qed.

Lemma attempt_try_unchanged_cache endpoint request_func call :
  endpoint <> "search_recent" ->
  unchanged cache (attempt_try clock hash fromtimestamp endpoint request_func call).
Proof.
  intros Hne w. unfold attempt_try, cache_lookup.
  apply String.eqb_neq in Hne. rewrite Hne.
  erewrite bind_ok; [|reflexivity]. simpl.
  assert (unchanged cache
            (invoke request_func call ≫= fun response =>
               match response with
               | Some r =>
                   match resp_headers r with
                   | Some headers => update_from_headers fromtimestamp endpoint headers
                   | None => mret tt
                   end
               | None => mret tt
               end ≫= fun _ => mret tt ≫= fun _ => mret (Return response)))
    as H; [|apply H].
  apply unchanged_bind.
  { intros w0. unfold invoke. by destruct (request_func _ call). }
  intros response. apply unchanged_bind.
  { destruct response as [r|]; [|apply unchanged_ret].
    destruct (resp_headers r); [|apply unchanged_ret].
    by apply update_from_headers_unchanged. }
  intros _. frame.
Qed.

(** X11.  The response cache serves searches only: a call to any endpoint
    other than ['search_recent'] leaves the cache exactly as it was, whatever
    the request function returns. *)
Theorem other_endpoints_never_touch_the_cache
    (endpoint : string) (request_func : RequestFunc) (call : Call) (w : World) :
  endpoint <> "search_recent" ->
  cache (make_request_with_retry clock hash fromtimestamp endpoint request_func call w).2
  = cache w.
Proof.
  intros Hne. unfold make_request_with_retry.
  generalize (seqZ 0 (max_retries + 1)). intros range. revert w.
  induction range as [|attempt rest IH]; intros w; [done|].
  simpl.
  assert (unchanged cache (attempt_body clock hash fromtimestamp endpoint request_func call attempt))
    as Hbody.
  { unfold attempt_body. apply unchanged_bind.
    { by apply quota_gate_unchanged. }
    intros _. apply unchanged_try; [by apply attempt_try_unchanged_cache|].
    intros e. by apply attempt_except_unchanged. }
  specialize (Hbody w). unfold mbind, M_bind.
  destruct (attempt_body clock hash fromtimestamp endpoint request_func call attempt w)
    as [[[r|]|e] w1]; simpl in *; try done.
  by rewrite IH.
Qed.

End GuardedCallerMore.

Lemma other_endpoints_never_touch_the_cache_witness :
  cache (make_request_with_retry (fun _ => 0) (fun _ => 7) (fun t => Some t) "users"
           (fun _ _ => Returns (Some a_response)) jazz_call
           (cached_world setup_default_limits)).2
  = cache (cached_world setup_default_limits).
Proof.
  apply (other_endpoints_never_touch_the_cache (fun _ => 0) (fun _ => 7) (fun t => Some t) "users"
           (fun _ _ => Returns (Some a_response)) jazz_call
           (cached_world setup_default_limits)).
  discriminate.
Defined.

Section GuardedCallerPaths.

Variable clock : nat -> Z.
Variable hash : string -> Z.
Variable fromtimestamp : Z -> option Z.

Lemma invoke_unchanged {B} (proj : World -> B) request_func call :
  (forall l w, proj (with_invocations l w) = proj w) ->
  unchanged proj (invoke request_func call).
Proof.
  intros Hi w. unfold invoke.
  destruct (request_func (length (invocations w)) call); simpl; apply Hi.
Qed.

(** An attempt changes nothing but the quota tracker, the cache, the clock
    readings and the two logs. *)
Lemma attempt_body_unchanged {B} (proj : World -> B)
    endpoint request_func call attempt :
  (forall n w, proj (with_ticks n w) = proj w) ->
  (forall rl w, proj (with_rate_limits rl w) = proj w) ->
  (forall c w, proj (with_cache c w) = proj w) ->
  (forall l w, proj (with_invocations l w) = proj w) ->
  (forall l w, proj (with_sleeps l w) = proj w) ->
  unchanged proj (attempt_body clock hash fromtimestamp endpoint request_func call attempt).
Proof.
  intros Ht Hr Hc Hi Hs. unfold attempt_body.
  apply unchanged_bind; [by apply quota_gate_unchanged|].
  intros _. apply unchanged_try; [|intros; by apply attempt_except_unchanged].
  unfold attempt_try. apply unchanged_bind; [by apply cache_lookup_unchanged|].
  intros lookup. simpl.
  destruct (match lookup.2 with
            | Some c => if resp_truthy c then Some c else None
            | None => None
            end); [apply unchanged_ret|].
  apply unchanged_bind; [by apply invoke_unchanged|].
  intros resp. apply unchanged_bind.
  { destruct resp as [r0|]; [|apply unchanged_ret].
    destruct (resp_headers r0); [|apply unchanged_ret].
    by apply update_from_headers_unchanged. }
  intros _. apply unchanged_bind; [|intros; apply unchanged_ret].
  destruct lookup.1; [|apply unchanged_ret].
  destruct resp as [r0|]; [|apply unchanged_ret].
  destruct (resp_truthy r0); [|apply unchanged_ret].
  by apply cache_set_unchanged.
Qed.

(** The state in which the [try] block of an attempt starts. *)
Definition gated (endpoint : string) (w : World) : World :=
  (quota_gate clock endpoint w).2.

Lemma quota_gate_gated endpoint w :
  quota_gate clock endpoint w = (Ok tt, gated endpoint w).
Proof.
  unfold gated. destruct (quota_gate_spec clock endpoint w) as (Hg & _).
  simpl in Hg. destruct (quota_gate clock endpoint w) as [r w1].
  simpl in *. by subst r.
Qed.

Lemma gated_invocations endpoint w :
  invocations (gated endpoint w) = invocations w.
Proof. by apply quota_gate_unchanged. Qed.

Lemma gated_cache endpoint w : cache (gated endpoint w) = cache w.
Proof. by apply quota_gate_unchanged. Qed.

Lemma gated_ttl endpoint w : ttl (gated endpoint w) = ttl w.
Proof. by apply quota_gate_unchanged. Qed.

Lemma gated_backoffs endpoint w :
  backoffs (sleeps (gated endpoint w)) = backoffs (sleeps w).
Proof. apply (quota_gate_spec clock endpoint w). Qed.

Lemma gated_rate_limits endpoint w :
  rate_limits (gated endpoint w)
  = rate_limits (check_rate_limit clock endpoint w).2.
Proof. apply (quota_gate_spec clock endpoint w). Qed.

Lemma no_cached_response_same_cache endpoint call w w1 :
  cache w1 = cache w ->
  no_cached_response hash endpoint call w ->
  no_cached_response hash endpoint call w1.
Proof.
  intros Hc [H|[H|(key & Hk & Hn)]]; [by left|by right; left|].
  right. right. exists key. by rewrite Hc.
Qed.

Lemma attempts_cons endpoint request_func call attempt rest w :
  attempts clock hash fromtimestamp endpoint request_func call (attempt :: rest) w
  = (attempt_body clock hash fromtimestamp endpoint request_func call attempt ≫= fun step =>
       match step with
       | Return r => mret r
       | Continue => attempts clock hash fromtimestamp endpoint request_func call rest
       end) w.
Proof. done. Qed.

(** An attempt that finds no cached response and whose invocation raises
    goes to the [except] clauses, the invocation being logged. *)
Lemma attempt_body_raises endpoint request_func call attempt w e :
  no_cached_response hash endpoint call w ->
  request_func (length (invocations w)) call = Raises e ->
  attempt_body clock hash fromtimestamp endpoint request_func call attempt w
  = attempt_except attempt e
      (with_invocations (invocations w ++ [call]) (gated endpoint w)).
Proof.
  intros Hmiss Hrf. unfold attempt_body.
  rewrite (bind_ok _ _ _ _ _ (quota_gate_gated endpoint w)).
  destruct (no_cached_response_lookup clock hash endpoint call (gated endpoint w))
    as (k & Hl & _).
  { eapply no_cached_response_same_cache; [apply gated_cache|done]. }
  apply try_raise. unfold attempt_try.
  rewrite (bind_ok _ _ _ _ _ Hl). simpl.
  apply bind_raise. unfold invoke.
  rewrite gated_invocations, Hrf. done.
Qed.

(** An attempt that finds no cached response and whose invocation returns
    a response without headers returns it, after storing it in the cache
    when a key was derived and the response is truthy. *)
Lemma attempt_body_returns_response endpoint request_func call attempt w resp :
  no_cached_response hash endpoint call w ->
  request_func (length (invocations w)) call = Returns resp ->
  (forall r, resp = Some r -> resp_headers r = None) ->
  exists w1,
    attempt_body clock hash fromtimestamp endpoint request_func call attempt w
    = (Ok (Return resp), w1)
    /\ invocations w1 = invocations w ++ [call]
    /\ sleeps w1 = sleeps (gated endpoint w)
    /\ rate_limits w1 = rate_limits (gated endpoint w)
    /\ forall key r,
         endpoint = "search_recent" ->
         derived_key hash call = Some key -> resp = Some r ->
         resp_truthy r = true ->
         cache w1 = <[key := (r, clock (ticks (gated endpoint w)))]> (cache w).
Proof.
  intros Hmiss Hrf Hh.
  destruct (no_cached_response_lookup clock hash endpoint call (gated endpoint w))
    as (k & Hl & Hk).
  { eapply no_cached_response_same_cache; [apply gated_cache|done]. }
  assert (k = None -> endpoint = "search_recent" -> derived_key hash call = None)
    as Hnokey.
  { intros -> ->. unfold cache_lookup in Hl. simpl in Hl. unfold derived_key.
    destruct (truthy (query_of call)); [|done].
    destruct (query_of call); try done;
      unfold py_hash, cache_get in Hl; munfold; simpl in Hl;
      destruct (cache _ !! _) as [[d ts]|]; simpl in Hl;
      try destruct (_ <? _); simpl in Hl; congruence. }
  pose proof (gated_invocations endpoint w) as Hgi.
  pose proof (gated_cache endpoint w) as Hgc.
  set (g := gated endpoint w) in *.
  assert (invoke request_func call g
          = (Ok resp, with_invocations (invocations w ++ [call]) g)) as Hinv.
  { unfold invoke. by rewrite Hgi, Hrf. }
  assert (exists w1,
            attempt_try clock hash fromtimestamp endpoint request_func call g
            = (Ok (Return resp), w1)
            /\ invocations w1 = invocations w ++ [call]
            /\ sleeps w1 = sleeps g
            /\ rate_limits w1 = rate_limits g
            /\ forall key r,
                 endpoint = "search_recent" ->
                 derived_key hash call = Some key -> resp = Some r ->
                 resp_truthy r = true ->
                 cache w1 = <[key := (r, clock (ticks g))]> (cache w)) as Htry.
  { unfold attempt_try. rewrite (bind_ok _ _ _ _ _ Hl). simpl.
    rewrite (bind_ok _ _ _ _ _ Hinv).
    destruct resp as [r|]; simpl.
    - rewrite (Hh r eq_refl).
      destruct k as [key|]; [destruct (resp_truthy r) eqn:Ht|].
      + eexists. split.
        { unfold cache_set, now. munfold. simpl. reflexivity. }
        simpl. repeat split.
        intros key' r' -> Hkey [= <-] _.
        destruct Hk as [Hk|Hk]; [done|]. rewrite Hkey in Hk.
        injection Hk as ->. by rewrite Hgc.
      + eexists. split; [munfold; simpl; reflexivity|].
        simpl. repeat split. intros key' r' _ _ [= <-] Ht'. congruence.
      + eexists. split; [munfold; simpl; reflexivity|].
        simpl. repeat split. intros key' r' He Hkey _ _.
        rewrite (Hnokey eq_refl He) in Hkey. done.
    - eexists. split; [destruct k; munfold; simpl; reflexivity|].
      simpl. repeat split. intros key r _ _ [=]. }
  destruct Htry as (w1 & Htry & Hrest).
  exists w1. split; [|exact Hrest].
  unfold attempt_body.
  rewrite (bind_ok _ _ _ _ _ (quota_gate_gated endpoint w)).
  by apply try_ok.
Qed.

(** A cached, unexpired, truthy response is returned without invocation. *)
Lemma make_request_hit request_func call w key data timestamp :
  derived_key hash call = Some key ->
  cache w !! key = Some (data, timestamp) ->
  resp_truthy data = true ->
  (forall n, clock n - timestamp < ttl w) ->
  let r := make_request_with_retry clock hash fromtimestamp "search_recent" request_func call w in
  r.1 = Ok (Some data) /\ invocations r.2 = invocations w /\ cache r.2 = cache w.
Proof.
  intros Hkey Hc Ht Hfresh. simpl. unfold make_request_with_retry.
  replace (seqZ 0 (max_retries + 1)) with [0; 1] by reflexivity.
  rewrite attempts_cons.
  set (g := gated "search_recent" w).
  assert (cache g !! key = Some (data, timestamp)) as Hc1
    by (subst g; by rewrite gated_cache).
  assert (clock (ticks g) - timestamp < ttl g) as Hf1
    by (subst g; rewrite gated_ttl; apply Hfresh).
  assert (attempt_body clock hash fromtimestamp "search_recent" request_func call 0 w
          = (Ok (Return (Some data)), with_ticks (S (ticks g)) g)) as Hbody.
  { unfold attempt_body.
    rewrite (bind_ok _ _ _ _ _ (quota_gate_gated "search_recent" w)).
    apply try_ok. eapply attempt_try_hit.
    - rewrite (cache_lookup_derived clock hash _ _ _ Hkey).
      by rewrite (bind_ok _ _ _ _ _ (cache_get_fresh clock key data timestamp g Hc1 Hf1)).
    - simpl. by rewrite Ht. }
  rewrite (bind_ok _ _ _ _ _ Hbody). simpl. subst g.
  by rewrite gated_invocations, gated_cache.
Qed.

(** X12.  A first search that finds nothing in the cache and gets a truthy
    response (without headers) from upstream returns that response after
    exactly one invocation, stores it in the response cache under the key
    of the query with the time of storing, and charges the quota as one
    [check_rate_limit]. *)
Theorem first_search_is_returned_and_cached
    (request_func : RequestFunc) (call : Call) (w : World)
    (key : string) (r : Response) :
  derived_key hash call = Some key ->
  cache w !! key = None ->
  request_func (length (invocations w)) call = Returns (Some r) ->
  resp_headers r = None ->
  resp_truthy r = true ->
  let res := make_request_with_retry clock hash fromtimestamp "search_recent" request_func call w in
  res.1 = Ok (Some r)
  /\ invocations res.2 = invocations w ++ [call]
  /\ (exists t, cache res.2 = <[key := (r, clock t)]> (cache w))
  /\ rate_limits res.2 = rate_limits (check_rate_limit clock "search_recent" w).2.
Proof.
  intros Hkey Hc Hrf Hh Ht. simpl. unfold make_request_with_retry.
  replace (seqZ 0 (max_retries + 1)) with [0; 1] by reflexivity.
  rewrite attempts_cons.
  destruct (attempt_body_returns_response "search_recent" request_func call 0 w
              (Some r)) as (w1 & Hbody & Hinv & _ & Hrl & Hcache).
  { right. right. eauto. }
  { done. }
  { by intros r' [= <-]. }
  rewrite (bind_ok _ _ _ _ _ Hbody). simpl. repeat split; try done.
  - eexists. by apply Hcache.
  - by rewrite Hrl, gated_rate_limits.
Qed.

(** X13.  Two identical searches cost one upstream invocation: when the
    first one is answered by upstream (truthy response, no headers) and
    all clock readings lie within [ttl] of each other, the second call
    returns the same response from the cache without invoking upstream. *)
Theorem repeated_search_is_served_from_the_cache
    (request_func : RequestFunc) (call : Call) (w : World)
    (key : string) (r : Response) :
  derived_key hash call = Some key ->
  cache w !! key = None ->
  request_func (length (invocations w)) call = Returns (Some r) ->
  resp_headers r = None ->
  resp_truthy r = true ->
  (forall n m, clock n - clock m < ttl w) ->
  let first := make_request_with_retry clock hash fromtimestamp "search_recent" request_func call w in
  let second :=
    make_request_with_retry clock hash fromtimestamp "search_recent" request_func call first.2 in
  first.1 = Ok (Some r)
  /\ second.1 = Ok (Some r)
  /\ invocations second.2 = invocations w ++ [call].
Proof.
  intros Hkey Hc Hrf Hh Ht Hclock. simpl.
  assert (exists w1 t,
            make_request_with_retry clock hash fromtimestamp "search_recent" request_func call w
            = (Ok (Some r), w1)
            /\ invocations w1 = invocations w ++ [call]
            /\ cache w1 = <[key := (r, clock t)]> (cache w)
            /\ ttl w1 = ttl w) as (w1 & t & Hfirst & Hinv & Hcache & Httl).
  { unfold make_request_with_retry.
    replace (seqZ 0 (max_retries + 1)) with [0; 1] by reflexivity.
    rewrite attempts_cons.
    destruct (attempt_body_returns_response "search_recent" request_func call 0 w
                (Some r)) as (w1 & Hbody & Hinv & _ & _ & Hcache).
    { right. right. eauto. }
    { done. }
    { by intros r' [= <-]. }
    exists w1, (ticks (gated "search_recent" w)).
    rewrite (bind_ok _ _ _ _ _ Hbody). simpl. repeat split; try done.
    - by apply Hcache.
    - pose proof (attempt_body_unchanged ttl "search_recent" request_func call 0
                    (fun _ _ => eq_refl) (fun _ _ => eq_refl) (fun _ _ => eq_refl)
                    (fun _ _ => eq_refl) (fun _ _ => eq_refl) w) as Hu.
      by rewrite Hbody in Hu. }
  rewrite Hfirst. simpl.
  destruct (make_request_hit request_func call w1 key r (clock t)) as (H1 & H2 & _).
  - done.
  - rewrite Hcache. apply lookup_insert_eq.
  - done.
  - intros n. rewrite Httl. apply Hclock.
  - repeat split; [done|]. by rewrite H2.
Qed.

Lemma attempt_try_unchanged {B} (proj : World -> B)
    endpoint request_func call :
  (forall n w, proj (with_ticks n w) = proj w) ->
  (forall rl w, proj (with_rate_limits rl w) = proj w) ->
  (forall c w, proj (with_cache c w) = proj w) ->
  (forall l w, proj (with_invocations l w) = proj w) ->
  unchanged proj (attempt_try clock hash fromtimestamp endpoint request_func call).
Proof.
  intros Ht Hr Hc Hi.
  unfold attempt_try. apply unchanged_bind; [by apply cache_lookup_unchanged|].
  intros lookup. simpl.
  destruct (match lookup.2 with
            | Some c => if resp_truthy c then Some c else None
            | None => None
            end); [apply unchanged_ret|].
  apply unchanged_bind; [by apply invoke_unchanged|].
  intros resp. apply unchanged_bind.
  { destruct resp as [r0|]; [|apply unchanged_ret].
    destruct (resp_headers r0); [|apply unchanged_ret].
    by apply update_from_headers_unchanged. }
  intros _. apply unchanged_bind; [|intros; apply unchanged_ret].
  destruct lookup.1; [|apply unchanged_ret].
  destruct resp as [r0|]; [|apply unchanged_ret].
  destruct (resp_truthy r0); [|apply unchanged_ret].
  by apply cache_set_unchanged.
Qed.

(** The first attempt, failing with anything but a bad request, sleeps the
    2 seconds of the first backoff and lets the loop go on. *)
Lemma first_attempt_backs_off endpoint request_func call w e :
  no_cached_response hash endpoint call w ->
  request_func (length (invocations w)) call = Raises e ->
  e <> BadRequest ->
  attempt_body clock hash fromtimestamp endpoint request_func call 0 w
  = (Ok Continue,
     with_sleeps (sleeps (gated endpoint w) ++ [RetryBackoff 2])
       (with_invocations (invocations w ++ [call]) (gated endpoint w))).
Proof.
  intros Hmiss Hrf Hne.
  rewrite (attempt_body_raises _ _ _ _ _ _ Hmiss Hrf).
  destruct e; done.
Qed.

(** The last attempt, failing with any exception, returns [None]. *)
Lemma last_attempt_gives_up endpoint request_func call w e :
  no_cached_response hash endpoint call w ->
  request_func (length (invocations w)) call = Raises e ->
  attempt_body clock hash fromtimestamp endpoint request_func call 1 w
  = (Ok (Return None),
     with_invocations (invocations w ++ [call]) (gated endpoint w)).
Proof.
  intros Hmiss Hrf.
  rewrite (attempt_body_raises _ _ _ _ _ _ Hmiss Hrf).
  destruct e; done.
Qed.

(** X14.  One retry: when nothing is cached for the call, the first
    invocation raises [TooManyRequests] or any exception other than
    [BadRequest], and the second invocation returns a response (without
    headers) or [None], the call returns what the second invocation
    returned, after exactly two invocations and one backoff of 2 seconds. *)
Theorem transient_failure_is_retried_once
    (endpoint : string) (request_func : RequestFunc) (call : Call) (w : World)
    (e : exn) (resp : option Response) :
  no_cached_response hash endpoint call w ->
  request_func (length (invocations w)) call = Raises e ->
  e <> BadRequest ->
  request_func (S (length (invocations w))) call = Returns resp ->
  (forall r, resp = Some r -> resp_headers r = None) ->
  let res := make_request_with_retry clock hash fromtimestamp endpoint request_func call w in
  res.1 = Ok resp
  /\ invocations res.2 = invocations w ++ [call; call]
  /\ backoffs (sleeps res.2) = backoffs (sleeps w) ++ [RetryBackoff 2].
Proof.
  intros Hmiss Hrf Hne Hrf2 Hh. simpl. unfold make_request_with_retry.
  replace (seqZ 0 (max_retries + 1)) with [0; 1] by reflexivity.
  rewrite attempts_cons.
  rewrite (bind_ok _ _ _ _ _ (first_attempt_backs_off _ _ _ _ _ Hmiss Hrf Hne)).
  set (w2 := with_sleeps _ _). rewrite attempts_cons.
  destruct (attempt_body_returns_response endpoint request_func call 1 w2 resp)
    as (w3 & Hbody & Hinv & Hsl & _).
  { eapply no_cached_response_same_cache; [|exact Hmiss].
    subst w2. simpl. apply gated_cache. }
  { subst w2. simpl. rewrite length_app. simpl.
    by replace (length (invocations w) + 1)%nat with (S (length (invocations w))) by lia. }
  { done. }
  rewrite (bind_ok _ _ _ _ _ Hbody). simpl. repeat split.
  - rewrite Hinv. subst w2. simpl. by rewrite <- app_assoc.
  - rewrite Hsl, gated_backoffs. subst w2. simpl.
    unfold backoffs. rewrite filter_app. fold (backoffs (sleeps (gated endpoint w))).
    by rewrite gated_backoffs.
Qed.

(** X15.  The retry budget is one: when nothing is cached for the call and
    both invocations raise (the first one anything but [BadRequest]), the
    call returns [None] after exactly two invocations and one backoff of 2
    seconds; there is no third invocation. *)
Theorem second_failure_gives_up
    (endpoint : string) (request_func : RequestFunc) (call : Call) (w : World)
    (e1 e2 : exn) :
  no_cached_response hash endpoint call w ->
  request_func (length (invocations w)) call = Raises e1 ->
  e1 <> BadRequest ->
  request_func (S (length (invocations w))) call = Raises e2 ->
  let res := make_request_with_retry clock hash fromtimestamp endpoint request_func call w in
  res.1 = Ok None
  /\ invocations res.2 = invocations w ++ [call; call]
  /\ backoffs (sleeps res.2) = backoffs (sleeps w) ++ [RetryBackoff 2].
Proof.
  intros Hmiss Hrf Hne Hrf2. simpl. unfold make_request_with_retry.
  replace (seqZ 0 (max_retries + 1)) with [0; 1] by reflexivity.
  rewrite attempts_cons.
  rewrite (bind_ok _ _ _ _ _ (first_attempt_backs_off _ _ _ _ _ Hmiss Hrf Hne)).
  set (w2 := with_sleeps _ _). rewrite attempts_cons.
  assert (attempt_body clock hash fromtimestamp endpoint request_func call 1 w2
          = (Ok (Return None),
             with_invocations (invocations w2 ++ [call]) (gated endpoint w2)))
    as Hbody.
  { apply (last_attempt_gives_up _ _ _ _ e2).
    - eapply no_cached_response_same_cache; [|exact Hmiss].
      subst w2. simpl. apply gated_cache.
    - subst w2. simpl. rewrite length_app. simpl.
      by replace (length (invocations w) + 1)%nat
        with (S (length (invocations w))) by lia. }
  rewrite (bind_ok _ _ _ _ _ Hbody). simpl. repeat split.
  - subst w2. simpl. by rewrite <- app_assoc.
  - rewrite gated_backoffs. subst w2. simpl.
    unfold backoffs. rewrite filter_app. fold (backoffs (sleeps (gated endpoint w))).
    by rewrite gated_backoffs.
Qed.

Lemma gated_tracked endpoint w i :
  rate_limits w !! endpoint = Some i ->
  exists i', rate_limits (gated endpoint w) !! endpoint = Some i'.
Proof.
  intros Hl. rewrite gated_rate_limits, (check_rate_limit_tracked _ _ _ _ Hl).
  simpl. rewrite lookup_insert_eq. eauto.
Qed.

(** An attempt whose response carries a limit header that is no integer
    goes to the [except] clauses as for any other exception, although the
    request succeeded. *)
Lemma attempt_body_malformed_header endpoint request_func call attempt w r
    headers value i :
  no_cached_response hash endpoint call w ->
  request_func (length (invocations w)) call = Returns (Some r) ->
  resp_headers r = Some headers ->
  headers !! "x-rate-limit-limit" = Some value ->
  Py.int value = None ->
  rate_limits w !! endpoint = Some i ->
  attempt_body clock hash fromtimestamp endpoint request_func call attempt w
  = attempt_except attempt OtherException
      (with_invocations (invocations w ++ [call]) (gated endpoint w)).
Proof.
  intros Hmiss Hrf Hh Hv Hint Hl. unfold attempt_body.
  rewrite (bind_ok _ _ _ _ _ (quota_gate_gated endpoint w)).
  destruct (no_cached_response_lookup clock hash endpoint call (gated endpoint w))
    as (k & Hlook & _).
  { eapply no_cached_response_same_cache; [apply gated_cache|done]. }
  destruct (gated_tracked endpoint w i Hl) as [i' Hl'].
  apply try_raise. unfold attempt_try.
  rewrite (bind_ok _ _ _ _ _ Hlook). simpl.
  assert (invoke request_func call (gated endpoint w)
          = (Ok (Some r),
             with_invocations (invocations w ++ [call]) (gated endpoint w)))
    as Hinv.
  { unfold invoke. by rewrite gated_invocations, Hrf. }
  rewrite (bind_ok _ _ _ _ _ Hinv). rewrite Hh.
  apply bind_raise. unfold update_from_headers.
  erewrite bind_ok; [|reflexivity]. simpl. rewrite Hl'.
  apply bind_raise. by eapply update_field_unparsable.
Qed.

(** X16.  A malformed rate-limit header costs the response: when upstream
    answers (twice) with a response whose [x-rate-limit-limit] header is no
    integer, on a tracked endpoint with nothing cached, the successful
    response is dropped, the request is made a second time after a backoff,
    and the call returns [None]; nothing is stored in the cache. *)
Theorem malformed_header_discards_the_response
    (endpoint : string) (request_func : RequestFunc) (call : Call) (w : World)
    (r : Response) (headers : gmap string string) (value : string) (i : LimitInfo) :
  no_cached_response hash endpoint call w ->
  request_func (length (invocations w)) call = Returns (Some r) ->
  request_func (S (length (invocations w))) call = Returns (Some r) ->
  resp_headers r = Some headers ->
  headers !! "x-rate-limit-limit" = Some value ->
  Py.int value = None ->
  rate_limits w !! endpoint = Some i ->
  let res := make_request_with_retry clock hash fromtimestamp endpoint request_func call w in
  res.1 = Ok None
  /\ invocations res.2 = invocations w ++ [call; call]
  /\ cache res.2 = cache w
  /\ backoffs (sleeps res.2) = backoffs (sleeps w) ++ [RetryBackoff 2].
Proof.
  intros Hmiss Hrf Hrf2 Hh Hv Hint Hl. simpl. unfold make_request_with_retry.
  replace (seqZ 0 (max_retries + 1)) with [0; 1] by reflexivity.
  rewrite attempts_cons.
  assert (attempt_body clock hash fromtimestamp endpoint request_func call 0 w
          = (Ok Continue,
             with_sleeps (sleeps (gated endpoint w) ++ [RetryBackoff 2])
               (with_invocations (invocations w ++ [call]) (gated endpoint w))))
    as Hfirst.
  { by rewrite (attempt_body_malformed_header _ _ _ _ _ _ _ _ _ Hmiss Hrf Hh Hv Hint Hl). }
  rewrite (bind_ok _ _ _ _ _ Hfirst).
  set (w2 := with_sleeps _ _). rewrite attempts_cons.
  destruct (gated_tracked endpoint w i Hl) as [i' Hl'].
  assert (attempt_body clock hash fromtimestamp endpoint request_func call 1 w2
          = (Ok (Return None),
             with_invocations (invocations w2 ++ [call]) (gated endpoint w2)))
    as Hsecond.
  { assert (no_cached_response hash endpoint call w2) as Hmiss2.
    { eapply no_cached_response_same_cache; [|exact Hmiss].
      subst w2. simpl. apply gated_cache. }
    assert (request_func (length (invocations w2)) call = Returns (Some r)) as Hrf2'.
    { subst w2. simpl. rewrite length_app. simpl.
      by replace (length (invocations w) + 1)%nat
        with (S (length (invocations w))) by lia. }
    assert (rate_limits w2 !! endpoint = Some i') as Hl2
      by (subst w2; simpl; exact Hl').
    by rewrite (attempt_body_malformed_header _ _ _ _ _ _ _ _ _
                  Hmiss2 Hrf2' Hh Hv Hint Hl2). }
  rewrite (bind_ok _ _ _ _ _ Hsecond). simpl. repeat split.
  - subst w2. simpl. by rewrite <- app_assoc.
  - rewrite gated_cache. subst w2. simpl. apply gated_cache.
  - rewrite gated_backoffs. subst w2. simpl.
    unfold backoffs. rewrite filter_app. fold (backoffs (sleeps (gated endpoint w))).
    by rewrite gated_backoffs.
Qed.

End GuardedCallerPaths.

(** A request function that fails once with [TooManyRequests] and then
    answers; one that always fails; one whose responses carry a limit
    header that is no integer. *)
Definition fails_once : RequestFunc :=
  fun n _ => match n with
             | O => Raises TooManyRequests
             | S _ => Returns (Some a_response)
             end.

Definition always_fails : RequestFunc := fun _ _ => Raises OtherException.

Definition odd_response : Response :=
  mkResponse true (Some (<["x-rate-limit-limit" := "unlimited"]> ∅)) [] [].

Lemma first_search_is_returned_and_cached_witness :
  let res := make_request_with_retry (fun _ => 0) (fun _ => 7) (fun t => Some t) "search_recent"
               (fun _ _ => Returns (Some a_response)) jazz_call
               (new_twitter_client None) in
  res.1 = Ok (Some a_response)
  /\ invocations res.2 = invocations (new_twitter_client None) ++ [jazz_call]
  /\ (exists t, cache res.2
                = <["search_7" := (a_response, (fun _ : nat => 0) t)]>
                    (cache (new_twitter_client None)))
  /\ rate_limits res.2
     = rate_limits (check_rate_limit (fun _ => 0) "search_recent"
                      (new_twitter_client None)).2.
Proof.
  apply (first_search_is_returned_and_cached (fun _ => 0) (fun _ => 7) (fun t => Some t)
           (fun _ _ => Returns (Some a_response)) jazz_call
           (new_twitter_client None) "search_7" a_response); reflexivity.
Defined.

Lemma repeated_search_is_served_from_the_cache_witness :
  let first := make_request_with_retry (fun _ => 0) (fun _ => 7) (fun t => Some t) "search_recent"
                 (fun _ _ => Returns (Some a_response)) jazz_call
                 (new_twitter_client None) in
  let second := make_request_with_retry (fun _ => 0) (fun _ => 7) (fun t => Some t) "search_recent"
                  (fun _ _ => Returns (Some a_response)) jazz_call first.2 in
  first.1 = Ok (Some a_response)
  /\ second.1 = Ok (Some a_response)
  /\ invocations second.2 = invocations (new_twitter_client None) ++ [jazz_call].
Proof.
  apply (repeated_search_is_served_from_the_cache (fun _ => 0) (fun _ => 7) (fun t => Some t)
           (fun _ _ => Returns (Some a_response)) jazz_call
           (new_twitter_client None) "search_7" a_response);
    reflexivity.
Defined.

Lemma transient_failure_is_retried_once_witness :
  let res := make_request_with_retry (fun _ => 0) (fun _ => 7) (fun t => Some t) "users"
               fails_once jazz_call (new_twitter_client None) in
  res.1 = Ok (Some a_response)
  /\ invocations res.2 = invocations (new_twitter_client None) ++ [jazz_call; jazz_call]
  /\ backoffs (sleeps res.2)
     = backoffs (sleeps (new_twitter_client None)) ++ [RetryBackoff 2].
Proof.
  apply (transient_failure_is_retried_once (fun _ => 0) (fun _ => 7) (fun t => Some t) "users"
           fails_once jazz_call (new_twitter_client None) TooManyRequests
           (Some a_response)).
  - left. discriminate.
  - reflexivity.
  - discriminate.
  - reflexivity.
  - intros r [= <-]. reflexivity.
Defined.

Lemma second_failure_gives_up_witness :
  let res := make_request_with_retry (fun _ => 0) (fun _ => 7) (fun t => Some t) "users"
               always_fails jazz_call (new_twitter_client None) in
  res.1 = Ok None
  /\ invocations res.2 = invocations (new_twitter_client None) ++ [jazz_call; jazz_call]
  /\ backoffs (sleeps res.2)
     = backoffs (sleeps (new_twitter_client None)) ++ [RetryBackoff 2].
Proof.
  apply (second_failure_gives_up (fun _ => 0) (fun _ => 7) (fun t => Some t) "users"
           always_fails jazz_call (new_twitter_client None)
           OtherException OtherException).
  - left. discriminate.
  - reflexivity.
  - discriminate.
  - reflexivity.
Defined.

Lemma malformed_header_discards_the_response_witness :
  let res := make_request_with_retry (fun _ => 0) (fun _ => 7) (fun t => Some t) "search_recent"
               (fun _ _ => Returns (Some odd_response)) jazz_call
               (new_twitter_client None) in
  res.1 = Ok None
  /\ invocations res.2 = invocations (new_twitter_client None) ++ [jazz_call; jazz_call]
  /\ cache res.2 = cache (new_twitter_client None)
  /\ backoffs (sleeps res.2)
     = backoffs (sleeps (new_twitter_client None)) ++ [RetryBackoff 2].
Proof.
  apply (malformed_header_discards_the_response (fun _ => 0) (fun _ => 7) (fun t => Some t)
           "search_recent" (fun _ _ => Returns (Some odd_response)) jazz_call
           (new_twitter_client None) odd_response
           (<["x-rate-limit-limit" := "unlimited"]> ∅) "unlimited"
           (mkLimitInfo 450 450 None 15)).
  - right. right. exists "search_7". split; reflexivity.
  - reflexivity.
  - reflexivity.
  - reflexivity.
  - reflexivity.
  - reflexivity.
  - reflexivity.
Defined.

(** ** How long a guarded call sleeps *)

(** [m] appends at most [n] entries to the log [log], each satisfying [P]. *)
Definition appends {A X} (log : World -> list X) (P : X -> Prop) (n : nat)
    (m : M A) : Prop :=
  forall w, exists l,
    log (m w).2 = log w ++ l /\ (length l <= n)%nat /\ Forall P l.

Lemma appends_unchanged {A X} (log : World -> list X) P (m : M A) :
  unchanged log m -> appends log P 0 m.
Proof.
  intros H w. exists []. rewrite H, app_nil_r. by repeat split.
Qed.

Lemma appends_weaken {A X} (log : World -> list X) P (n k : nat) (m : M A) :
  appends log P n m -> (n <= k)%nat -> appends log P k m.
Proof.
  intros H Hle w. destruct (H w) as (l & ? & ? & ?).
  exists l. repeat split; [done|lia|done].
Qed.

Lemma appends_bind {A A' X} (log : World -> list X) P (n k : nat)
    (m : M A) (f : A -> M A') :
  appends log P n m -> (forall a, appends log P k (f a)) ->
  appends log P (n + k) (m ≫= f).
Proof.
  intros Hm Hf w. destruct (Hm w) as (l & Hl & Hn & HP).
  unfold mbind, M_bind.
  destruct (m w) as [[a|e] w']; simpl in *.
  - destruct (Hf a w') as (l' & Hl' & Hk & HP').
    exists (l ++ l'). rewrite Hl', Hl, app_assoc, length_app.
    repeat split; [lia|by apply Forall_app].
  - exists l. repeat split; [done|lia|done].
Qed.

Lemma appends_try {A X} (log : World -> list X) P (n k : nat)
    (m : M A) (h : exn -> M A) :
  appends log P n m -> (forall e, appends log P k (h e)) ->
  appends log P (n + k) (try_except m h).
Proof.
  intros Hm Hh w. destruct (Hm w) as (l & Hl & Hn & HP).
  unfold try_except.
  destruct (m w) as [[a|e] w']; simpl in *.
  - exists l. repeat split; [done|lia|done].
  - destruct (Hh e w') as (l' & Hl' & Hk & HP').
    exists (l ++ l'). rewrite Hl', Hl, app_assoc, length_app.
    repeat split; [lia|by apply Forall_app].
Qed.

(** The sleeps of the guarded caller: a quota wait of at most 15 seconds,
    or the backoff of 2 seconds (both before jitter). *)
Definition bounded_sleep (s : Sleep) : Prop :=
  match s with
  | QuotaWait seconds => 0 <= seconds <= 15
  | RetryBackoff seconds => seconds = 2
  end.

Section GuardedCallerSleeps.

Variable clock : nat -> Z.
Variable hash : string -> Z.
Variable fromtimestamp : Z -> option Z.

Lemma quota_gate_appends endpoint :
  appends sleeps bounded_sleep 1 (quota_gate clock endpoint).
Proof.
  intros w. destruct (quota_gate_spec clock endpoint w) as (_ & _ & Hg & Hd & _).
  simpl in Hg, Hd.
  destruct (check_rate_limit_returns clock endpoint w) as [[] Hb].
  - exists []. rewrite app_nil_r. repeat split; [by apply Hg|simpl; lia|done].
  - destruct (Hd Hb) as (s & Hs & Hbound).
    exists [QuotaWait s]. repeat split; [done|simpl; lia|].
    by apply Forall_cons_2.
Qed.

Lemma attempt_except_appends attempt e :
  attempt = 0 \/ attempt = 1 ->
  appends sleeps bounded_sleep (if attempt =? 0 then 1 else 0)
    (attempt_except attempt e).
Proof.
  intros [-> | ->]; simpl; intros w.
  - destruct e; simpl.
    + exists [RetryBackoff 2]. repeat split; [simpl; lia|by apply Forall_cons_2].
    + exists []. rewrite app_nil_r. repeat split; [simpl; lia|done].
    + exists [RetryBackoff 2]. repeat split; [simpl; lia|by apply Forall_cons_2].
  - exists []. rewrite app_nil_r. destruct e; repeat split; simpl; try lia; done.
Qed.

Lemma attempt_body_appends endpoint request_func call attempt :
  attempt = 0 \/ attempt = 1 ->
  appends sleeps bounded_sleep (1 + (0 + if attempt =? 0 then 1 else 0))
    (attempt_body clock hash fromtimestamp endpoint request_func call attempt).
Proof.
  intros Ha. unfold attempt_body.
  apply appends_bind; [apply quota_gate_appends|].
  intros _. apply appends_try.
  - apply appends_unchanged. by apply attempt_try_unchanged.
  - intros e. by apply attempt_except_appends.
Qed.

Lemma quota_gate_no_backoff endpoint :
  unchanged (fun w => backoffs (sleeps w)) (quota_gate clock endpoint).
Proof. intros w. apply (quota_gate_spec clock endpoint w). Qed.

Lemma attempt_except_backoffs attempt e :
  attempt = 0 \/ attempt = 1 ->
  appends (fun w => backoffs (sleeps w)) (fun _ => True)
    (if attempt =? 0 then 1 else 0) (attempt_except attempt e).
Proof.
  intros [-> | ->]; simpl; intros w.
  - destruct e; simpl; unfold backoffs; rewrite ?filter_app; simpl.
    + exists [RetryBackoff 2]. repeat split; [simpl; lia|by apply Forall_cons_2].
    + exists []. rewrite app_nil_r. repeat split; [simpl; lia|done].
    + exists [RetryBackoff 2]. repeat split; [simpl; lia|by apply Forall_cons_2].
  - exists []. rewrite app_nil_r. destruct e; repeat split; simpl; try lia; done.
Qed.

Lemma attempt_body_backoffs endpoint request_func call attempt :
  attempt = 0 \/ attempt = 1 ->
  appends (fun w => backoffs (sleeps w)) (fun _ => True)
    (0 + (0 + if attempt =? 0 then 1 else 0))
    (attempt_body clock hash fromtimestamp endpoint request_func call attempt).
Proof.
  intros Ha. unfold attempt_body.
  apply appends_bind; [apply appends_unchanged, quota_gate_no_backoff|].
  intros _. apply appends_try.
  - apply appends_unchanged.
    apply (attempt_try_unchanged clock hash fromtimestamp
             (fun w => backoffs (sleeps w))); done.
  - intros e. by apply attempt_except_backoffs.
Qed.

(** X17.  A guarded call blocks for a bounded time: it sleeps at most three
    times, each sleep being a quota wait of at most 15 seconds or the retry
    backoff of 2 seconds (before jitter), and at most one of them is a
    backoff. *)
Theorem guarded_call_sleeps_are_bounded
    (endpoint : string) (request_func : RequestFunc) (call : Call) (w : World) :
  exists l,
    sleeps (make_request_with_retry clock hash fromtimestamp endpoint request_func call w).2
    = sleeps w ++ l
    /\ (length l <= 3)%nat
    /\ Forall bounded_sleep l
    /\ (length (backoffs l) <= 1)%nat.
Proof.
  unfold make_request_with_retry.
  replace (seqZ 0 (max_retries + 1)) with [0; 1] by reflexivity.
  assert (forall P n0 n1 (log : World -> list Sleep),
            appends log P n0 (attempt_body clock hash fromtimestamp endpoint request_func call 0) ->
            appends log P n1 (attempt_body clock hash fromtimestamp endpoint request_func call 1) ->
            appends log P (n0 + (n1 + 0))
              (attempts clock hash fromtimestamp endpoint request_func call [0; 1])) as Hloop.
  { intros P n0 n1 log H0 H1. simpl. apply appends_bind; [exact H0|].
    intros [r|].
    - apply (appends_weaken _ _ 0); [|lia]. apply appends_unchanged, unchanged_ret.
    - apply appends_bind; [exact H1|].
      intros [r|]; apply appends_unchanged, unchanged_ret. }
  destruct (Hloop _ _ _ sleeps
              (attempt_body_appends endpoint request_func call 0 (or_introl eq_refl))
              (attempt_body_appends endpoint request_func call 1 (or_intror eq_refl)) w)
    as (l & Hl & Hn & HP).
  destruct (Hloop _ _ _ (fun w => backoffs (sleeps w))
              (attempt_body_backoffs endpoint request_func call 0 (or_introl eq_refl))
              (attempt_body_backoffs endpoint request_func call 1 (or_intror eq_refl)) w)
    as (lb & Hlb & Hnb & _).
  exists l. repeat split; [done|simpl in Hn; lia|done|].
  cbv beta in Hlb. rewrite Hl in Hlb. unfold backoffs in Hlb.
  rewrite filter_app in Hlb. apply app_inv_head in Hlb.
  unfold backoffs. rewrite Hlb. simpl in Hnb. lia.
Qed.

End GuardedCallerSleeps.

(** ** More on the range cache of the event engine *)

Ltac dates :=
  unfold _ranges_overlap, Py.dt_le, Py.dt_lt in *; simpl in *;
  rewrite ?negb_true_iff, ?negb_false_iff, ?orb_true_iff, ?orb_false_iff,
    ?andb_true_iff, ?andb_false_iff, ?Z.ltb_lt, ?Z.ltb_ge, ?Z.eqb_eq, ?Z.eqb_neq in *.

Lemma dt_le_refl a : Py.dt_le a a = true.
Proof. destruct a. dates. lia. Qed.

Lemma dt_le_trans a b c :
  Py.dt_le a b = true -> Py.dt_le b c = true -> Py.dt_le a c = true.
Proof. destruct a, b, c. intros H1 H2. dates. lia. Qed.

Lemma dt_le_total a b : Py.dt_le a b = true \/ Py.dt_le b a = true.
Proof. destruct a, b. dates. lia. Qed.

Lemma _ranges_overlap_le start1 end1 start2 end2 :
  _ranges_overlap start1 end1 start2 end2 = true
  <-> Py.dt_le start2 end1 = true /\ Py.dt_le start1 end2 = true.
Proof.
  unfold _ranges_overlap, Py.dt_le.
  rewrite negb_true_iff, orb_false_iff, !negb_true_iff. done.
Qed.

(** X18.  For two ranges that do not end before they start,
    [_ranges_overlap] holds exactly when some date lies in both; the later
    of the two start dates is then such a date. *)
Theorem ranges_overlap_iff_common_date
    (start1 end1 start2 end2 : Py.datetime) :
  Py.dt_le start1 end1 = true ->
  Py.dt_le start2 end2 = true ->
  _ranges_overlap start1 end1 start2 end2 = true
  <-> exists d, Py.dt_le start1 d = true /\ Py.dt_le d end1 = true
             /\ Py.dt_le start2 d = true /\ Py.dt_le d end2 = true.
Proof.
  intros H1 H2. rewrite _ranges_overlap_le. split.
  - intros [Ha Hb]. destruct (dt_le_total start1 start2) as [Hs|Hs].
    + exists start2. by rewrite dt_le_refl.
    + exists start1. by rewrite dt_le_refl.
  - intros (d & Ha & Hb & Hc & Hd). split; by eapply dt_le_trans.
Qed.

Lemma dict_set_present {V} (k : string) (v : V) d :
  k ∈ d.*1 -> length (dict_set k v d) = length d.
Proof.
  induction d as [|[k' v'] d IH]; simpl; intros Hin.
  - by apply elem_of_nil in Hin.
  - destruct (String.eqb k' k) eqn:E; [done|]. simpl. f_equal. apply IH.
    apply elem_of_cons in Hin as [->|Hin]; [|done].
    by rewrite String.eqb_refl in E.
Qed.

Lemma dict_set_elem {V} (k : string) (v : V) d : (k, v) ∈ dict_set k v d.
Proof.
  induction d as [|[k' v'] d IH]; simpl.
  - apply list_elem_of_singleton. done.
  - destruct (String.eqb k' k) eqn:E.
    + apply String.eqb_eq in E as ->. apply elem_of_cons. by left.
    + apply elem_of_cons. by right.
Qed.

(** With at most five ranges stored, the range just written survives the
    eviction. *)
Lemma evict_oldest_keeps_new events key (ranges : list (string * list ResearchEvent)) :
  (length ranges <= 5)%nat ->
  (key, events) ∈ evict_oldest (dict_set key events ranges).
Proof.
  intros Hlen. unfold evict_oldest.
  destruct (decide (key ∈ ranges.*1)) as [Hin|Hin].
  - rewrite (dict_set_present _ _ _ Hin).
    assert ((5 <? length ranges)%nat = false) as -> by (apply Nat.ltb_ge; lia).
    apply dict_set_elem.
  - rewrite (dict_set_fresh _ _ _ Hin).
    destruct (5 <? length (ranges ++ [(key, events)]))%nat eqn:E.
    + destruct ranges as [|r ranges]; [done|]. simpl.
      apply elem_of_app. right. by apply list_elem_of_singleton.
    + apply elem_of_app. right. by apply list_elem_of_singleton.
Qed.

Lemma evict_oldest_Forall (P : string * list ResearchEvent -> Prop) ranges :
  Forall P ranges -> Forall P (evict_oldest ranges).
Proof.
  intros H. unfold evict_oldest. destruct (5 <? length ranges)%nat; [|done].
  destruct H; [done|done].
Qed.

Lemma lookup_after_cache_events location start_date end_date events
    (event_cache : EventCache) search_start search_end :
  Py.strptime start_date = Some search_start ->
  Py.strptime end_date = Some search_end ->
  Forall (fun entry => is_Some (parse_range entry.1)) (ranges_of event_cache location) ->
  _get_cached_events (_cache_events location start_date end_date events event_cache)
    location start_date end_date
  = Some (evict_oldest (dict_set (cache_key start_date end_date) events
                          (ranges_of event_cache location))
            ≫= range_hits search_start search_end).
Proof.
  intros Hs He Hwf. rewrite _cache_events_ranges. unfold _get_cached_events.
  rewrite lookup_insert_eq, Hs, He. simpl.
  rewrite cached_in_ranges_spec; [done|].
  apply evict_oldest_Forall.
  apply (dict_set_Forall (fun key => is_Some (parse_range key))); [|done].
  rewrite (parse_range_cache_key _ _ _ _ Hs He). done.
Qed.

Lemma range_hits_own_range start_date end_date search_start search_end events :
  Py.strptime start_date = Some search_start ->
  Py.strptime end_date = Some search_end ->
  Py.dt_le search_start search_end = true ->
  range_hits search_start search_end (cache_key start_date end_date, events)
  = filter (fun ev => in_search_range search_start search_end ev = true) events.
Proof.
  intros Hs He Hle. unfold range_hits. simpl.
  rewrite (parse_range_cache_key _ _ _ _ Hs He).
  assert (_ranges_overlap search_start search_end search_start search_end = true) as ->.
  { by apply _ranges_overlap_le. }
  done.
Qed.

(** X19.  Store, then look up: after [_cache_events] stored [events] for a
    location and a range of two proper dates that does not end before it
    starts, [_get_cached_events] for the same location and range succeeds
    and finds every stored event dated inside the range, provided the
    location held at most five ranges, all under well-formed keys. *)
Theorem stored_events_are_found_again
    (location start_date end_date : string) (events : list ResearchEvent)
    (event_cache : EventCache) (search_start search_end : Py.datetime) :
  Py.strptime start_date = Some search_start ->
  Py.strptime end_date = Some search_end ->
  Py.dt_le search_start search_end = true ->
  (length (ranges_of event_cache location) <= 5)%nat ->
  Forall (fun entry => is_Some (parse_range entry.1)) (ranges_of event_cache location) ->
  exists found,
    _get_cached_events (_cache_events location start_date end_date events event_cache)
      location start_date end_date = Some found
    /\ forall ev, ev ∈ events ->
         in_search_range search_start search_end ev = true -> ev ∈ found.
Proof.
  intros Hs He Hle Hlen Hwf. eexists. split.
  - by apply lookup_after_cache_events.
  - intros ev Hev Hin. apply list_elem_of_bind.
    exists (cache_key start_date end_date, events). split.
    + rewrite (range_hits_own_range _ _ _ _ _ Hs He Hle).
      by apply list_elem_of_filter.
    + by apply evict_oldest_keeps_new.
Qed.

(** Overlap and round trip on the January range and on a full cache. *)
Lemma ranges_overlap_iff_common_date_witness :
  _ranges_overlap jan_15 feb_15 (Py.mkDate 2024 1 1) (Py.mkDate 2024 1 31) = true
  <-> exists d, Py.dt_le jan_15 d = true /\ Py.dt_le d feb_15 = true
             /\ Py.dt_le (Py.mkDate 2024 1 1) d = true
             /\ Py.dt_le d (Py.mkDate 2024 1 31) = true.
Proof.
  apply (ranges_overlap_iff_common_date jan_15 feb_15 (Py.mkDate 2024 1 1)
           (Py.mkDate 2024 1 31)); reflexivity.
Defined.

Lemma stored_events_are_found_again_witness :
  let june := [an_event "Open Air" "2024-06-21"; an_event "Late Show" "2024-07-02"] in
  exists found,
    _get_cached_events
      (_cache_events "Austin" "2024-06-01" "2024-06-30" june
         (<["Austin" := five_ranges]> ∅))
      "Austin" "2024-06-01" "2024-06-30" = Some found
    /\ forall ev, ev ∈ june ->
         in_search_range (Py.mkDate 2024 6 1) (Py.mkDate 2024 6 30) ev = true ->
         ev ∈ found.
Proof.
  apply (stored_events_are_found_again "Austin" "2024-06-01" "2024-06-30"
           [an_event "Open Air" "2024-06-21"; an_event "Late Show" "2024-07-02"]
           (<["Austin" := five_ranges]> ∅) (Py.mkDate 2024 6 1) (Py.mkDate 2024 6 30)).
  - reflexivity.
  - reflexivity.
  - reflexivity.
  - vm_compute. lia.
  - replace (ranges_of (<["Austin" := five_ranges]> ∅) "Austin") with five_ranges
      by reflexivity.
    repeat apply Forall_cons_2; try apply Forall_nil_2; eexists; vm_compute; reflexivity.
Defined.

Section RangeCacheMore.

Variable _get_new_events_serpapi :
  string -> string -> string -> string -> Z -> list ResearchEvent.

Lemma discover_events_no_fetch location start_date end_date categories max_results
    (event_cache : EventCache) cached :
  _get_cached_events event_cache location start_date end_date = Some cached ->
  max_results <= Z.of_nat (length cached) ->
  discover_events _get_new_events_serpapi location start_date end_date categories
    max_results event_cache
  = (Py.slice_to (_remove_duplicates cached) max_results, event_cache).
Proof.
  intros Hc Hlen. unfold discover_events. rewrite Hc.
  assert (Py.max 0 (max_results - Z.of_nat (length cached)) = 0) as ->
    by (unfold Py.max; lia).
  simpl. by rewrite app_nil_r.
Qed.

Lemma discover_events_fetch location start_date end_date categories max_results
    (event_cache : EventCache) cached :
  _get_cached_events event_cache location start_date end_date = Some cached ->
  Z.of_nat (length cached) < max_results ->
  let fresh := _get_new_events_serpapi location start_date end_date
                 (match categories with c :: _ => c | [] => "all" end)
                 (max_results - Z.of_nat (length cached)) in
  discover_events _get_new_events_serpapi location start_date end_date categories
    max_results event_cache
  = (Py.slice_to (_remove_duplicates (cached ++ fresh)) max_results,
     match fresh with
     | [] => event_cache
     | _ :: _ => _cache_events location start_date end_date fresh event_cache
     end).
Proof.
  intros Hc Hlen. simpl. unfold discover_events. rewrite Hc.
  assert (Py.max 0 (max_results - Z.of_nat (length cached))
          = max_results - Z.of_nat (length cached)) as ->
    by (unfold Py.max; lia).
  assert ((0 <? max_results - Z.of_nat (length cached)) = true) as ->
    by (apply Z.ltb_lt; lia).
  done.
Qed.

(** X20.  When the cached events already number [max_results] or more,
    [discover_events] does not consult the upstream source and leaves the
    cache as it is; it returns the leading [max_results] of the cached
    events after deduplication.  The count is taken before deduplication,
    so duplicates among the cached events shorten the answer without
    triggering a fetch. *)
Theorem enough_cached_events_skip_the_fetch
    (location start_date end_date : string) (categories : list string)
    (max_results : Z) (event_cache : EventCache) (cached : list ResearchEvent) :
  _get_cached_events event_cache location start_date end_date = Some cached ->
  max_results <= Z.of_nat (length cached) ->
  discover_events _get_new_events_serpapi location start_date end_date categories
    max_results event_cache
  = (Py.slice_to (_remove_duplicates cached) max_results, event_cache).
Proof. apply discover_events_no_fetch. Qed.

Lemma _cache_events_lookup_ne location start_date end_date events
    (event_cache : EventCache) l :
  l <> location ->
  _cache_events location start_date end_date events event_cache !! l = event_cache !! l.
Proof. intros Hl. rewrite _cache_events_ranges. by rewrite lookup_insert_ne. Qed.

(** X21.  [discover_events] never changes what is cached for another
    location, and it keeps the bound of five stored ranges per location. *)
Theorem discover_events_touches_one_location
    (location start_date end_date : string) (categories : list string)
    (max_results : Z) (event_cache : EventCache) :
  let after := (discover_events _get_new_events_serpapi location start_date end_date
                  categories max_results event_cache).2 in
  (forall l, l <> location -> after !! l = event_cache !! l)
  /\ ((forall l, (length (ranges_of event_cache l) <= 5)%nat) ->
      forall l, (length (ranges_of after l) <= 5)%nat).
Proof.
  simpl. unfold discover_events.
  destruct (_get_cached_events event_cache location start_date end_date) as [cached|];
    [|done].
  simpl.
  destruct (if 0 <? Py.max 0 (max_results - Z.of_nat (length cached)) then _ else _)
    as [|ev fresh]; [done|].
  split.
  - intros l Hl. by apply _cache_events_lookup_ne.
  - intros Hb l. by apply _cache_events_bound.
Qed.

End RangeCacheMore.

Lemma unique_from_NoDup_id (seen : gset (string * string)) events :
  NoDup (identifier <$> events) ->
  (forall ev, ev ∈ events -> identifier ev ∉ seen) ->
  unique_from seen events = events.
Proof.
  revert seen. induction events as [|ev events IH]; intros seen Hnd Hseen; simpl; [done|].
  rewrite fmap_cons in Hnd. apply NoDup_cons in Hnd as [Hev Hnd].
  destruct (decide (identifier ev ∈ seen)) as [Hin|Hin].
  - exfalso. apply (Hseen ev); [apply elem_of_cons; by left|done].
  - f_equal. apply IH; [done|].
    intros ev' Hev' Hs. apply elem_of_union in Hs as [Hs|Hs].
    + apply elem_of_singleton in Hs. apply Hev. rewrite <- Hs.
      apply list_elem_of_fmap. by exists ev'.
    + apply (Hseen ev'); [apply elem_of_cons; by right|done].
Qed.

(** X22.  [_remove_duplicates] is idempotent: a deduplicated list passes
    through it unchanged. *)
Theorem remove_duplicates_is_idempotent (events : list ResearchEvent) :
  _remove_duplicates (_remove_duplicates events) = _remove_duplicates events.
Proof.
  unfold _remove_duplicates. apply unique_from_NoDup_id.
  - apply unique_from_NoDup.
  - intros ev _. apply not_elem_of_empty.
Qed.

(** One cached event answers a request for one event. *)
Lemma enough_cached_events_skip_the_fetch_witness :
  discover_events two_fresh_events "Austin" "2024-01-15" "2024-01-31" ["music"] 1
    january_cache
  = (Py.slice_to (_remove_duplicates [an_event "Jazz Night" "2024-01-20"]) 1,
     january_cache).
Proof.
  apply (enough_cached_events_skip_the_fetch two_fresh_events "Austin" "2024-01-15"
           "2024-01-31" ["music"] 1 january_cache [an_event "Jazz Night" "2024-01-20"]).
  - reflexivity.
  - simpl. lia.
Defined.

Lemma filter_Forall_id {A} (P : A -> Prop) `{forall x, Decision (P x)} (l : list A) :
  Forall P l -> filter P l = l.
Proof.
  induction 1 as [|x l Hx _ IH]; [done|].
  rewrite filter_cons_True by done. by rewrite IH.
Qed.

(** X23.  A discovery repeated for the same location and range is served
    from the cache: when the first discovery found nothing cached for the
    location and its fetch delivered at least [max_results] events, all
    dated inside the range, the second discovery returns the same events
    and leaves the cache as the first one left it, whatever the upstream
    source would answer by then. *)
Theorem repeated_discovery_is_served_from_the_cache
    (fetch fetch' : string -> string -> string -> string -> Z -> list ResearchEvent)
    (location start_date end_date : string) (categories : list string)
    (max_results : Z) (event_cache : EventCache)
    (search_start search_end : Py.datetime) :
  event_cache !! location = None ->
  Py.strptime start_date = Some search_start ->
  Py.strptime end_date = Some search_end ->
  Py.dt_le search_start search_end = true ->
  0 < max_results ->
  let fresh := fetch location start_date end_date
                 (match categories with c :: _ => c | [] => "all" end) max_results in
  max_results <= Z.of_nat (length fresh) ->
  Forall (fun ev => in_search_range search_start search_end ev = true) fresh ->
  let first := discover_events fetch location start_date end_date categories
                 max_results event_cache in
  first.1 = Py.slice_to (_remove_duplicates fresh) max_results
  /\ discover_events fetch' location start_date end_date categories max_results first.2
     = first.
Proof.
  intros Hloc Hs He Hle Hpos fresh Hlen Hin. simpl.
  assert (_get_cached_events event_cache location start_date end_date = Some [])
    as Hmiss by (unfold _get_cached_events; by rewrite Hloc).
  assert (discover_events fetch location start_date end_date categories max_results
            event_cache
          = (Py.slice_to (_remove_duplicates fresh) max_results,
             _cache_events location start_date end_date fresh event_cache)) as ->.
  { rewrite (discover_events_fetch fetch _ _ _ _ _ _ _ Hmiss) by (simpl; lia).
    simpl. rewrite Z.sub_0_r. fold fresh.
    destruct fresh; [simpl in Hlen; lia|done]. }
  split; [done|]. simpl.
  apply discover_events_no_fetch; [|done].
  rewrite (lookup_after_cache_events _ _ _ _ _ _ _ Hs He).
  - unfold ranges_of. rewrite Hloc. simpl. unfold evict_oldest. simpl.
    rewrite app_nil_r, (range_hits_own_range _ _ _ _ _ Hs He Hle).
    by rewrite filter_Forall_id.
  - unfold ranges_of. rewrite Hloc. simpl. done.
Qed.

Lemma repeated_discovery_is_served_from_the_cache_witness :
  let fresh := two_fresh_events "Austin" "2024-01-15" "2024-01-31" "music" 2 in
  let first := discover_events two_fresh_events "Austin" "2024-01-15" "2024-01-31"
                 ["music"] 2 ∅ in
  first.1 = Py.slice_to (_remove_duplicates fresh) 2
  /\ discover_events (fun _ _ _ _ _ => []) "Austin" "2024-01-15" "2024-01-31"
       ["music"] 2 first.2
     = first.
Proof.
  apply (repeated_discovery_is_served_from_the_cache two_fresh_events
           (fun _ _ _ _ _ => []) "Austin" "2024-01-15" "2024-01-31" ["music"] 2 ∅
           (Py.mkDate 2024 1 15) (Py.mkDate 2024 1 31)).
  - reflexivity.
  - reflexivity.
  - reflexivity.
  - reflexivity.
  - lia.
  - simpl. lia.
  - repeat apply Forall_cons_2; try apply Forall_nil_2; reflexivity.
Defined.

Lemma dict_set_overwrites {V} (k : string) (v x : V) d :
  NoDup d.*1 -> k ∈ d.*1 -> (k, x) ∈ dict_set k v d -> x = v.
Proof.
  induction d as [|[k' v'] d IH]; simpl; intros Hnd Hk Hin.
  - by apply elem_of_nil in Hk.
  - apply NoDup_cons in Hnd as [Hk' Hnd].
    destruct (String.eqb k' k) eqn:E.
    + apply String.eqb_eq in E as ->.
      apply elem_of_cons in Hin as [[= ->]|Hin]; [done|].
      exfalso. apply Hk'. apply list_elem_of_fmap. by exists (k, x).
    + apply elem_of_cons in Hin as [[= -> ->]|Hin].
      { by rewrite String.eqb_refl in E. }
      apply IH; [done| |done].
      apply elem_of_cons in Hk as [->|Hk]; [|done].
      by rewrite String.eqb_refl in E.
Qed.

(** X24.  A partial hit on a range that is itself stored overwrites the
    stored list: when [discover_events] finds fewer than [max_results]
    cached events and the fetch delivers some, the key of the search range
    afterwards holds the freshly fetched events alone; the events stored
    under it before are no longer cached. *)
Theorem partial_hit_overwrites_the_stored_range
    (fetch : string -> string -> string -> string -> Z -> list ResearchEvent)
    (location start_date end_date : string) (categories : list string)
    (max_results : Z) (event_cache : EventCache)
    (ranges : list (string * list ResearchEvent)) (cached : list ResearchEvent) :
  event_cache !! location = Some ranges ->
  NoDup ranges.*1 ->
  cache_key start_date end_date ∈ ranges.*1 ->
  (length ranges <= 5)%nat ->
  _get_cached_events event_cache location start_date end_date = Some cached ->
  Z.of_nat (length cached) < max_results ->
  let fresh := fetch location start_date end_date
                 (match categories with c :: _ => c | [] => "all" end)
                 (max_results - Z.of_nat (length cached)) in
  fresh <> [] ->
  let after := (discover_events fetch location start_date end_date categories
                  max_results event_cache).2 in
  forall events,
    (cache_key start_date end_date, events) ∈ ranges_of after location
    <-> events = fresh.
Proof.
  intros Hloc Hnd Hkey Hlen Hc Hneed fresh Hfresh. simpl.
  rewrite (discover_events_fetch fetch _ _ _ _ _ _ _ Hc Hneed). simpl. fold fresh.
  destruct fresh as [|ev rest] eqn:Efresh; [done|]. rewrite <- Efresh. clear Efresh.
  rewrite _cache_events_ranges. unfold ranges_of at 1. rewrite lookup_insert_eq. simpl.
  assert (ranges_of event_cache location = ranges) as ->
    by (unfold ranges_of; by rewrite Hloc).
  intros events. split.
  - unfold evict_oldest. rewrite (dict_set_present _ _ _ Hkey).
    assert ((5 <? length ranges)%nat = false) as -> by (apply Nat.ltb_ge; lia).
    by apply dict_set_overwrites.
  - intros ->. by apply evict_oldest_keeps_new.
Qed.

Lemma partial_hit_overwrites_the_stored_range_witness :
  let fresh := two_fresh_events "Austin" "2024-01-01" "2024-01-31" "music" (3 - 1) in
  let after := (discover_events two_fresh_events "Austin" "2024-01-01" "2024-01-31"
                  ["music"] 3 january_cache).2 in
  (cache_key "2024-01-01" "2024-01-31", fresh) ∈ ranges_of after "Austin"
  /\ (cache_key "2024-01-01" "2024-01-31",
      [an_event "Jazz Night" "2024-01-20"; an_event "Winter Gala" "2024-02-01"])
     ∉ ranges_of after "Austin".
Proof.
  assert (forall events,
            (cache_key "2024-01-01" "2024-01-31", events)
              ∈ ranges_of (discover_events two_fresh_events "Austin" "2024-01-01"
                             "2024-01-31" ["music"] 3 january_cache).2 "Austin"
            <-> events = two_fresh_events "Austin" "2024-01-01" "2024-01-31" "music"
                           (3 - 1)) as H.
  { apply (partial_hit_overwrites_the_stored_range two_fresh_events "Austin"
             "2024-01-01" "2024-01-31" ["music"] 3 january_cache
             [("2024-01-01_2024-01-31",
               [an_event "Jazz Night" "2024-01-20"; an_event "Winter Gala" "2024-02-01"])]
             [an_event "Jazz Night" "2024-01-20"]).
    - reflexivity.
    - apply NoDup_cons. split; [apply not_elem_of_nil|apply NoDup_nil_2].
    - apply elem_of_cons. by left.
    - simpl. lia.
    - reflexivity.
    - simpl. lia.
    - discriminate. }
  split.
  - apply H. reflexivity.
  - intros Hin. apply H in Hin. discriminate Hin.
Defined.

(** ** The fetch from the events search API *)

(** A dictionary built by [_extract_events_from_serpapi]. *)
Record SerpEvent := mkSerpEvent {
  serp_name : string;
  serp_date : string;
  serp_venue : string;
  serp_description : string;
  serp_link : string;
  serp_category : string
}.

(** What one pass of the loop of [_get_new_events_serpapi] obtains for its
    query, the [i]-th: [None] when the pass is abandoned after the request
    was sent (a status other than 200, or an exception), otherwise the
    events that [_extract_events_from_serpapi] draws from the response. *)
Definition SerpSource := nat -> string -> option (list SerpEvent).

(** The [location] attribute of an event, under a name that the
    [location] parameter of the engine's methods does not hide. *)
Definition event_location : ResearchEvent -> string := location.

Section SerpApi.

(** [strftime('%B %Y')]: the month name and the year. *)
Variable month_year : Py.datetime -> string.

Variable source : SerpSource.

(** [_build_optimized_queries(location, start_date, end_date, category)];
    [None] when a date does not parse ([ValueError]). *)
Definition _build_optimized_queries (location start_date end_date category : string)
    : option (list string) :=
  start_dt ← Py.strptime start_date;
  end_dt ← Py.strptime end_date;
  let start_month := month_year start_dt in
  let base_queries :=
    ["events in " +:+ location;
     "upcoming events " +:+ location;
     "things to do in " +:+ location;
     location +:+ " events " +:+ start_month;
     "concerts in " +:+ location;
     "festivals " +:+ location;
     "shows in " +:+ location;
     "entertainment " +:+ location;
     "nightlife " +:+ location;
     "cultural events " +:+ location] in
  let base_queries :=
    if String.eqb category "music" || String.eqb category "all" then
      base_queries ++ ["concerts " +:+ location +:+ " " +:+ start_month;
                       "music events " +:+ location;
                       "live music " +:+ location]
    else base_queries in
  let base_queries :=
    if String.eqb category "sports" || String.eqb category "all" then
      base_queries ++ ["sports events " +:+ location;
                       "games " +:+ location +:+ " " +:+ start_month]
    else base_queries in
  let base_queries :=
    if String.eqb category "food" || String.eqb category "all" then
      base_queries ++ ["food festivals " +:+ location;
                       "culinary events " +:+ location]
    else base_queries in
  Some base_queries.

(** The loop of [_get_new_events_serpapi] from its [i]-th pass on: the
    events collected, and the queries sent. *)
Fixpoint serp_loop (max_results : Z) (i : nat) (queries : list string)
    (all_events : list SerpEvent) (sent : list string)
    : list SerpEvent * list string :=
  match queries with
  | [] => (all_events, sent)
  | query :: rest =>
      match source i query with
      | None => serp_loop max_results (S i) rest all_events (sent ++ [query])
      | Some extracted_events =>
          let all_events :=
            match extracted_events with
            | [] => all_events
            | _ :: _ => all_events ++ extracted_events
            end in
          if max_results * 2 <=? Z.of_nat (length all_events)
          then (all_events, sent ++ [query])
          else serp_loop max_results (S i) rest all_events (sent ++ [query])
      end
  end.

(** [_convert_to_research_events(serp_events, location)] *)
Definition _convert_to_research_events (serp_events : list SerpEvent)
    (location : string) : list ResearchEvent :=
  (fun event =>
     mkResearchEvent (serp_name event) (serp_date event) (serp_venue event)
       location (serp_category event) (85 # 100) (serp_link event) "Google Events")
  <$> serp_events.

(** [_get_new_events_serpapi(location, start_date, end_date, category,
    max_results)]: the events returned, and the queries sent upstream. *)
Definition _get_new_events_serpapi (location start_date end_date category : string)
    (max_results : Z) : list ResearchEvent * list string :=
  match _build_optimized_queries location start_date end_date category with
  | None => ([], [])
  | Some queries =>
      let looped := serp_loop max_results 0 (Py.slice_to queries max_results) [] [] in
      let research_events := _convert_to_research_events looped.1 location in
      (Py.slice_to research_events max_results, looped.2)
  end.

Lemma _build_optimized_queries_length location start_date end_date category queries :
  _build_optimized_queries location start_date end_date category = Some queries ->
  (10 <= length queries <= 17)%nat.
Proof.
  unfold _build_optimized_queries.
  destruct (Py.strptime start_date) as [start_dt|]; [|done].
  destruct (Py.strptime end_date) as [end_dt|]; [|done]. simpl.
  intros [= <-].
  destruct (String.eqb category "music" || String.eqb category "all");
    destruct (String.eqb category "sports" || String.eqb category "all");
    destruct (String.eqb category "food" || String.eqb category "all");
    simpl; lia.
Qed.

Lemma serp_loop_sent max_results i queries all_events sent :
  exists k, (serp_loop max_results i queries all_events sent).2 = sent ++ take k queries.
Proof.
  revert i all_events sent.
  induction queries as [|query rest IH]; intros i all_events sent; simpl.
  - exists O. by rewrite app_nil_r.
  - destruct (source i query) as [extracted|].
    + destruct (max_results * 2 <=? _).
      * exists 1%nat. simpl. by rewrite take_0.
      * destruct (IH (S i) (match extracted with [] => all_events
                                        | _ :: _ => all_events ++ extracted end)
                    (sent ++ [query])) as [k Hk].
        exists (S k). rewrite Hk. simpl. by rewrite <- app_assoc.
    + destruct (IH (S i) all_events (sent ++ [query])) as [k Hk].
      exists (S k). rewrite Hk. simpl. by rewrite <- app_assoc.
Qed.

Lemma slice_to_length {A} (l : list A) (n : Z) :
  0 <= n -> Z.of_nat (length (Py.slice_to l n)) <= n.
Proof.
  intros Hn. unfold Py.slice_to.
  assert ((0 <=? n) = true) as -> by lia. rewrite length_take. lia.
Qed.

Lemma slice_to_prefix {A} (l : list A) (n : Z) : Py.slice_to l n `prefix_of` l.
Proof. unfold Py.slice_to. destruct (0 <=? n); apply prefix_take. Qed.

(** X25.  One fetch is bounded by the number of events asked for: for
    [max_results] not negative, [_get_new_events_serpapi] returns at most
    [max_results] events and sends at most [max_results] queries, never more
    than 17; the queries sent are the leading ones of
    [_build_optimized_queries], in order, and every event returned carries
    the location asked for. *)
Theorem serpapi_fetch_is_bounded
    (location start_date end_date category : string) (max_results : Z) :
  0 <= max_results ->
  let fetched := _get_new_events_serpapi location start_date end_date category
                   max_results in
  Z.of_nat (length fetched.1) <= max_results
  /\ Z.of_nat (length fetched.2) <= max_results
  /\ (length fetched.2 <= 17)%nat
  /\ (forall queries,
        _build_optimized_queries location start_date end_date category = Some queries ->
        fetched.2 `prefix_of` queries)
  /\ Forall (fun ev => event_location ev = location) fetched.1.
Proof.
  intros Hmax. simpl. unfold _get_new_events_serpapi.
  destruct (_build_optimized_queries location start_date end_date category)
    as [queries|] eqn:Hq.
  2: { simpl. repeat split; try lia; try done. }
  simpl.
  destruct (serp_loop_sent max_results 0 (Py.slice_to queries max_results) [] [])
    as [k Hk]. rewrite Hk. simpl.
  pose proof (_build_optimized_queries_length _ _ _ _ _ Hq) as Hlen.
  pose proof (slice_to_length queries max_results Hmax) as Hslice.
  pose proof (slice_to_prefix queries max_results) as Hpre.
  pose proof (prefix_length _ _ Hpre) as Hprelen.
  repeat split.
  - by apply slice_to_length.
  - rewrite length_take. lia.
  - rewrite length_take. lia.
  - intros queries' [= <-]. etrans; [apply prefix_take|done].
  - unfold Py.slice_to, _convert_to_research_events.
    destruct (0 <=? max_results); apply Forall_take, Forall_fmap, Forall_true; done.
Qed.

Lemma serp_loop_silent max_results i queries sent :
  0 < max_results ->
  (forall i q, source i q = None \/ source i q = Some []) ->
  serp_loop max_results i queries [] sent = ([], sent ++ queries).
Proof.
  intros Hmax Hsilent. revert i sent.
  induction queries as [|query rest IH]; intros i sent; simpl.
  - by rewrite app_nil_r.
  - destruct (Hsilent i query) as [-> | ->].
    + rewrite IH. by rewrite <- app_assoc.
    + cbv beta iota zeta.
      replace (max_results * 2 <=? Z.of_nat (@length SerpEvent []))
        with false by (symmetry; apply Z.leb_gt; simpl; lia).
      rewrite IH. by rewrite <- app_assoc.
Qed.

(** X26.  An upstream that yields no events costs one request per query:
    when every pass is abandoned or extracts nothing, a fetch of
    [max_results > 0] events sends each of the leading [max_results]
    queries, up to all of them, and returns no event. *)
Theorem silent_upstream_costs_one_request_per_query
    (location start_date end_date category : string) (max_results : Z)
    (queries : list string) :
  0 < max_results ->
  _build_optimized_queries location start_date end_date category = Some queries ->
  (forall i q, source i q = None \/ source i q = Some []) ->
  _get_new_events_serpapi location start_date end_date category max_results
  = ([], take (Z.to_nat max_results) queries).
Proof.
  intros Hmax Hq Hsilent. unfold _get_new_events_serpapi. rewrite Hq. simpl.
  rewrite (serp_loop_silent _ _ _ _ Hmax Hsilent). simpl.
  unfold Py.slice_to. assert ((0 <=? max_results) = true) as -> by lia.
  by rewrite take_nil.
Qed.

(** The fetch as [discover_events] sees it. *)
Definition fetched_events (location start_date end_date category : string)
    (max_results : Z) : list ResearchEvent :=
  (_get_new_events_serpapi location start_date end_date category max_results).1.

(** X27.  A start or end date that is not a date of the form YYYY-MM-DD
    finds nothing: [discover_events] returns no event and leaves the cache
    as it is, whether or not the location is cached, and no query is sent
    upstream. *)
Theorem unparsable_dates_find_nothing
    (location start_date end_date : string) (categories : list string)
    (max_results : Z) (event_cache : EventCache) :
  Py.strptime start_date = None \/ Py.strptime end_date = None ->
  discover_events fetched_events location start_date end_date categories max_results
    event_cache = ([], event_cache)
  /\ forall category n,
       _get_new_events_serpapi location start_date end_date category n = ([], []).
Proof.
  intros Hbad.
  assert (forall category,
            _build_optimized_queries location start_date end_date category = None)
    as Hq.
  { intros category. unfold _build_optimized_queries.
    destruct Hbad as [-> | Hbad]; [done|].
    destruct (Py.strptime start_date); [|done]. simpl. by rewrite Hbad. }
  assert (forall category n,
            _get_new_events_serpapi location start_date end_date category n = ([], []))
    as Hfetch.
  { intros category n. unfold _get_new_events_serpapi. by rewrite Hq. }
  split; [|done].
  unfold discover_events.
  destruct (_get_cached_events event_cache location start_date end_date)
    as [cached|] eqn:Hc; [|done].
  assert (cached = []) as ->.
  { unfold _get_cached_events in Hc.
    destruct (event_cache !! location) as [ranges|]; [|by injection Hc].
    destruct Hbad as [Hbad | Hbad]; rewrite Hbad in Hc; [done|].
    by destruct (Py.strptime start_date). }
  unfold fetched_events. simpl.
  rewrite Hfetch. simpl.
  destruct (0 <? Py.max 0 (max_results - Z.of_nat 0));
    unfold Py.slice_to, _remove_duplicates; simpl;
    destruct (0 <=? max_results); by rewrite take_nil.
Qed.

End SerpApi.

(** A sports search of three events against an upstream that finds one
    event for every query; then a search of twenty against an upstream that
    answers every request with an error status, and a search whose start
    date is written out in words. *)
Lemma serpapi_fetch_is_bounded_witness :
  let fetched := _get_new_events_serpapi (fun _ => "June 2024")
                   (fun _ q => Some [mkSerpEvent q "2024-06-21" "Main Hall" ""
                                       "https://example.org/event" "other"])
                   "Austin" "2024-06-01" "2024-06-30" "sports" 3 in
  Z.of_nat (length fetched.1) <= 3
  /\ Z.of_nat (length fetched.2) <= 3
  /\ (length fetched.2 <= 17)%nat
  /\ (forall queries,
        _build_optimized_queries (fun _ => "June 2024") "Austin" "2024-06-01"
          "2024-06-30" "sports" = Some queries ->
        fetched.2 `prefix_of` queries)
  /\ Forall (fun ev => event_location ev = "Austin") fetched.1.
Proof.
  apply (serpapi_fetch_is_bounded (fun _ => "June 2024")
           (fun _ q => Some [mkSerpEvent q "2024-06-21" "Main Hall" ""
                               "https://example.org/event" "other"])
           "Austin" "2024-06-01" "2024-06-30" "sports" 3).
  lia.
Defined.

Lemma silent_upstream_costs_one_request_per_query_witness :
  _get_new_events_serpapi (fun _ => "June 2024") (fun _ _ => None)
    "Austin" "2024-06-01" "2024-06-30" "sports" 20
  = ([], take (Z.to_nat 20)
           (default [] (_build_optimized_queries (fun _ => "June 2024") "Austin"
                          "2024-06-01" "2024-06-30" "sports"))).
Proof.
  apply (silent_upstream_costs_one_request_per_query (fun _ => "June 2024")
           (fun _ _ => None) "Austin" "2024-06-01" "2024-06-30" "sports" 20).
  - lia.
  - reflexivity.
  - intros i q. by left.
Defined.

Lemma unparsable_dates_find_nothing_witness :
  discover_events (fetched_events (fun _ => "June 2024") (fun _ _ => None))
    "Austin" "21 June 2024" "2024-06-30" ["music"] 5 january_cache
  = ([], january_cache)
  /\ forall category n,
       _get_new_events_serpapi (fun _ => "June 2024") (fun _ _ => None)
         "Austin" "21 June 2024" "2024-06-30" category n = ([], []).
Proof.
  apply (unparsable_dates_find_nothing (fun _ => "June 2024") (fun _ _ => None)
           "Austin" "21 June 2024" "2024-06-30" ["music"] 5 january_cache).
  left. reflexivity.
Defined.

(** ** What the fetch stores *)

(** A [datetime] with its time of day (in microseconds since midnight):
    midnight for [strptime(_, '%Y-%m-%d')], any time for [datetime.now()]. *)
Record Moment := mkMoment {
  moment_date : Py.datetime;
  moment_time : Z
}.

Definition midnight (d : Py.datetime) : Moment := mkMoment d 0.

Definition date_eqb (a b : Py.datetime) : bool :=
  (Py.year a =? Py.year b) && (Py.month a =? Py.month b) && (Py.day a =? Py.day b).

(** [a <= b] on datetimes. *)
Definition moment_le (a b : Moment) : bool :=
  Py.dt_lt (moment_date a) (moment_date b)
  || (date_eqb (moment_date a) (moment_date b)
      && (moment_time a <=? moment_time b)).

(** An entry of [data['events_results']] as the loop of
    [_extract_events_from_serpapi] reads it: the trimmed title, the date and
    time that [_parse_event_date], [_extract_date_from_description] or,
    failing both, [datetime.now()] gave, and the address, description and
    link. *)
Record RawEvent := mkRawEvent {
  raw_title : string;
  raw_event_date : Moment;
  raw_address : option string;
  raw_description : string;
  raw_link : string
}.

(** The response to one request: [None] when the pass of
    [_get_new_events_serpapi] is abandoned before the extraction (a status
    other than 200, or an exception); otherwise the entries of
    ['events_results'], an entry being [None] when reading it raises. *)
Definition RawSource := nat -> string -> option (list (option RawEvent)).

Section Extraction.

(** Whether [%Y] puts zeros in front of a year below 1000. *)
Variable zero_padded_year : bool.

(** [_classify_event_type(text)]: keyword matching on the title. *)
Variable _classify_event_type : string -> string.

(** One pass of the loop of [_extract_events_from_serpapi]: the dictionary
    appended, if any.  A start or end date that does not parse raises, and
    the pass is skipped. *)
Definition extract_event (location start_date end_date : string)
    (entry : option RawEvent) : list SerpEvent :=
  match entry with
  | None => []
  | Some event =>
      let title := raw_title event in
      if Py.is_empty title || String.eqb title "Unknown" then []
      else
        let event_date := raw_event_date event in
        let formatted_date :=
          Py.strftime zero_padded_year (moment_date event_date) in
        match Py.strptime start_date, Py.strptime end_date with
        | Some start_dt, Some end_dt =>
            if moment_le (midnight start_dt) event_date
               && moment_le event_date (midnight end_dt)
            then
              [mkSerpEvent title formatted_date
                 (default location (raw_address event))
                 (raw_description event) (raw_link event)
                 (_classify_event_type title)]
            else []
        | _, _ => []
        end
  end.

(** [_extract_events_from_serpapi(data, location, start_date, end_date)] *)
Definition _extract_events_from_serpapi (data : list (option RawEvent))
    (location start_date end_date : string) : list SerpEvent :=
  data ≫= extract_event location start_date end_date.

(** The source of one fetch: the responses, events extracted. *)
Definition extracting (raw : RawSource) (location start_date end_date : string)
    : SerpSource :=
  fun i query =>
    (fun data => _extract_events_from_serpapi data location start_date end_date)
    <$> raw i query.

Variable month_year : Py.datetime -> string.

(** [_get_new_events_serpapi] on the responses [raw], as [discover_events]
    calls it. *)
Definition serpapi_fetch (raw : RawSource)
    (location start_date end_date category : string) (max_results : Z)
    : list ResearchEvent :=
  fetched_events month_year (extracting raw location start_date end_date)
    location start_date end_date category max_results.

(** The caches that the engine can hold: it starts with an empty one, and
    only [discover_events] writes to it. *)
Inductive reachable : EventCache -> Prop :=
| reachable_empty : reachable ∅
| reachable_discover (event_cache : EventCache) (raw : RawSource)
    (location start_date end_date : string) (categories : list string)
    (max_results : Z) :
    reachable event_cache ->
    reachable
      (discover_events (serpapi_fetch raw) location start_date end_date
         categories max_results event_cache).2.

End Extraction.

(** ** Dates written by [strftime] and read by [strptime] *)

Lemma is_digit_digit_char k :
  Py.is_digit (Py.digit_char k) = true ->
  0 <= k <= 9 /\ Py.digit_value (Py.digit_char k) = k.
Proof.
  unfold Py.digit_char.
  destruct ((0 <=? k) && (k <=? 9)) eqn:E; [|discriminate].
  intros _. split; [lia|].
  assert (k = 0 \/ k = 1 \/ k = 2 \/ k = 3 \/ k = 4 \/ k = 5 \/ k = 6 \/ k = 7
          \/ k = 8 \/ k = 9) as Hk by lia.
  repeat (destruct Hk as [->|Hk]; [reflexivity|]). by subst k.
Qed.

Ltac digit_cases k :=
  let H := fresh "H" in
  assert (k = 0 \/ k = 1 \/ k = 2 \/ k = 3 \/ k = 4 \/ k = 5 \/ k = 6 \/ k = 7
          \/ k = 8 \/ k = 9) as H by lia;
  destruct H as [->|[->|[->|[->|[->|[->|[->|[->|[->| ->]]]]]]]]].

Lemma parse_month_two_digits k1 k2 rest m r :
  0 <= k2 <= 9 ->
  Py.parse_month
    (String (Py.digit_char k1) (String (Py.digit_char k2) (String "-" rest)))
  = Some (m, String "-" r) ->
  m = 10 * k1 + k2 /\ r = rest.
Proof.
  intros Hk2.
  destruct (decide (0 <= k1 <= 9)) as [Hk1|Hk1].
  - digit_cases k1; digit_cases k2; vm_compute;
      first [discriminate | intros [= <- <-]; split; reflexivity].
  - unfold Py.digit_char at 1.
    assert ((0 <=? k1) && (k1 <=? 9) = false) as -> by lia.
    simpl. discriminate.
Qed.

Lemma parse_day_two_digits k1 k2 d r :
  0 <= k2 <= 9 ->
  Py.parse_day
    (String (Py.digit_char k1) (String (Py.digit_char k2) EmptyString))
  = Some (d, r) ->
  r = EmptyString ->
  d = 10 * k1 + k2.
Proof.
  intros Hk2.
  destruct (decide (0 <= k1 <= 9)) as [Hk1|Hk1].
  - digit_cases k1; digit_cases k2; vm_compute;
      first [discriminate | intros [= <- <-]; first [reflexivity | discriminate]].
  - unfold Py.digit_char at 1.
    assert ((0 <=? k1) && (k1 <=? 9) = false) as -> by lia.
    simpl. discriminate.
Qed.

Lemma strptime_inv s d :
  Py.strptime s = Some d ->
  exists y1 y2 y3 y4 r m r' dd,
    s = String y1 (String y2 (String y3 (String y4 (String "-" r))))
    /\ Py.is_digit y1 = true /\ Py.is_digit y2 = true
    /\ Py.is_digit y3 = true /\ Py.is_digit y4 = true
    /\ Py.parse_month r = Some (m, String "-" r')
    /\ Py.parse_day r' = Some (dd, EmptyString)
    /\ d = Py.mkDate (1000 * Py.digit_value y1 + 100 * Py.digit_value y2
                      + 10 * Py.digit_value y3 + Py.digit_value y4) m dd.
Proof.
  unfold Py.strptime.
  destruct s as [|y1 [|y2 [|y3 [|y4 [|c5 r]]]]]; try discriminate.
  destruct c5 as [[] [] [] [] [] [] [] []]; try discriminate.
  destruct (Py.is_digit y1 && Py.is_digit y2 && Py.is_digit y3 && Py.is_digit y4)
    eqn:Hd; [|discriminate].
  apply andb_true_iff in Hd as [Hd H4].
  apply andb_true_iff in Hd as [Hd H3].
  apply andb_true_iff in Hd as [H1 H2].
  destruct (Py.parse_month r) as [[m rest]|] eqn:Hm; [|discriminate].
  destruct rest as [|c6 r']; [discriminate|].
  destruct c6 as [[] [] [] [] [] [] [] []]; try discriminate.
  destruct (Py.parse_day r') as [[dd rest']|] eqn:Hday; [|discriminate].
  destruct rest'; [|discriminate].
  destruct (_ && _); [|discriminate].
  intros [= <-]. by exists y1, y2, y3, y4, r, m, r', dd.
Qed.

(** A date that was formatted by [strftime('%Y-%m-%d')] and parses, parses
    to itself. *)
Lemma strptime_strftime zero_padded d d' :
  Py.strptime (Py.strftime zero_padded d) = Some d' -> d' = d.
Proof.
  intros H. apply strptime_inv in H
    as (y1 & y2 & y3 & y4 & r & m & r' & dd & Hs & H1 & H2 & H3 & H4 & Hm & Hd & ->).
  destruct d as [y mo da]. unfold Py.strftime, Py.strftime_Y in Hs. simpl in Hs.
  assert (forall k, Py.is_digit (Py.digit_char k) = true ->
            Py.digit_value (Py.digit_char k) = k /\ 0 <= k <= 9) as Hdigit.
  { intros k Hk. by destruct (is_digit_digit_char k Hk). }
  assert (Py.is_digit "-" = false) as Hdash by reflexivity.
  destruct (zero_padded || (1000 <=? y)) eqn:Hpad.
  - unfold Py.four_digits, Py.two_digits in Hs. simpl in Hs.
    injection Hs as <- <- <- <- <-.
    apply Hdigit in H1 as [-> B1], H2 as [-> B2], H3 as [-> B3], H4 as [-> B4].
    apply parse_month_two_digits in Hm as [-> ->];
      [|pose proof (Z.mod_pos_bound mo 10); lia].
    apply parse_day_two_digits in Hd;
      [|pose proof (Z.mod_pos_bound da 10); lia|done].
    subst dd. f_equal; Z.div_mod_to_equations; lia.
  - exfalso. destruct (100 <=? y).
    { unfold Py.two_digits in Hs. simpl in Hs. injection Hs as _ _ _ <- _.
      by rewrite Hdash in H4. }
    destruct (10 <=? y).
    { unfold Py.two_digits in Hs. simpl in Hs. injection Hs as _ _ <- _.
      by rewrite Hdash in H3. }
    simpl in Hs. injection Hs as _ <- _. by rewrite Hdash in H2.
Qed.

(** ** Cached hits and the range they are stored under *)

(** The date of the event, when it parses, lies inside the range. *)
Definition dated_within (cache_start cache_end : Py.datetime)
    (ev : ResearchEvent) : Prop :=
  forall d, Py.strptime (exact_date ev) = Some d ->
    Py.dt_le cache_start d = true /\ Py.dt_le d cache_end = true.

(** Every stored range has a key that parses, and holds only events dated
    inside the range of its key. *)
Definition stored_in_range (event_cache : EventCache) : Prop :=
  forall location key events,
    (key, events) ∈ ranges_of event_cache location ->
    exists cache_start cache_end,
      parse_range key = Some (cache_start, cache_end)
      /\ Forall (dated_within cache_start cache_end) events.

Lemma moment_le_midnight_l start_dt event_date :
  moment_le (midnight start_dt) event_date = true ->
  Py.dt_le start_dt (moment_date event_date) = true.
Proof.
  destruct start_dt, event_date as [[] t]. unfold moment_le, date_eqb. simpl.
  dates. lia.
Qed.

Lemma moment_le_midnight_r end_dt event_date :
  moment_le event_date (midnight end_dt) = true ->
  Py.dt_le (moment_date event_date) end_dt = true.
Proof.
  destruct end_dt, event_date as [[] t]. unfold moment_le, date_eqb. simpl.
  dates. lia.
Qed.

Lemma dict_set_elem_inv {V} (k k' : string) (v v' : V) d :
  (k', v') ∈ dict_set k v d -> (k', v') = (k, v) \/ (k', v') ∈ d.
Proof.
  induction d as [|[k0 v0] d IH]; simpl.
  - intros ->%list_elem_of_singleton. by left.
  - destruct (String.eqb k0 k) eqn:E.
    + apply String.eqb_eq in E as ->.
      intros [->|Hin]%elem_of_cons; [by left|]. right. apply elem_of_cons. by right.
    + intros [->|Hin]%elem_of_cons.
      * right. apply elem_of_cons. by left.
      * destruct (IH Hin) as [->|Hd]; [by left|]. right. apply elem_of_cons. by right.
Qed.

Lemma evict_oldest_elem entry ranges :
  entry ∈ evict_oldest ranges -> entry ∈ ranges.
Proof.
  unfold evict_oldest. destruct (5 <? length ranges)%nat; [|done].
  destruct ranges; [done|]. simpl. intros H. apply elem_of_cons. by right.
Qed.

Lemma _cache_events_stored_in_range location start_date end_date events
    (event_cache : EventCache) cache_start cache_end :
  Py.strptime start_date = Some cache_start ->
  Py.strptime end_date = Some cache_end ->
  Forall (dated_within cache_start cache_end) events ->
  stored_in_range event_cache ->
  stored_in_range (_cache_events location start_date end_date events event_cache).
Proof.
  intros Hs He Hev Hinv l key evs. rewrite _cache_events_ranges.
  unfold ranges_of at 1. rewrite lookup_insert.
  case_decide as Hl.
  - subst l. simpl. intros Hin%evict_oldest_elem.
    apply dict_set_elem_inv in Hin as [[= -> ->]|Hin].
    + exists cache_start, cache_end. split; [|done].
      by apply parse_range_cache_key.
    + by apply (Hinv location).
  - apply (Hinv l).
Qed.

Lemma serp_loop_events (source : SerpSource) (P : SerpEvent -> Prop)
    max_results i queries all_events sent :
  (forall i q l, source i q = Some l -> Forall P l) ->
  Forall P all_events ->
  Forall P (serp_loop source max_results i queries all_events sent).1.
Proof.
  intros Hsrc. revert i all_events sent.
  induction queries as [|query rest IH]; intros i all_events sent Hall; simpl; [done|].
  destruct (source i query) as [extracted|] eqn:E; [|by apply IH].
  assert (Forall P (match extracted with
                    | [] => all_events
                    | _ :: _ => all_events ++ extracted
                    end)) as Hall'.
  { destruct extracted; [done|]. apply Forall_app. split; [done|]. by eapply Hsrc. }
  destruct (max_results * 2 <=? _); [done|]. by apply IH.
Qed.

Section CachedHits.

Variable zero_padded_year : bool.
Variable _classify_event_type : string -> string.
Variable month_year : Py.datetime -> string.

Lemma extract_event_dated location start_date end_date entry cache_start cache_end :
  Py.strptime start_date = Some cache_start ->
  Py.strptime end_date = Some cache_end ->
  Forall (fun event => forall d, Py.strptime (serp_date event) = Some d ->
            Py.dt_le cache_start d = true /\ Py.dt_le d cache_end = true)
    (extract_event zero_padded_year _classify_event_type location start_date
       end_date entry).
Proof.
  intros Hs He. unfold extract_event. destruct entry as [event|]; [|done].
  destruct (_ || _); [done|]. rewrite Hs, He.
  destruct (moment_le _ _ && moment_le _ _) eqn:Hin; [|done].
  apply andb_true_iff in Hin as [Hlo Hhi].
  apply Forall_cons_2; [|done]. simpl. intros d Hd.
  apply strptime_strftime in Hd as ->.
  split; [by apply moment_le_midnight_l|by apply moment_le_midnight_r].
Qed.

(** What a fetch returns is dated inside the range asked for. *)
Lemma serpapi_fetch_dated raw location start_date end_date category max_results :
  serpapi_fetch zero_padded_year _classify_event_type month_year raw
    location start_date end_date category max_results = []
  \/ exists cache_start cache_end,
       Py.strptime start_date = Some cache_start
       /\ Py.strptime end_date = Some cache_end
       /\ Forall (dated_within cache_start cache_end)
            (serpapi_fetch zero_padded_year _classify_event_type month_year raw
               location start_date end_date category max_results).
Proof.
  unfold serpapi_fetch, fetched_events, _get_new_events_serpapi,
    _build_optimized_queries.
  destruct (Py.strptime start_date) as [cache_start|] eqn:Hs; [|by left].
  destruct (Py.strptime end_date) as [cache_end|] eqn:He; [|by left].
  right. exists cache_start, cache_end. split; [done|split; [done|]].
  simpl. unfold Py.slice_to, _convert_to_research_events.
  match goal with
  | |- context [serp_loop ?src ?m ?i ?qs ?a ?s] =>
      pose proof (serp_loop_events src
                    (fun event => forall d, Py.strptime (serp_date event) = Some d ->
                       Py.dt_le cache_start d = true /\ Py.dt_le d cache_end = true)
                    m i qs a s) as Hloop
  end.
  destruct (0 <=? max_results); apply Forall_take, Forall_fmap;
    (eapply Forall_impl; [apply Hloop|]); try done.
  all: intros i q l Hsrc; unfold extracting in Hsrc;
    destruct (raw i q) as [data|]; [|done]; injection Hsrc as <-;
    unfold _extract_events_from_serpapi; apply Forall_bind, Forall_forall;
    intros entry _; by apply extract_event_dated.
Qed.

Lemma discover_events_stored_in_range raw location start_date end_date categories
    max_results event_cache :
  stored_in_range event_cache ->
  stored_in_range
    (discover_events
       (serpapi_fetch zero_padded_year _classify_event_type month_year raw)
       location start_date end_date categories max_results event_cache).2.
Proof.
  intros Hinv. unfold discover_events.
  destruct (_get_cached_events event_cache location start_date end_date)
    as [cached|]; [|done].
  simpl. destruct (0 <? _); [|done].
  match goal with
  | |- context [serpapi_fetch _ _ _ raw ?l ?s ?e ?c ?m] =>
      destruct (serpapi_fetch_dated raw l s e c m)
        as [Hnone|(cache_start & cache_end & Hs & He & Hdated)];
      [by rewrite Hnone|];
      destruct (serpapi_fetch _ _ _ raw l s e c m) as [|ev fresh] eqn:Hf; [done|]
  end.
  by eapply _cache_events_stored_in_range.
Qed.

Lemma reachable_stored_in_range event_cache :
  reachable zero_padded_year _classify_event_type month_year event_cache ->
  stored_in_range event_cache.
Proof.
  induction 1 as [|event_cache raw location start_date end_date categories
                   max_results _ IH].
  - intros location key events Hin. unfold ranges_of in Hin.
    rewrite lookup_empty in Hin. by apply elem_of_nil in Hin.
  - by apply discover_events_stored_in_range.
Qed.

(** C1.  Of the stored ranges of the searched location that overlap the
    search range, [_get_cached_events] returns the events dated inside the
    search range; and in every cache that the engine can reach such an
    event is dated inside the range it is stored under as well, because
    the fetch only delivers events dated inside the range asked for.  So a
    cached hit lies inside its stored range.  In particular the search
    range from 15 January to 15 February 2024 overlaps the stored range of
    January 2024, and when January is the stored range no cached hit is
    dated 2024-02-01. *)
Theorem cached_hits_lie_inside_their_stored_range (event_cache : EventCache) :
  reachable zero_padded_year _classify_event_type month_year event_cache ->
  (forall location start_date end_date hits ev,
     _get_cached_events event_cache location start_date end_date = Some hits ->
     ev ∈ hits ->
     exists key events cache_start cache_end search_start search_end d,
       (key, events) ∈ ranges_of event_cache location
       /\ ev ∈ events
       /\ parse_range key = Some (cache_start, cache_end)
       /\ Py.strptime start_date = Some search_start
       /\ Py.strptime end_date = Some search_end
       /\ _ranges_overlap search_start search_end cache_start cache_end = true
       /\ Py.strptime (exact_date ev) = Some d
       /\ Py.dt_le cache_start d = true /\ Py.dt_le d cache_end = true
       /\ Py.dt_le search_start d = true /\ Py.dt_le d search_end = true)
  /\ _ranges_overlap (Py.mkDate 2024 1 15) (Py.mkDate 2024 2 15)
       (Py.mkDate 2024 1 1) (Py.mkDate 2024 1 31) = true
  /\ (forall location events hits,
       ranges_of event_cache location = [("2024-01-01_2024-01-31", events)] ->
       _get_cached_events event_cache location "2024-01-15" "2024-02-15"
       = Some hits ->
       forall ev, ev ∈ hits -> exact_date ev <> "2024-02-01").
Proof.
  intros Hinv%reachable_stored_in_range.
  assert (forall location start_date end_date hits ev,
            _get_cached_events event_cache location start_date end_date = Some hits ->
            ev ∈ hits ->
            exists key events cache_start cache_end search_start search_end d,
              (key, events) ∈ ranges_of event_cache location
              /\ ev ∈ events
              /\ parse_range key = Some (cache_start, cache_end)
              /\ Py.strptime start_date = Some search_start
              /\ Py.strptime end_date = Some search_end
              /\ _ranges_overlap search_start search_end cache_start cache_end = true
              /\ Py.strptime (exact_date ev) = Some d
              /\ Py.dt_le cache_start d = true /\ Py.dt_le d cache_end = true
              /\ Py.dt_le search_start d = true /\ Py.dt_le d search_end = true)
    as Hhits.
  { intros location start_date end_date hits ev Hget Hev.
    unfold _get_cached_events in Hget.
    destruct (event_cache !! location) as [ranges|] eqn:Hl.
    2: { injection Hget as <-. by apply elem_of_nil in Hev. }
    assert (ranges_of event_cache location = ranges) as Hranges
      by (unfold ranges_of; by rewrite Hl).
    destruct (Py.strptime start_date) as [search_start|]; [|done].
    destruct (Py.strptime end_date) as [search_end|]; [|done].
    simpl in Hget. rewrite cached_in_ranges_spec in Hget.
    2: { apply Forall_forall. intros [key events] Hin. simpl.
         destruct (Hinv location key events) as (cs & ce & -> & _); [|done].
         by rewrite Hranges. }
    injection Hget as <-. simpl in Hev.
    apply list_elem_of_bind in Hev as ([key events] & Hev & Hin).
    unfold range_hits in Hev. simpl in Hev.
    destruct (Hinv location key events) as (cs & ce & Hkey & Hdated);
      [by rewrite Hranges|].
    rewrite Hkey in Hev.
    destruct (_ranges_overlap search_start search_end cs ce) eqn:Ho;
      [|by apply elem_of_nil in Hev].
    apply list_elem_of_filter in Hev as [Hsearch Hev]. unfold in_search_range in Hsearch.
    destruct (Py.strptime (exact_date ev)) as [d|] eqn:Hd; [|done].
    apply andb_true_iff in Hsearch as [Hlo Hhi].
    rewrite Forall_forall in Hdated.
    destruct (Hdated ev Hev d Hd) as [Hclo Hchi].
    exists key, events, cs, ce, search_start, search_end, d.
    rewrite Hranges. done. }
  split; [exact Hhits|]. split; [reflexivity|].
  intros location events hits Hranges Hget ev Hev Hdate.
  destruct (Hhits _ _ _ _ _ Hget Hev)
    as (key & events' & cs & ce & ss & se & d & Hin & _ & Hkey & _ & _ & _
        & Hd & _ & Hchi & _).
  rewrite Hranges in Hin. apply list_elem_of_singleton in Hin. injection Hin as -> ->.
  rewrite Hdate in Hd. vm_compute in Hkey, Hd.
  injection Hkey as <- <-. injection Hd as <-. discriminate Hchi.
Qed.

End CachedHits.

(** The answer to the first request of a January search in Austin: a jazz
    night on 20 January, a gala on 1 February, a flea market on 27 January;
    nothing for the other requests. *)
Definition january_answers : RawSource :=
  fun i _ =>
    match i with
    | O =>
        Some [Some (mkRawEvent "Jazz Night" (midnight (Py.mkDate 2024 1 20))
                      (Some "Main Hall") "" "https://example.org/jazz");
              Some (mkRawEvent "Winter Gala" (midnight (Py.mkDate 2024 2 1))
                      (Some "Town Hall") "" "https://example.org/gala");
              Some (mkRawEvent "Flea Market" (midnight (Py.mkDate 2024 1 27))
                      None "" "https://example.org/flea")]
    | S _ => Some []
    end.

(** Later the upstream offers the jazz night in capitals, and an open mic. *)
Definition later_answers : RawSource :=
  fun i _ =>
    match i with
    | O =>
        Some [Some (mkRawEvent "JAZZ NIGHT" (midnight (Py.mkDate 2024 1 20))
                      (Some "Main Hall") "" "https://example.org/jazz-night");
              Some (mkRawEvent "Open Mic" (midnight (Py.mkDate 2024 1 30))
                      None "" "https://example.org/mic")]
    | S _ => Some []
    end.

Definition engine_fetch (raw : RawSource) :=
  serpapi_fetch true (fun _ => "other") (fun _ => "January 2024") raw.

(** The cache after a first search of two events in Austin in January 2024. *)
Definition austin_cache : EventCache :=
  (discover_events (engine_fetch january_answers) "Austin" "2024-01-01"
     "2024-01-31" ["music"] 2 ∅).2.

Definition jazz_night : ResearchEvent :=
  mkResearchEvent "Jazz Night" "2024-01-20" "Main Hall" "Austin" "other"
    (85 # 100) "https://example.org/jazz" "Google Events".

Definition flea_market : ResearchEvent :=
  mkResearchEvent "Flea Market" "2024-01-27" "Austin" "Austin" "other"
    (85 # 100) "https://example.org/flea" "Google Events".

Example austin_cache_holds_january :
  ranges_of austin_cache "Austin"
  = [("2024-01-01_2024-01-31", [jazz_night; flea_market])]
  /\ _get_cached_events austin_cache "Austin" "2024-01-15" "2024-02-15"
     = Some [jazz_night; flea_market].
Proof. split; vm_compute; reflexivity. Qed.

Lemma austin_cache_reachable :
  reachable true (fun _ => "other") (fun _ => "January 2024") austin_cache.
Proof. apply reachable_discover, reachable_empty. Qed.

Lemma cached_hits_lie_inside_their_stored_range_witness :
  (exists key events cache_start cache_end search_start search_end d,
     (key, events) ∈ ranges_of austin_cache "Austin"
     /\ jazz_night ∈ events
     /\ parse_range key = Some (cache_start, cache_end)
     /\ Py.strptime "2024-01-15" = Some search_start
     /\ Py.strptime "2024-02-15" = Some search_end
     /\ _ranges_overlap search_start search_end cache_start cache_end = true
     /\ Py.strptime (exact_date jazz_night) = Some d
     /\ Py.dt_le cache_start d = true /\ Py.dt_le d cache_end = true
     /\ Py.dt_le search_start d = true /\ Py.dt_le d search_end = true)
  /\ forall ev, ev ∈ [jazz_night; flea_market] -> exact_date ev <> "2024-02-01".
Proof.
  destruct (cached_hits_lie_inside_their_stored_range true (fun _ => "other")
              (fun _ => "January 2024") austin_cache austin_cache_reachable)
    as (Hhits & _ & Hjan).
  split.
  - apply (Hhits "Austin" "2024-01-15" "2024-02-15" [jazz_night; flea_market]).
    + vm_compute. reflexivity.
    + apply elem_of_cons. by left.
  - apply (Hjan "Austin" [jazz_night; flea_market]).
    + vm_compute. reflexivity.
    + vm_compute. reflexivity.
Defined.

(** The deduplication theorem on that cache, for a search of three events
    in January: the cached jazz night is kept, the fresh copy in capitals
    is dropped. *)
Lemma discover_events_deduplicates_and_truncates_witness :
  let cached := [jazz_night; flea_market] in
  let fresh := fresh_events (engine_fetch later_answers) "Austin" "2024-01-01"
                 "2024-01-31" ["music"] 3 cached in
  let key := fun ev : ResearchEvent =>
               (Py.strip (Py.lower (event_name ev)), exact_date ev) in
  let unique := _remove_duplicates (cached ++ fresh) in
  let result :=
    (discover_events (engine_fetch later_answers) "Austin" "2024-01-01"
       "2024-01-31" ["music"] 3 austin_cache).1 in
  result = take (Z.to_nat 3) unique
  /\ Z.of_nat (length result) <= 3
  /\ sublist unique (cached ++ fresh)
  /\ NoDup (key <$> unique)
  /\ (forall ev, ev ∈ cached ++ fresh -> key ev ∈ key <$> unique)
  /\ (forall before ev after,
        cached ++ fresh = before ++ ev :: after ->
        key ev ∉ key <$> before ->
        exists rest, unique = _remove_duplicates before ++ ev :: rest)
  /\ unique = _remove_duplicates cached
              ++ filter (fun ev => key ev ∉ key <$> cached)
                   (_remove_duplicates fresh).
Proof.
  apply (discover_events_deduplicates_and_truncates (engine_fetch later_answers)
           "Austin" "2024-01-01" "2024-01-31" ["music"] 3 austin_cache
           [jazz_night; flea_market]).
  - vm_compute. reflexivity.
  - lia.
  - apply (bool_decide_unpack _). vm_compute. reflexivity.
Defined.

Example cached_instance_is_retained :
  fresh_events (engine_fetch later_answers) "Austin" "2024-01-01" "2024-01-31"
    ["music"] 3 [jazz_night; flea_market]
  = [mkResearchEvent "JAZZ NIGHT" "2024-01-20" "Main Hall" "Austin" "other"
       (85 # 100) "https://example.org/jazz-night" "Google Events"]
  /\ (discover_events (engine_fetch later_answers) "Austin" "2024-01-01"
        "2024-01-31" ["music"] 3 austin_cache).1
     = [jazz_night; flea_market].
Proof. split; vm_compute; reflexivity. Qed.

(** C8, as stated, fails for a negative [max_results], which the handler
    passes on: the engine fetches nothing and slices from the end, so the
    two cached events of January give one result where at most -1 were
    asked for. *)
Lemma negative_max_results_is_not_a_bound :
  let result :=
    (discover_events (engine_fetch later_answers) "Austin" "2024-01-01"
       "2024-01-31" ["music"] (-1) austin_cache).1 in
  reachable true (fun _ => "other") (fun _ => "January 2024") austin_cache
  /\ _get_cached_events austin_cache "Austin" "2024-01-01" "2024-01-31"
     = Some [jazz_night; flea_market]
  /\ result = [jazz_night]
  /\ ~ (Z.of_nat (length result) <= -1).
Proof.
  split; [exact austin_cache_reachable|].
  split; [vm_compute; reflexivity|].
  split; [vm_compute; reflexivity|].
  vm_compute. intros H. by apply H.
Qed.

(** ** The query of the attendee engine *)

Module Re.

(** [\w] on ASCII: letters, digits and the underscore. *)
Definition is_word (c : ascii) : bool :=
  let n := nat_of_ascii c in
  ((48 <=? n)%nat && (n <=? 57)%nat)
  || ((65 <=? n)%nat && (n <=? 90)%nat)
  || ((97 <=? n)%nat && (n <=? 122)%nat)
  || (n =? 95)%nat.

Definition is_ascii (c : ascii) : bool := (nat_of_ascii c <? 128)%nat.

(** [re.sub(r'[^\w\s]', '', s)]: the characters that are neither word
    characters nor white space are removed. *)
Fixpoint sub_non_word_space (s : string) : string :=
  match s with
  | EmptyString => EmptyString
  | String c r =>
      if is_word c || Py.is_space c then String c (sub_non_word_space r)
      else sub_non_word_space r
  end.

End Re.

(** The double quote character. *)
Definition dquote : ascii := ascii_of_nat 34.

(** [_build_single_query(event_name)], on ASCII names. *)
Definition _build_single_query (event_name : string) : string :=
  let clean_name := Py.strip (Re.sub_non_word_space event_name) in
  if Py.is_empty clean_name then EmptyString
  else String dquote clean_name
       +:+ String dquote " OR attending "
       +:+ String dquote clean_name
       +:+ String dquote " -is:retweet".

(** Every character of [s] satisfies [P]. *)
Fixpoint all_chars (P : ascii -> bool) (s : string) : bool :=
  match s with
  | EmptyString => true
  | String c r => P c && all_chars P r
  end.

Lemma is_word_not_space c : Re.is_word c = true -> Py.is_space c = false.
Proof.
  unfold Re.is_word, Py.is_space. cbv zeta.
  rewrite !orb_true_iff, !andb_true_iff, orb_false_iff, !andb_false_iff,
    !Nat.leb_le, !Nat.leb_gt, Nat.eqb_eq. lia.
Qed.

Lemma lstrip_spaces s : all_chars Py.is_space s = true -> Py.lstrip s = EmptyString.
Proof.
  induction s as [|c r IH]; simpl; [done|].
  intros [Hc Hr]%andb_true_iff. rewrite Hc. by apply IH.
Qed.

Lemma lstrip_empty s : Py.lstrip s = EmptyString -> all_chars Py.is_space s = true.
Proof.
  induction s as [|c r IH]; simpl; [done|].
  destruct (Py.is_space c); [simpl; apply IH|discriminate].
Qed.

Lemma rstrip_lstrip_empty s :
  Py.rstrip (Py.lstrip s) = EmptyString -> Py.lstrip s = EmptyString.
Proof.
  induction s as [|c r IH]; simpl; [done|].
  destruct (Py.is_space c) eqn:Hc; [apply IH|].
  simpl. rewrite Hc. simpl. discriminate.
Qed.

Lemma strip_empty_iff s :
  Py.strip s = EmptyString <-> all_chars Py.is_space s = true.
Proof.
  unfold Py.strip. split.
  - intros H. by apply lstrip_empty, rstrip_lstrip_empty.
  - intros H. by rewrite (lstrip_spaces _ H).
Qed.

Lemma sub_non_word_space_spaces s :
  all_chars Py.is_space (Re.sub_non_word_space s) = all_chars (fun c => negb (Re.is_word c)) s.
Proof.
  induction s as [|c r IH]; simpl; [done|].
  destruct (Re.is_word c) eqn:Hw; simpl.
  - by rewrite (is_word_not_space _ Hw).
  - destruct (Py.is_space c) eqn:Hs; simpl; [by rewrite Hs|done].
Qed.

Lemma _build_single_query_empty event_name :
  Py.is_empty (_build_single_query event_name) = true
  <-> all_chars (fun c => negb (Re.is_word c)) event_name = true.
Proof.
  unfold _build_single_query. rewrite <- sub_non_word_space_spaces, <- strip_empty_iff.
  destruct (Py.strip (Re.sub_non_word_space event_name)); simpl; split; done.
Qed.

Section AttendeeEngineMore.

Variable clock : nat -> Z.
Variable hash : string -> Z.
Variable fromtimestamp : Z -> option Z.
Variable _is_relevant_tweet : string -> string -> bool.
Variable _calculate_confidence_scores : list ResearchAttendee -> list ResearchAttendee.

(** X28.  An event name without a letter, a digit or an underscore is
    never searched for: its query is empty, and [discover_attendees]
    returns no attendee without an upstream invocation, without consuming
    quota and without reading the clock. *)
Theorem name_without_word_character_is_never_searched
    (event_name : string) (max_results : Z) (w : World) :
  all_chars (fun c => Re.is_ascii c && negb (Re.is_word c)) event_name = true ->
  _build_single_query event_name = EmptyString
  /\ discover_attendees clock hash fromtimestamp _build_single_query _is_relevant_tweet
       _calculate_confidence_scores event_name max_results w
     = (Ok [], w).
Proof.
  intros Hname.
  assert (all_chars (fun c => negb (Re.is_word c)) event_name = true) as Hw.
  { clear -Hname. induction event_name as [|c r IH]; simpl in *; [done|].
    apply andb_true_iff in Hname as [[_ Hc]%andb_true_iff Hr].
    rewrite Hc. by apply IH. }
  apply _build_single_query_empty in Hw.
  assert (_build_single_query event_name = EmptyString) as Hq
    by (by destruct (_build_single_query event_name)).
  split; [done|].
  unfold discover_attendees. rewrite Hq. unfold _search_twitter_safe. simpl.
  munfold. by destruct (is_operational w).
Qed.

Lemma _search_twitter_safe_invokes (query : string) (max_results : Z) :
  invokes (fun c => call_kwargs c !! "max_results"
                    = Some (VInt (Z.max 10 (Z.min (max_results * 3) 100)))) 2
    (_search_twitter_safe clock hash fromtimestamp query max_results).
Proof.
  unfold _search_twitter_safe.
  destruct (Py.is_empty query).
  { apply (invokes_weaken _ 0); [|lia]. apply invokes_unchanged, unchanged_ret. }
  set (kwargs := <["tweet_fields" := _]> _).
  assert (invokes (fun c => call_kwargs c !! "max_results"
                            = Some (VInt (Z.max 10 (Z.min (max_results * 3) 100)))) 2
            (search_recent_tweets_safe clock hash fromtimestamp query
               (Py.max 10 (Py.min (max_results * 3) 100)) kwargs)) as Hs.
  { eapply invokes_impl; [|apply search_recent_tweets_safe_invokes].
    intros c ->. unfold Py.max, Py.min. do 2 f_equal. lia. }
  apply (invokes_try _ 2 0); [|intros; apply invokes_unchanged, unchanged_ret].
  apply (invokes_bind _ 2 0); [exact Hs|].
  intros tweets. apply invokes_unchanged. frame.
Qed.

Lemma discover_attendees_invokes build (event_name : string) (max_results : Z) :
  invokes (fun c => call_kwargs c !! "max_results"
                    = Some (VInt (Z.max 10 (Z.min (max_results * 3) 100)))) 2
    (discover_attendees clock hash fromtimestamp build _is_relevant_tweet
       _calculate_confidence_scores event_name max_results).
Proof.
  unfold discover_attendees.
  apply (invokes_try _ 2 0); [|intros; apply invokes_unchanged, unchanged_ret].
  apply (invokes_bind _ 0 2); [apply invokes_unchanged, unchanged_gets|].
  intros operational. destruct (negb operational).
  { apply (invokes_weaken _ 0); [|lia]. apply invokes_unchanged, unchanged_ret. }
  apply (invokes_bind _ 2 0); [apply _search_twitter_safe_invokes|].
  intros tweets. apply invokes_unchanged. destruct tweets; apply unchanged_ret.
Qed.

Lemma discover_attendees_returns build (event_name : string) (max_results : Z) w :
  exists attendees,
    (discover_attendees clock hash fromtimestamp build _is_relevant_tweet
       _calculate_confidence_scores event_name max_results w).1 = Ok attendees
    /\ (0 <= max_results -> Z.of_nat (length attendees) <= max_results).
Proof.
  unfold discover_attendees, try_except.
  match goal with |- context [(?m ≫= ?f) w] => destruct ((m ≫= f) w) as [[l|e] w'] eqn:E end;
    simpl.
  2: { exists []. split; [done|simpl; lia]. }
  exists l. split; [done|]. intros Hmax.
  revert E. munfold. simpl.
  destruct (negb (is_operational w)).
  { intros [= <- _]. simpl. lia. }
  destruct (_search_twitter_safe clock hash fromtimestamp (build event_name) max_results w)
    as [[tweets|e] w1]; [|done].
  destruct tweets; intros [= <- _]; [simpl; lia|].
  by apply slice_to_length.
Qed.

End AttendeeEngineMore.

(** The name of an event given as three dashes. *)
Lemma name_without_word_character_is_never_searched_witness :
  _build_single_query "---" = EmptyString
  /\ discover_attendees (fun _ => 0) (fun _ => 7) (fun t => Some t) _build_single_query
       (fun _ _ => true) (fun l => l) "---" 5
       (new_twitter_client (Some (mkClient (fun _ _ => Returns None))))
     = (Ok [], new_twitter_client (Some (mkClient (fun _ _ => Returns None)))).
Proof.
  apply (name_without_word_character_is_never_searched (fun _ => 0) (fun _ => 7) (fun t => Some t)
           (fun _ _ => true) (fun l => l) "---" 5
           (new_twitter_client (Some (mkClient (fun _ _ => Returns None))))).
  reflexivity.
Defined.

(** ** [app.py]: the two discovery handlers *)

Module App.

(** [EventDiscoveryRequest] *)
Record EventDiscoveryRequest := mkEventDiscoveryRequest {
  ev_location : string;
  ev_start_date : string;
  ev_end_date : string;
  ev_categories : list string;
  ev_max_results : Z
}.

(** [AttendeeDiscoveryRequest] *)
Record AttendeeDiscoveryRequest := mkAttendeeDiscoveryRequest {
  att_event_name : string;
  att_max_results : Z
}.

(** The dictionary that the events handler returns (its constant
    [success] and [engine] entries left out). *)
Record EventDiscoveryResponse := mkEventDiscoveryResponse {
  events : list ResearchEvent;
  total_events : Z;
  ev_requested_limit : Z;
  ev_response_location : string;
  ev_api_calls_used : Z
}.

(** The dictionary that the attendees handler returns (its constant
    [success] and [engine] entries left out). *)
Record AttendeeDiscoveryResponse := mkAttendeeDiscoveryResponse {
  attendees : list ResearchAttendee;
  total_attendees : Z;
  att_requested_limit : Z;
  att_response_event_name : string;
  att_api_calls_used : Z
}.

(** The handler of [POST /api/discover-events]: the response, and the cache
    of the engine afterwards.  The engine does not raise, so the handler's
    own [except] branch is never taken. *)
Definition discover_events
    (_get_new_events_serpapi : string -> string -> string -> string -> Z
                               -> list ResearchEvent)
    (request : EventDiscoveryRequest) (event_cache : EventCache)
    : EventDiscoveryResponse * EventCache :=
  let max_results :=
    if 20 <? ev_max_results request then 20 else ev_max_results request in
  let found :=
    discover_events _get_new_events_serpapi (ev_location request)
      (ev_start_date request) (ev_end_date request) (ev_categories request)
      max_results event_cache in
  (mkEventDiscoveryResponse found.1 (Z.of_nat (length found.1)) max_results
     (ev_location request) 1,
   found.2).

(** The handler of [POST /api/discover-attendees]; an exception of the
    engine would be raised again as an HTTP error. *)
Definition discover_attendees (clock : nat -> Z) (hash : string -> Z)
    (fromtimestamp : Z -> option Z)
    (_is_relevant_tweet : string -> string -> bool)
    (_calculate_confidence_scores : list ResearchAttendee -> list ResearchAttendee)
    (request : AttendeeDiscoveryRequest) : M AttendeeDiscoveryResponse :=
  try_except
    (let max_results :=
       if 30 <? att_max_results request then 30 else att_max_results request in
     found ← discover_attendees clock hash fromtimestamp _build_single_query
                _is_relevant_tweet _calculate_confidence_scores
                (att_event_name request) max_results;
     mret (mkAttendeeDiscoveryResponse found (Z.of_nat (length found)) max_results
             (att_event_name request) 1))
    (fun _ => raise OtherException).

End App.

(** X29.  The events handler caps the request at 20: for a request of
    [max_results >= 0] events the response holds at most
    [min(max_results, 20)] events, reports that number as the limit, and
    counts the events it holds; the cache keeps its bound of five ranges
    per location. *)
Theorem events_handler_caps_the_request
    (fetch : string -> string -> string -> string -> Z -> list ResearchEvent)
    (request : App.EventDiscoveryRequest) (event_cache : EventCache) :
  0 <= App.ev_max_results request ->
  let answer := App.discover_events fetch request event_cache in
  App.ev_requested_limit answer.1 = Z.min (App.ev_max_results request) 20
  /\ App.total_events answer.1 = Z.of_nat (length (App.events answer.1))
  /\ App.total_events answer.1 <= App.ev_requested_limit answer.1 <= 20
  /\ ((forall l, (length (ranges_of event_cache l) <= 5)%nat) ->
      forall l, (length (ranges_of answer.2 l) <= 5)%nat).
Proof.
  intros Hmax. simpl.
  set (max_results := if 20 <? App.ev_max_results request then 20
                      else App.ev_max_results request).
  assert (max_results = Z.min (App.ev_max_results request) 20) as Hcap.
  { unfold max_results. destruct (20 <? App.ev_max_results request) eqn:E; lia. }
  assert (0 <= max_results) as Hpos by lia.
  repeat split; try done.
  - unfold discover_events.
    destruct (_get_cached_events _ _ _ _) as [cached|]; simpl; [|lia].
    by apply slice_to_length.
  - lia.
  - intros Hb l. unfold discover_events.
    destruct (_get_cached_events _ _ _ _) as [cached|]; simpl; [|done].
    destruct (if 0 <? Py.max 0 (max_results - Z.of_nat (length cached)) then _ else _)
      as [|ev fresh]; [done|].
    by apply _cache_events_bound.
Qed.

Lemma events_handler_caps_the_request_witness :
  let request := App.mkEventDiscoveryRequest "Austin" "2024-01-15" "2024-01-31"
                   ["music"] 50 in
  let answer := App.discover_events two_fresh_events request january_cache in
  App.ev_requested_limit answer.1 = Z.min (App.ev_max_results request) 20
  /\ App.total_events answer.1 = Z.of_nat (length (App.events answer.1))
  /\ App.total_events answer.1 <= App.ev_requested_limit answer.1 <= 20
  /\ ((forall l, (length (ranges_of january_cache l) <= 5)%nat) ->
      forall l, (length (ranges_of answer.2 l) <= 5)%nat).
Proof.
  apply (events_handler_caps_the_request two_fresh_events
           (App.mkEventDiscoveryRequest "Austin" "2024-01-15" "2024-01-31"
              ["music"] 50) january_cache).
  simpl. lia.
Defined.

(** X30.  The attendees handler caps the request at 30 and never fails:
    it returns a response and no error, after at most two upstream
    searches, each asking for between 10 and 90 tweets; for a request of
    [max_results >= 0] attendees the response holds at most
    [min(max_results, 30)] of them. *)
Theorem attendees_handler_caps_the_request
    (clock : nat -> Z) (hash : string -> Z) (fromtimestamp : Z -> option Z)
    (_is_relevant_tweet : string -> string -> bool)
    (_calculate_confidence_scores : list ResearchAttendee -> list ResearchAttendee)
    (request : App.AttendeeDiscoveryRequest) (w : World) :
  let answer := App.discover_attendees clock hash fromtimestamp _is_relevant_tweet
                  _calculate_confidence_scores request w in
  exists response searches,
    answer.1 = Ok response
    /\ App.att_requested_limit response <= 30
    /\ App.total_attendees response = Z.of_nat (length (App.attendees response))
    /\ (0 <= App.att_max_results request ->
        App.att_requested_limit response = Z.min (App.att_max_results request) 30
        /\ App.total_attendees response <= App.att_requested_limit response)
    /\ invocations answer.2 = invocations w ++ searches
    /\ (length searches <= 2)%nat
    /\ Forall (fun c => exists n, call_kwargs c !! "max_results" = Some (VInt n)
                                  /\ 10 <= n <= 90) searches.
Proof.
  simpl. unfold App.discover_attendees.
  set (max_results := if 30 <? App.att_max_results request then 30
                      else App.att_max_results request).
  assert (max_results <= 30) as Hcap.
  { unfold max_results. destruct (30 <? App.att_max_results request) eqn:E; lia. }
  destruct (discover_attendees_returns clock hash fromtimestamp _is_relevant_tweet
              _calculate_confidence_scores _build_single_query
              (App.att_event_name request) max_results w) as (found & Hfound & Hlen).
  destruct (discover_attendees_invokes clock hash fromtimestamp _is_relevant_tweet
              _calculate_confidence_scores _build_single_query
              (App.att_event_name request) max_results w) as (searches & Hinv & Hn & HP).
  destruct (discover_attendees clock hash fromtimestamp _build_single_query _is_relevant_tweet
              _calculate_confidence_scores (App.att_event_name request) max_results w)
    as [res w'] eqn:E.
  simpl in Hfound, Hinv. subst res.
  exists (App.mkAttendeeDiscoveryResponse found (Z.of_nat (length found)) max_results
            (App.att_event_name request) 1), searches.
  munfold. rewrite E. simpl. repeat split; try done.
  - unfold max_results. destruct (30 <? App.att_max_results request) eqn:E'; lia.
  - apply Hlen. unfold max_results.
    destruct (30 <? App.att_max_results request) eqn:E'; lia.
  - eapply Forall_impl; [exact HP|]. intros c Hc. simpl in Hc.
    eexists. split; [exact Hc|]. lia.
Qed.
